(** * demo_multifile: the batch driver of the PDF parsing demo

    A shallow embedding of [demo/demo_multifile.py] (path collection,
    output layout, model cache, parse driver and batch runner) together
    with the POSIX flavour of the Python library calls it relies on, and
    the properties of the driver proved over it. *)

From Stdlib Require Import String Ascii List ZArith Bool Lia.
From stdpp Require Import base option list gmap strings pretty.

Set Warnings "-register-all".

Local Open Scope string_scope.
Local Open Scope list_scope.

(* ===================================================================== *)
(** * Part I: the model                                                   *)
(* ===================================================================== *)

(** ** [os.path] on a POSIX system ([posixpath]) *)

Module PosixPath.

Definition sep : ascii := "/"%char.

Definition is_sep (c : ascii) : bool := Ascii.eqb c sep.

(** [s.startswith('/')], which is also [os.path.isabs]. *)
Definition isabs (s : string) : bool :=
  match s with
  | String c _ => is_sep c
  | EmptyString => false
  end.

(** [s.endswith('/')] *)
Fixpoint endswith_sep (s : string) : bool :=
  match s with
  | EmptyString => false
  | String c EmptyString => is_sep c
  | String _ s' => endswith_sep s'
  end.

(** One round of the loop of [os.path.join]: an absolute component
    restarts the path, otherwise it is appended after one separator. *)
Definition join2 (path b : string) : string :=
  if isabs b then b
  else if String.eqb path "" || endswith_sep path then path +:+ b
  else path +:+ "/" +:+ b.

(** [os.path.join(a, *p)] *)
Definition join (a : string) (p : list string) : string :=
  fold_left join2 p a.

(** [s.split('/')]: never empty, keeps empty pieces. *)
Fixpoint split_sep (s : string) : list string :=
  match s with
  | EmptyString => [""]
  | String c s' =>
      if is_sep c then "" :: split_sep s'
      else match split_sep s' with
           | h :: t => String c h :: t
           | [] => [String c ""]
           end
  end.

(** [(p[:i], p[i:])] for [i = p.rfind('/') + 1]. *)
Fixpoint rcut (p : string) : string * string :=
  match p with
  | EmptyString => ("", "")
  | String c p' =>
      let '(h, t) := rcut p' in
      match h with
      | EmptyString => if is_sep c then (String c "", t) else ("", String c t)
      | _ => (String c h, t)
      end
  end.

(** [s == '/' * len(s)] *)
Fixpoint all_sep (s : string) : bool :=
  match s with
  | EmptyString => true
  | String c s' => is_sep c && all_sep s'
  end.

(** [s.rstrip('/')] *)
Fixpoint rstrip_sep (s : string) : string :=
  match s with
  | EmptyString => ""
  | String c s' =>
      match rstrip_sep s' with
      | EmptyString => if is_sep c then "" else String c ""
      | r => String c r
      end
  end.

(** ['/' in s] *)
Fixpoint has_sep (s : string) : bool :=
  match s with
  | EmptyString => false
  | String c s' => is_sep c || has_sep s'
  end.

(** [os.path.split]: the head loses its trailing slashes unless it is
    made of slashes only. *)
Definition split (p : string) : string * string :=
  let '(head, tail) := rcut p in
  (if negb (String.eqb head "") && negb (all_sep head) then rstrip_sep head else head,
   tail).

Definition dirname (p : string) : string := fst (split p).

Definition basename (p : string) : string := snd (rcut p).

(** The loop body of [os.path.normpath]; the stack of kept components is
    held most recent first. *)
Definition norm_step (initial_slashes : bool) (new_comps : list string) (comp : string)
  : list string :=
  if String.eqb comp "" || String.eqb comp "." then new_comps
  else if negb (String.eqb comp "..")
          || (negb initial_slashes && match new_comps with [] => true | _ => false end)
          || match new_comps with c :: _ => String.eqb c ".." | [] => false end
       then comp :: new_comps
       else match new_comps with
            | _ :: rest => rest
            | [] => []
            end.

(** The number of slashes [normpath] puts back in front: POSIX keeps
    exactly two leading slashes apart from one. *)
Definition initial_slashes (path : string) : nat :=
  match path with
  | String c1 (String c2 (String c3 _)) =>
      if is_sep c1 then if is_sep c2 then if is_sep c3 then 1 else 2 else 1 else 0
  | String c1 (String c2 EmptyString) =>
      if is_sep c1 then if is_sep c2 then 2 else 1 else 0
  | String c1 EmptyString => if is_sep c1 then 1 else 0
  | EmptyString => 0
  end%nat.

Definition norm_comps (path : string) : list string :=
  rev (fold_left (norm_step (isabs path)) (split_sep path) []).

Definition slashes (n : nat) : string :=
  string_of_list_ascii (repeat sep n).

Definition normpath (path : string) : string :=
  if String.eqb path "" then "."
  else
    let r := slashes (initial_slashes path) +:+ String.concat "/" (norm_comps path) in
    if String.eqb r "" then "." else r.

(** [os.path.abspath], with the working directory as returned by
    [os.getcwd()]. *)
Definition abspath (cwd path : string) : string :=
  normpath (if isabs path then path else join2 cwd path).

(** [[x for x in s.split('/') if x]] *)
Definition nonempty_comps (s : string) : list string :=
  List.filter (fun x => negb (String.eqb x "")) (split_sep s).

(** [len(commonprefix([l1, l2]))] on two lists of components. *)
Fixpoint common_prefix_len (l1 l2 : list string) : nat :=
  match l1, l2 with
  | x :: l1', y :: l2' => if String.eqb x y then S (common_prefix_len l1' l2') else 0
  | _, _ => 0
  end.

(** [os.path.relpath(path, start)]; [None] is the [ValueError] raised on
    an empty [path]. *)
Definition relpath (cwd path start : string) : option string :=
  if String.eqb path "" then None
  else
    let start_list := nonempty_comps (abspath cwd start) in
    let path_list := nonempty_comps (abspath cwd path) in
    let i := common_prefix_len start_list path_list in
    let rel_list := repeat ".." (length start_list - i) ++ skipn i path_list in
    match rel_list with
    | [] => Some "."
    | a :: p => Some (join a p)
    end.

End PosixPath.

(** ** [pathlib.PurePosixPath]: the part [main] uses *)

Module Pathlib.

(** [Path(p).name]: the last component, where empty and [.] components
    do not count; the root alone has the empty name. *)
Definition name (p : string) : string :=
  List.last (List.filter (fun x => negb (String.eqb x "" || String.eqb x "."))
               (PosixPath.split_sep p)) "".

(** [(s[:i], s[i+1:])] for [i = s.rfind('.')], when there is a dot. *)
Fixpoint rcut_dot (s : string) : option (string * string) :=
  match s with
  | EmptyString => None
  | String c s' =>
      match rcut_dot s' with
      | Some (b, a) => Some (String c b, a)
      | None => if Ascii.eqb c "."%char then Some ("", s') else None
      end
  end.

(** [Path(p).stem]: the name without its last suffix; a leading or a
    trailing dot starts no suffix ([0 < i < len(name) - 1]). *)
Definition stem (p : string) : string :=
  let n := name p in
  match rcut_dot n with
  | Some (b, a) => if negb (String.eqb b "") && negb (String.eqb a "") then b else n
  | None => n
  end.

End Pathlib.

(** ** [fnmatch] and the helpers of [glob] that do not read the disk *)

Module Fnmatch.

(** [fnmatch.fnmatchcase(name, pat)] for patterns made of literal
    characters, [*] and [?] (the pattern of [main] has no bracket
    expression). On POSIX [fnmatch.filter] compares case-sensitively:
    [os.path.normcase] is the identity there. *)
Fixpoint fnmatchcase_pat (pat : string) : string -> bool :=
  match pat with
  | EmptyString => fun name => String.eqb name ""
  | String c pat' =>
      if Ascii.eqb c "*"%char then
        fix star (name : string) : bool :=
          fnmatchcase_pat pat' name
          || match name with
             | EmptyString => false
             | String _ name' => star name'
             end
      else if Ascii.eqb c "?"%char then
        fun name => match name with
                    | String _ name' => fnmatchcase_pat pat' name'
                    | EmptyString => false
                    end
      else
        fun name => match name with
                    | String d name' => Ascii.eqb c d && fnmatchcase_pat pat' name'
                    | EmptyString => false
                    end
  end.

Definition fnmatchcase (name pat : string) : bool := fnmatchcase_pat pat name.

(** [glob.has_magic]: one of [*], [?], [[] occurs. *)
Definition has_magic (s : string) : bool :=
  existsb (fun c => Ascii.eqb c "*"%char || Ascii.eqb c "?"%char || Ascii.eqb c "["%char)
          (list_ascii_of_string s).

(** [glob._ishidden] *)
Definition ishidden (name : string) : bool :=
  match name with
  | String c _ => Ascii.eqb c "."%char
  | EmptyString => false
  end.

End Fnmatch.

(** ** JSON values, as [json.loads] returns them *)

Module Json.

(** Numbers are kept to the integers; an object is the list of its
    items, one per key, in insertion order. *)
Inductive t : Type :=
| Null
| Bool (b : bool)
| Num (z : Z)
| Str (s : string)
| Arr (items : list t)
| Obj (items : list (string * t)).

(** [len(v)]; [None] is the [TypeError] of a value without length. *)
Definition len (v : t) : option nat :=
  match v with
  | Arr items => Some (length items)
  | Obj items => Some (length items)
  | Str s => Some (String.length s)
  | Null | Bool _ | Num _ => None
  end.

(** [v[key]] for a string key; [None] is the [KeyError] or [TypeError]. *)
Definition getitem (v : t) (key : string) : option t :=
  match v with
  | Obj items => snd <$> List.find (fun kv => String.eqb (fst kv) key) items
  | _ => None
  end.

End Json.

(** ** Python exceptions *)

(** What [except Exception] tells apart: [exit(code)] raises
    [SystemExit], which derives from [BaseException] only. *)
Inductive exn : Type :=
| Exception (cls msg : string)
| SystemExit (code : Z)
| BaseException (cls : string).

Definition is_Exception (e : exn) : bool :=
  match e with
  | Exception _ _ => true
  | SystemExit _ | BaseException _ => false
  end.

(** The outcome of a computation over a state [S]: the state is kept on
    both ways out, since an effect made before a raise stays made. *)
Inductive result (S A : Type) : Type :=
| Ok (a : A) (s : S)
| Err (e : exn) (s : S).

Arguments Ok {S A} a s.
Arguments Err {S A} e s.

Definition state_of {S A} (r : result S A) : S :=
  match r with
  | Ok _ s => s
  | Err _ s => s
  end.

(** ** The file system *)

Module FS.

Inductive node : Type :=
| File (data : string)
| Dir.

(** A location is the list of names from the root; the root itself is
    always a directory. *)
Record t : Type := mk {
  cwd : list string;
  tree : gmap (list string) node
}.

Definition kind (fs : t) (loc : list string) : option node :=
  match loc with
  | [] => Some Dir
  | _ => tree fs !! loc
  end.

Definition is_dir (fs : t) (loc : list string) : bool :=
  match kind fs loc with
  | Some Dir => true
  | _ => false
  end.

(** Path resolution, one component at a time: every component is looked
    up in a directory, so [f/] and [f/..] fail on a regular file [f]. *)
Fixpoint walk (fs : t) (cur : list string) (comps : list string) : option (list string) :=
  match comps with
  | [] => Some cur
  | c :: rest =>
      if is_dir fs cur then
        if String.eqb c "" || String.eqb c "." then walk fs cur rest
        else if String.eqb c ".." then walk fs (removelast cur) rest
        else walk fs (cur ++ [c]) rest
      else None
  end.

Definition start (fs : t) (p : string) : list string :=
  if PosixPath.isabs p then [] else cwd fs.

(** The location a path names, when its directories exist; the location
    itself may be free. *)
Definition resolve (fs : t) (p : string) : option (list string) :=
  if String.eqb p "" then None
  else walk fs (start fs p) (PosixPath.split_sep p).

(** [os.getcwd()] *)
Definition getcwd (fs : t) : string := "/" +:+ String.concat "/" (cwd fs).

(** [os.path.exists] *)
Definition exists_ (fs : t) (p : string) : bool :=
  match resolve fs p with
  | Some loc => match kind fs loc with Some _ => true | None => false end
  | None => false
  end.

(** [os.path.isdir] *)
Definition isdir (fs : t) (p : string) : bool :=
  match resolve fs p with
  | Some loc => is_dir fs loc
  | None => false
  end.

Definition OSError (p : string) : exn := Exception "OSError" p.

(** [open(p).read()] *)
Definition read (fs : t) (p : string) : exn + string :=
  match resolve fs p with
  | Some loc =>
      match kind fs loc with
      | Some (File data) => inr data
      | Some Dir | None => inl (OSError p)
      end
  | None => inl (OSError p)
  end.

(** [open(p, 'w').write(data)]: the file is created or replaced; its
    directory has to exist and [p] may not name a directory. *)
Definition write (fs : t) (p : string) (data : string) : exn + t :=
  match resolve fs p with
  | Some loc =>
      match loc, kind fs loc with
      | [], _ | _, Some Dir => inl (OSError p)
      | _, _ =>
          if is_dir fs (removelast loc)
          then inr (mk (cwd fs) (<[loc := File data]> (tree fs)))
          else inl (OSError p)
      end
  | None => inl (OSError p)
  end.

(** [os.makedirs(p, exist_ok=True)], component by component: a missing
    directory is created, an existing one is entered, a regular file on
    the way is an error. The directories made before an error stay. *)
Fixpoint makedirs_walk (fs : t) (cur : list string) (comps : list string) : bool * t :=
  match comps with
  | [] => (true, fs)
  | c :: rest =>
      if is_dir fs cur then
        if String.eqb c "" || String.eqb c "." then makedirs_walk fs cur rest
        else if String.eqb c ".." then makedirs_walk fs (removelast cur) rest
        else
          match kind fs (cur ++ [c]) with
          | Some Dir => makedirs_walk fs (cur ++ [c]) rest
          | Some (File _) => (false, fs)
          | None =>
              makedirs_walk (mk (cwd fs) (<[cur ++ [c] := Dir]> (tree fs))) (cur ++ [c]) rest
          end
      else (false, fs)
  end.

Definition makedirs (fs : t) (p : string) : result t unit :=
  if String.eqb p "" then Err (OSError p) fs
  else
    match makedirs_walk fs (start fs p) (PosixPath.split_sep p) with
    | (true, fs') => Ok tt fs'
    | (false, fs') => Err (OSError p) fs'
    end.

(** A name a directory entry can have. *)
Definition valid_name (x : string) : bool :=
  negb (String.eqb x "") && negb (String.eqb x ".") && negb (String.eqb x "..")
  && negb (existsb PosixPath.is_sep (list_ascii_of_string x)).

Fixpoint strip_prefix (pre l : list string) : option (list string) :=
  match pre, l with
  | [], _ => Some l
  | x :: pre', y :: l' => if String.eqb x y then strip_prefix pre' l' else None
  | _ :: _, [] => None
  end.

(** The entries of the directory at [loc], in the order the disk gives
    them (here: the order of the map). *)
Definition listdir (fs : t) (loc : list string) : list string :=
  if is_dir fs loc then
    flat_map (fun kv => match strip_prefix loc (fst kv) with
                        | Some [x] => if valid_name x then [x] else []
                        | _ => []
                        end)
             (map_to_list (tree fs))
  else [].

(** [ds] leads from [cur] down through directories that are not hidden. *)
Fixpoint visible_dirs (fs : t) (cur : list string) (ds : list string) : bool :=
  match ds with
  | [] => true
  | d :: rest =>
      valid_name d && negb (Fnmatch.ishidden d) && is_dir fs (cur ++ [d])
      && visible_dirs fs (cur ++ [d]) rest
  end.

(** [glob._rlistdir(dirname, dironly=True)]: every directory below
    [loc] that is reached through directories that are not hidden, as
    the names leading to it. *)
Definition rlistdir (fs : t) (loc : list string) : list (list string) :=
  if is_dir fs loc then
    flat_map (fun kv => match strip_prefix loc (fst kv) with
                        | Some (d :: ds) => if visible_dirs fs loc (d :: ds) then [d :: ds] else []
                        | _ => []
                        end)
             (map_to_list (tree fs))
  else [].

End FS.

(** ** The state of a run *)

(** What the driver and its collaborators both reach: the disk, the
    clock, and the object that [main] binds to [model_list] and hands to
    the pipeline. The pipeline keeps the reference, so its stages may
    change that object in place (hence the deep copies of [do_parse]). *)
Record Env : Type := mkEnv {
  env_fs : FS.t;
  env_clock : Z;
  env_model_list : Json.t
}.

Inductive event : Type :=
| Attempt (pdf_path : string)
| Call (stage : string)
| Write (path : string)
| LogError (msg : string)
| LogException (e : exn)
| LogInfo (msg : string)
| Report (pdf_path : string) (duration : Z).

(** The module attributes [model_config.__use_inside_model__] and
    [model_config.__model_mode__] and the log are the driver's own. *)
Record World : Type := mkWorld {
  env : Env;
  use_inside_model : bool;
  model_mode : string;
  trace : list event
}.

Definition M (A : Type) : Type := World -> result World A.

#[global] Instance M_ret : MRet M := fun A a w => Ok a w.

#[global] Instance M_bind : MBind M := fun A B k m w =>
  match m w with
  | Ok a w' => k a w'
  | Err e w' => Err e w'
  end.

Definition raise {A} (e : exn) : M A := fun w => Err e w.

(** [exit(code)] *)
Definition exit {A} (code : Z) : M A := raise (SystemExit code).

(** [try: body except Exception as e: handler(e)] *)
Definition try_except_Exception {A} (body : M A) (handler : exn -> M A) : M A := fun w =>
  match body w with
  | Ok a w' => Ok a w'
  | Err e w' => if is_Exception e then handler e w' else Err e w'
  end.

Definition with_env (w : World) (e : Env) : World :=
  mkWorld e (use_inside_model w) (model_mode w) (trace w).

Definition logged (w : World) (ev : event) : World :=
  mkWorld (env w) (use_inside_model w) (model_mode w) (trace w ++ [ev]).

Definition log (ev : event) : M unit := fun w => Ok tt (logged w ev).

(** A call into a collaborator: it runs on the shared part of the state,
    and the driver's log notes the call. *)
Definition call {A} (stage : string) (c : Env -> result Env A) : M A := fun w =>
  let w1 := logged w (Call stage) in
  match c (env w1) with
  | Ok a e' => Ok a (with_env w1 e')
  | Err x e' => Err x (with_env w1 e')
  end.

Definition get_fs : M FS.t := fun w => Ok (env_fs (env w)) w.

Definition put_fs (fs : FS.t) : M unit := fun w =>
  Ok tt (with_env w (mkEnv fs (env_clock (env w)) (env_model_list (env w)))).

Definition get_model_list : M Json.t := fun w => Ok (env_model_list (env w)) w.

Definition set_model_list (v : Json.t) : M unit := fun w =>
  Ok tt (with_env w (mkEnv (env_fs (env w)) (env_clock (env w)) v)).

Definition get_use_inside_model : M bool := fun w => Ok (use_inside_model w) w.

Definition set_use_inside_model (b : bool) : M unit := fun w =>
  Ok tt (mkWorld (env w) b (model_mode w) (trace w)).

Definition set_model_mode (m : string) : M unit := fun w =>
  Ok tt (mkWorld (env w) (use_inside_model w) m (trace w)).

(** [time.time()] *)
Definition time : M Z := fun w => Ok (env_clock (env w)) w.

Definition of_option {A} (o : option A) (e : exn) : M A :=
  match o with
  | Some a => mret a
  | None => raise e
  end.

Definition of_sum {A} (r : exn + A) : M A :=
  match r with
  | inr a => mret a
  | inl e => raise e
  end.

(** *** The [os] calls of the driver *)

Definition os_path_isdir (p : string) : M bool :=
  fs ← get_fs; mret (FS.isdir fs p).

Definition os_path_exists (p : string) : M bool :=
  fs ← get_fs; mret (FS.exists_ fs p).

Definition os_makedirs (p : string) : M unit := fun w =>
  match FS.makedirs (env_fs (env w)) p with
  | Ok _ fs' => put_fs fs' w
  | Err e fs' => (put_fs fs';; raise e) w
  end.

Definition open_read (p : string) : M string :=
  fs ← get_fs; of_sum (FS.read fs p).

Definition open_write (p content : string) : M unit :=
  fs ← get_fs; fs' ← of_sum (FS.write fs p content); put_fs fs'.

Definition os_path_relpath (path start : string) : M string :=
  fs ← get_fs;
  of_option (PosixPath.relpath (FS.getcwd fs) path start)
            (Exception "ValueError" "no path specified").

(** ** Collaborators *)

(** Python library calls whose result is left open: the JSON codec
    ([None] from [json_loads] is a [JSONDecodeError]) and the first round
    of [glob] on a directory part that has magic characters itself. *)
Class PyLib : Type := {
  json_dumps : Json.t -> string;
  json_loads : string -> option Json.t;
  iglob_magic : FS.t -> string -> list string
}.

(** Modelled from the spec: the values of [MakeMode] and [DropMode]
    (magic_pdf.libs.MakeContentConfig), policies owned by the pipeline
    and opaque to the driver. *)
Inductive MakeMode : Type := MM_MD | NLP_MD | STANDARD_FORMAT.

Inductive DropMode : Type := WHOLE_PDF | SINGLE_PAGE | NONE | NONE_WITH_REASON.

(** Modelled from the spec: the storage abstraction
    (magic_pdf.rw.DiskReaderWriter) with [write(content, path, mode)] in
    text and binary modes and [read(path, mode)], rooted at a directory:
    a relative path is taken below the root. *)
Record DiskReaderWriter : Type := mkDiskReaderWriter { drw_path : string }.

Inductive rw_mode : Type := MODE_TXT | MODE_BIN.

Definition drw_read (rw : DiskReaderWriter) (path : string) (mode : rw_mode) : M string :=
  open_read (PosixPath.join2 (drw_path rw) path).

Definition drw_write (rw : DiskReaderWriter) (content path : string) (mode : rw_mode) : M unit :=
  let abspath := PosixPath.join2 (drw_path rw) path in
  log (Write abspath);;
  open_write abspath content.

(** Modelled from the spec: the pipeline abstraction (magic_pdf.pipe:
    UNIPipe, TXTPipe, OCRPipe) exposing classify, analyze, parse,
    make_markdown and make_uniform_content and the fields [pdf_mid_data]
    and [model_list], and the two overlay renderers
    (magic_pdf.libs.draw_bbox). A stage may raise anything and may change
    the shared state; the constructors take the document bytes and the
    image writer, and find the model list in the shared state. *)
Class Pipeline : Type := {
  pipe : Type;
  UNIPipe : string -> DiskReaderWriter -> Env -> result Env pipe;
  TXTPipe : string -> DiskReaderWriter -> Env -> result Env pipe;
  OCRPipe : string -> DiskReaderWriter -> Env -> result Env pipe;
  pipe_classify : pipe -> Env -> result Env pipe;
  pipe_analyze : pipe -> Env -> result Env pipe;
  pipe_parse : pipe -> Env -> result Env pipe;
  pipe_mk_markdown : pipe -> string -> DropMode -> MakeMode -> Env -> result Env (pipe * string);
  pipe_mk_uni_format : pipe -> string -> DropMode -> Env -> result Env (pipe * Json.t);
  model_list : pipe -> Json.t;
  pdf_mid_data : pipe -> Json.t;
  draw_layout_bbox : Json.t -> string -> string -> Env -> result Env unit;
  draw_span_bbox : Json.t -> string -> string -> Env -> result Env unit
}.

(** ** [glob.glob(pathname, recursive=True)] *)

Module Glob.

(** [_glob1(dirname, pattern)] for a pattern that does not start with a
    dot: the visible entries of the directory that match. *)
Definition glob1 (fs : FS.t) (dirname pattern : string) : list string :=
  match FS.resolve fs (if String.eqb dirname "" then "." else dirname) with
  | Some loc =>
      List.filter (fun x => Fnmatch.fnmatchcase x pattern)
        (List.filter (fun x => negb (Fnmatch.ishidden x)) (FS.listdir fs loc))
  | None => []
  end.

(** [_glob2(dirname, '**', dironly=True)]: the empty name for the
    directory itself, then every directory below it. *)
Definition glob2 (fs : FS.t) (dirname : string) : list string :=
  (if String.eqb dirname "" || FS.isdir fs dirname then [""] else [])
  ++ match FS.resolve fs (if String.eqb dirname "" then "." else dirname) with
     | Some loc => map (String.concat "/") (FS.rlistdir fs loc)
     | None => []
     end.

(** The round of [_iglob] for [dirname/**], directories only. *)
Definition iglob_dirs `{PyLib} (fs : FS.t) (pathname : string) : list string :=
  let '(dirname, _) := PosixPath.split pathname in
  if Fnmatch.has_magic dirname then iglob_magic fs pathname
  else map (PosixPath.join2 dirname) (glob2 fs dirname).

(** The two rounds of [_iglob] on a pathname [dir/**/pattern], the shape
    [main] builds: the directories that [dir/**] yields, then in each
    the entries that match the last component. *)
Definition glob `{PyLib} (fs : FS.t) (pathname : string) : list string :=
  let '(dirname, basename) := PosixPath.split pathname in
  flat_map (fun d => map (PosixPath.join2 d) (glob1 fs d basename))
           (iglob_dirs fs dirname).

(** The directory part the two rounds work from: [file_path] without
    its trailing slashes (a path made of slashes only is kept). *)
Definition root (file_path : string) : string :=
  if PosixPath.all_sep file_path then file_path else PosixPath.rstrip_sep file_path.

End Glob.

Definition glob_glob `{PyLib} (pathname : string) : M (list string) :=
  fs ← get_fs; mret (Glob.glob fs pathname).

(** ** The driver: [demo/demo_multifile.py] *)

(** The keyword arguments of [do_parse] with a default. *)
Record Flags : Type := mkFlags {
  f_draw_span_bbox : bool;
  f_draw_layout_bbox : bool;
  f_dump_md : bool;
  f_dump_middle_json : bool;
  f_dump_model_json : bool;
  f_dump_orig_pdf : bool;
  f_dump_content_list : bool;
  f_make_md_mode : MakeMode
}.

Definition default_flags : Flags := mkFlags true true true true true true true MM_MD.

Definition when (b : bool) (m : M unit) : M unit := if b then m else mret tt.

Section Driver.

Context `{PyLib} `{Pipeline}.

Definition read_fn (path : string) : M string :=
  let disk_rw := mkDiskReaderWriter (PosixPath.dirname path) in
  drw_read disk_rw (PosixPath.basename path) MODE_BIN.

Definition prepare_env (output_dir pdf_file_name method : string) : M (string * string) :=
  let local_parent_dir := PosixPath.join output_dir [pdf_file_name; method] in
  let local_image_dir := PosixPath.join local_parent_dir ["images"] in
  let local_md_dir := local_parent_dir in
  os_makedirs local_image_dir;;
  os_makedirs local_md_dir;;
  mret (local_image_dir, local_md_dir).

Definition unknown_method_msg : string :=
  "unknown parse method. Please use 'auto', 'txt' or 'ocr'".

Definition need_model_msg : string := "need model list input".

Definition do_parse (output_dir pdf_file_name pdf_bytes parse_method : string) (f : Flags)
  : M unit :=
  orig_model_list ← get_model_list;
  '(local_image_dir, local_md_dir) ← prepare_env output_dir pdf_file_name parse_method;
  let image_writer := mkDiskReaderWriter local_image_dir in
  let md_writer := mkDiskReaderWriter local_md_dir in
  let image_dir := PosixPath.basename local_image_dir in
  p ← (if String.eqb parse_method "auto" then call "UNIPipe" (UNIPipe pdf_bytes image_writer)
       else if String.eqb parse_method "txt" then call "TXTPipe" (TXTPipe pdf_bytes image_writer)
       else if String.eqb parse_method "ocr" then call "OCRPipe" (OCRPipe pdf_bytes image_writer)
       else log (LogError unknown_method_msg);; exit 1);
  p ← call "pipe_classify" (pipe_classify p);
  model_list_now ← get_model_list;
  n ← of_option (Json.len model_list_now) (Exception "TypeError" "object has no len()");
  '(p, orig_model_list) ←
    (if Nat.eqb n 0 then
       inside ← get_use_inside_model;
       if (inside : bool) then
         p ← call "pipe_analyze" (pipe_analyze p);
         mret (p, model_list p)
       else log (LogError need_model_msg);; exit 2
     else mret (p, orig_model_list)) : M (pipe * Json.t);
  p ← call "pipe_parse" (pipe_parse p);
  pdf_info ← of_option (Json.getitem (pdf_mid_data p) "pdf_info")
                       (Exception "KeyError" "pdf_info");
  when (f_draw_layout_bbox f)
       (call "draw_layout_bbox" (draw_layout_bbox pdf_info pdf_bytes local_md_dir));;
  when (f_draw_span_bbox f)
       (call "draw_span_bbox" (draw_span_bbox pdf_info pdf_bytes local_md_dir));;
  '(p, md_content) ←
    call "pipe_mk_markdown" (pipe_mk_markdown p image_dir NONE (f_make_md_mode f));
  when (f_dump_md f)
       (drw_write md_writer md_content (pdf_file_name +:+ ".md") MODE_TXT);;
  when (f_dump_middle_json f)
       (drw_write md_writer (json_dumps (pdf_mid_data p)) "middle.json" MODE_TXT);;
  when (f_dump_model_json f)
       (drw_write md_writer (json_dumps orig_model_list) "model.json" MODE_TXT);;
  when (f_dump_orig_pdf f)
       (drw_write md_writer pdf_bytes "origin.pdf" MODE_BIN);;
  '(p, content_list) ← call "pipe_mk_uni_format" (pipe_mk_uni_format p image_dir NONE);
  when (f_dump_content_list f)
       (drw_write md_writer (json_dumps content_list) "content_list.json" MODE_TXT);;
  log (LogInfo ("local output dir is " +:+ local_md_dir)).

(** Lines 137-148 of [main]: the files to process and, for each, the
    directory its artifacts go under. *)
Definition collect (file_path out_root : string) : M (list (string * string)) :=
  is_dir ← os_path_isdir file_path;
  '(file_paths, rel_dirs) ←
    (if (is_dir : bool) then
       file_paths ← glob_glob (PosixPath.join file_path ["**/*.pdf"]);
       rel_dirs ← mapM (fun f => os_path_relpath (PosixPath.dirname f) file_path) file_paths;
       mret (file_paths, rel_dirs)
     else mret ([file_path], ["."]));
  let rel_dirs := map (fun d => if String.eqb d "." then "" else d) rel_dirs in
  let out_dirs := map (fun d => PosixPath.join out_root [d]) rel_dirs in
  mret (combine file_paths out_dirs).

Definition model_list_path (out_dir file_name parse_method : string) : string :=
  PosixPath.join out_dir [file_name; parse_method; "model.json"].

(** Lines 158-161: the cached model list of a document, left in
    [model_list]. *)
Definition load_model_list (out_dir file_name parse_method : string) : M unit :=
  set_model_list (Json.Arr []);;
  let model_list_path := model_list_path out_dir file_name parse_method in
  found ← os_path_exists model_list_path;
  if (found : bool) then
    text ← open_read model_list_path;
    v ← of_option (json_loads text) (Exception "JSONDecodeError" model_list_path);
    set_model_list v
  else mret tt.

(** The body of the [try] of the loop of [main]. *)
Definition process (pdf_path out_dir parse_method : string) (result : list (string * Z))
  : M (list (string * Z)) :=
  begin_time ← time;
  let file_name := Pathlib.stem pdf_path in
  pdf_data ← read_fn pdf_path;
  load_model_list out_dir file_name parse_method;;
  do_parse out_dir file_name pdf_data parse_method default_flags;;
  end_time ← time;
  mret (result ++ [(pdf_path, (end_time - begin_time)%Z)]).

(** One round of the loop: the [try] with its [except Exception]. *)
Definition attempt (pdf_path out_dir parse_method : string) (result : list (string * Z))
  : M (list (string * Z)) :=
  log (Attempt pdf_path);;
  try_except_Exception (process pdf_path out_dir parse_method result)
                       (fun e => log (LogException e);; mret result).

Fixpoint batch (parse_method : string) (jobs : list (string * string))
    (result : list (string * Z)) : M (list (string * Z)) :=
  match jobs with
  | [] => mret result
  | (pdf_path, out_dir) :: rest =>
      result ← attempt pdf_path out_dir parse_method result;
      batch parse_method rest result
  end.

Fixpoint report (result : list (string * Z)) : M unit :=
  match result with
  | [] => mret tt
  | (pdf_path, duration) :: rest => log (Report pdf_path duration);; report rest
  end.

Definition main (file_path out_root parse_method : string) : M unit :=
  set_use_inside_model true;;
  set_model_mode "full";;
  jobs ← collect file_path out_root;
  result ← batch parse_method jobs [];
  report result.

End Driver.

(** The status the process ends with. *)
Definition exit_status {A} (r : result World A) : Z :=
  match r with
  | Ok _ _ => 0
  | Err (SystemExit code) _ => code
  | Err _ _ => 1
  end.

(** ** A concrete setting, to run the driver on *)

(** A JSON codec for the integer fragment, writing as
    [json.dumps(v, ensure_ascii=False, indent=4)] does. *)
Module MiniJson.

Definition dq : ascii := ascii_of_nat 34.
Definition bs : ascii := ascii_of_nat 92.
Definition nl : ascii := ascii_of_nat 10.
Definition cr : ascii := ascii_of_nat 13.
Definition tab : ascii := ascii_of_nat 9.

Fixpoint escape (s : string) : string :=
  match s with
  | EmptyString => ""
  | String c s' =>
      if Ascii.eqb c dq then String bs (String dq (escape s'))
      else if Ascii.eqb c bs then String bs (String bs (escape s'))
      else if Ascii.eqb c nl then String bs (String "n" (escape s'))
      else if Ascii.eqb c cr then String bs (String "r" (escape s'))
      else if Ascii.eqb c tab then String bs (String "t" (escape s'))
      else String c (escape s')
  end.

Definition quote (s : string) : string := String dq (escape s +:+ String dq "").

Definition indent (level : nat) : string :=
  string_of_list_ascii (repeat " "%char (4 * level)).

Definition block (opening closing : string) (level : nat) (items : list string) : string :=
  match items with
  | [] => opening +:+ closing
  | _ =>
      opening +:+ String nl (indent (S level))
      +:+ String.concat ("," +:+ String nl (indent (S level))) items
      +:+ String nl (indent level) +:+ closing
  end.

Fixpoint dumps_at (level : nat) (v : Json.t) : string :=
  match v with
  | Json.Null => "null"
  | Json.Bool true => "true"
  | Json.Bool false => "false"
  | Json.Num z => pretty z
  | Json.Str s => quote s
  | Json.Arr items => block "[" "]" level (map (dumps_at (S level)) items)
  | Json.Obj items =>
      block "{" "}" level
            (map (fun kv => quote (fst kv) +:+ ": " +:+ dumps_at (S level) (snd kv)) items)
  end.

Definition dumps (v : Json.t) : string := dumps_at 0 v.

Definition is_ws (c : ascii) : bool :=
  Ascii.eqb c " "%char || Ascii.eqb c nl || Ascii.eqb c cr || Ascii.eqb c tab.

Fixpoint skip_ws (s : string) : string :=
  match s with
  | String c s' => if is_ws c then skip_ws s' else s
  | EmptyString => ""
  end.

(** [s] without the prefix [lit], when it starts with it. *)
Fixpoint strip (lit s : string) : option string :=
  match lit, s with
  | EmptyString, _ => Some s
  | String a lit', String b s' => if Ascii.eqb a b then strip lit' s' else None
  | String _ _, EmptyString => None
  end.

(** The text of a string up to its closing quote, and what follows. *)
Fixpoint parse_string (s : string) : option (string * string) :=
  match s with
  | EmptyString => None
  | String c s' =>
      if Ascii.eqb c dq then Some ("", s')
      else if Ascii.eqb c bs then
        match s' with
        | String e s'' =>
            let unescaped :=
              if Ascii.eqb e "n"%char then Some nl
              else if Ascii.eqb e "r"%char then Some cr
              else if Ascii.eqb e "t"%char then Some tab
              else if Ascii.eqb e dq || Ascii.eqb e bs || Ascii.eqb e "/"%char then Some e
              else None in
            match unescaped, parse_string s'' with
            | Some x, Some (str, rest) => Some (String x str, rest)
            | _, _ => None
            end
        | EmptyString => None
        end
      else match parse_string s' with
           | Some (str, rest) => Some (String c str, rest)
           | None => None
           end
  end.

Definition digit (c : ascii) : option Z :=
  let n := nat_of_ascii c in
  if (48 <=? n)%nat && (n <=? 57)%nat then Some (Z.of_nat (n - 48)) else None.

Fixpoint parse_digits (acc : Z) (s : string) : Z * string :=
  match s with
  | String c s' =>
      match digit c with
      | Some d => parse_digits (10 * acc + d) s'
      | None => (acc, s)
      end
  | EmptyString => (acc, "")
  end.

Definition parse_nat (s : string) : option (Z * string) :=
  match s with
  | String c _ => match digit c with
                  | Some _ => Some (parse_digits 0 s)
                  | None => None
                  end
  | EmptyString => None
  end.

Fixpoint parse_value (fuel : nat) (s : string) : option (Json.t * string) :=
  match fuel with
  | O => None
  | S fuel =>
      match skip_ws s with
      | EmptyString => None
      | String c s' =>
          if Ascii.eqb c "n"%char then rest ← strip "ull" s'; Some (Json.Null, rest)
          else if Ascii.eqb c "t"%char then rest ← strip "rue" s'; Some (Json.Bool true, rest)
          else if Ascii.eqb c "f"%char then rest ← strip "alse" s'; Some (Json.Bool false, rest)
          else if Ascii.eqb c dq then
            sr ← parse_string s'; Some (Json.Str (fst sr), snd sr)
          else if Ascii.eqb c "-"%char then
            zr ← parse_nat s'; Some (Json.Num (- fst zr), snd zr)
          else if Ascii.eqb c "["%char then
            match skip_ws s' with
            | String d r =>
                if Ascii.eqb d "]"%char then Some (Json.Arr [], r)
                else vr ← parse_items fuel s'; Some (Json.Arr (fst vr), snd vr)
            | EmptyString => None
            end
          else if Ascii.eqb c "{"%char then
            match skip_ws s' with
            | String d r =>
                if Ascii.eqb d "}"%char then Some (Json.Obj [], r)
                else vr ← parse_members fuel s'; Some (Json.Obj (fst vr), snd vr)
            | EmptyString => None
            end
          else zr ← parse_nat (String c s'); Some (Json.Num (fst zr), snd zr)
      end
  end
with parse_items (fuel : nat) (s : string) : option (list Json.t * string) :=
  match fuel with
  | O => None
  | S fuel =>
      vr ← parse_value fuel s;
      match skip_ws (snd vr) with
      | String d r =>
          if Ascii.eqb d ","%char then
            more ← parse_items fuel r; Some (fst vr :: fst more, snd more)
          else if Ascii.eqb d "]"%char then Some ([fst vr], r)
          else None
      | EmptyString => None
      end
  end
with parse_members (fuel : nat) (s : string) : option (list (string * Json.t) * string) :=
  match fuel with
  | O => None
  | S fuel =>
      match skip_ws s with
      | String q s1 =>
          if Ascii.eqb q dq then
            kr ← parse_string s1;
            match skip_ws (snd kr) with
            | String colon s2 =>
                if Ascii.eqb colon ":"%char then
                  vr ← parse_value fuel s2;
                  match skip_ws (snd vr) with
                  | String d r =>
                      if Ascii.eqb d ","%char then
                        more ← parse_members fuel r;
                        Some ((fst kr, fst vr) :: fst more, snd more)
                      else if Ascii.eqb d "}"%char then Some ([(fst kr, fst vr)], r)
                      else None
                  | EmptyString => None
                  end
                else None
            | EmptyString => None
            end
          else None
      | EmptyString => None
      end
  end.

Definition loads (s : string) : option Json.t :=
  match parse_value (2 * String.length s + 2) s with
  | Some (v, rest) => if String.eqb (skip_ws rest) "" then Some v else None
  | None => None
  end.

End MiniJson.

#[local] Instance mini_pylib : PyLib := {|
  json_dumps := MiniJson.dumps;
  json_loads := MiniJson.loads;
  iglob_magic := fun _ _ => []
|}.

(** A small pipeline: analysis yields one record, and none for the
    document whose bytes are [blank]; parsing fails on the document whose
    bytes are [broken]; the overlays are written next to the other
    artifacts. *)
Module StubPipeline.

Record state : Type := mkState {
  st_bytes : string;
  st_model_list : Json.t;
  st_mid_data : Json.t
}.

Definition new (pdf_bytes : string) (image_writer : DiskReaderWriter) (e : Env)
  : result Env state :=
  Ok (mkState pdf_bytes (env_model_list e) Json.Null) e.

Definition classify (p : state) (e : Env) : result Env state := Ok p e.

Definition analyze (p : state) (e : Env) : result Env state :=
  Ok (mkState (st_bytes p)
              (if String.eqb (st_bytes p) "blank" then Json.Arr []
               else Json.Arr [Json.Obj [("page_no", Json.Num 0)]])
              (st_mid_data p))
     (mkEnv (env_fs e) (env_clock e + 5) (env_model_list e)).

Definition parse (p : state) (e : Env) : result Env state :=
  if String.eqb (st_bytes p) "broken" then Err (Exception "RuntimeError" "cannot parse") e
  else Ok (mkState (st_bytes p) (st_model_list p)
                   (Json.Obj [("pdf_info", Json.Arr [Json.Str (st_bytes p)])]))
          (mkEnv (env_fs e) (env_clock e + 1) (env_model_list e)).

Definition mk_markdown (p : state) (image_dir : string) (d : DropMode) (m : MakeMode) (e : Env)
  : result Env (state * string) :=
  Ok (p, "# " +:+ st_bytes p) e.

Definition mk_uni_format (p : state) (image_dir : string) (d : DropMode) (e : Env)
  : result Env (state * Json.t) :=
  Ok (p, Json.Arr [Json.Str (st_bytes p)]) e.

Definition draw (file : string) (pdf_info : Json.t) (pdf_bytes out_path : string) (e : Env)
  : result Env unit :=
  match FS.write (env_fs e) (PosixPath.join2 out_path file) pdf_bytes with
  | inr fs' => Ok tt (mkEnv fs' (env_clock e) (env_model_list e))
  | inl x => Err x e
  end.

End StubPipeline.

#[local] Instance stub_pipeline : Pipeline := {|
  pipe := StubPipeline.state;
  UNIPipe := StubPipeline.new;
  TXTPipe := StubPipeline.new;
  OCRPipe := StubPipeline.new;
  pipe_classify := StubPipeline.classify;
  pipe_analyze := StubPipeline.analyze;
  pipe_parse := StubPipeline.parse;
  pipe_mk_markdown := StubPipeline.mk_markdown;
  pipe_mk_uni_format := StubPipeline.mk_uni_format;
  model_list := StubPipeline.st_model_list;
  pdf_mid_data := StubPipeline.st_mid_data;
  draw_layout_bbox := StubPipeline.draw "layout.pdf";
  draw_span_bbox := StubPipeline.draw "spans.pdf"
|}.

Module Scenario.

(** [/home/u], the working directory, holds [doc.pdf], [blank.pdf] and
    [in], with [a/x.pdf], [b/y.pdf], [z.pdf], [W.PDF] and a hidden
    directory in it; [/out] is empty. *)
Definition disk : FS.t :=
  FS.mk ["home"; "u"]
    (list_to_map
       [ (["home"], FS.Dir); (["home"; "u"], FS.Dir); (["out"], FS.Dir);
         (["home"; "u"; "in"], FS.Dir);
         (["home"; "u"; "in"; "a"], FS.Dir);
         (["home"; "u"; "in"; "a"; "x.pdf"], FS.File "x-bytes");
         (["home"; "u"; "in"; "b"], FS.Dir);
         (["home"; "u"; "in"; "b"; "y.pdf"], FS.File "broken");
         (["home"; "u"; "in"; "z.pdf"], FS.File "z-bytes");
         (["home"; "u"; "in"; "W.PDF"], FS.File "w-bytes");
         (["home"; "u"; "in"; ".cache"], FS.Dir);
         (["home"; "u"; "in"; ".cache"; "h.pdf"], FS.File "h-bytes");
         (["home"; "u"; "doc.pdf"], FS.File "doc-bytes");
         (["home"; "u"; "blank.pdf"], FS.File "blank") ]).

Definition world (fs : FS.t) : World :=
  mkWorld (mkEnv fs 0 Json.Null) false "" [].

(** The world as [main] has it when the batch starts. *)
Definition ready (fs : FS.t) : World :=
  mkWorld (mkEnv fs 0 Json.Null) true "full" [].

(** The disk with one more file. *)
Definition with_file (fs : FS.t) (loc : list string) (data : string) : FS.t :=
  FS.mk (FS.cwd fs) (<[loc := FS.File data]> (FS.tree fs)).

Definition with_dir (fs : FS.t) (loc : list string) : FS.t :=
  FS.mk (FS.cwd fs) (<[loc := FS.Dir]> (FS.tree fs)).

(** The world a later run starts in: the disk as a run left it. *)
Definition after {A} (r : result World A) : World :=
  world (env_fs (env (state_of r))).

Definition files (fs : FS.t) : list (list string * string) :=
  flat_map (fun kv => match snd kv with
                      | FS.File d => [(fst kv, d)]
                      | FS.Dir => []
                      end) (map_to_list (FS.tree fs)).

End Scenario.

(** The disk after a run over [doc.pdf], with its [model.json] damaged. *)
Definition garbled_disk : FS.t :=
  Scenario.with_file
    (env_fs (env (state_of (main "doc.pdf" "/out" "auto" (Scenario.world Scenario.disk)))))
    ["out"; "doc"; "auto"; "model.json"] "{not json".

(** The parse methods [do_parse] knows. *)
Definition recognized (parse_method : string) : bool :=
  String.eqb parse_method "auto" || String.eqb parse_method "txt"
  || String.eqb parse_method "ocr".

(** The documents a log shows as attempted, in order. *)
Definition attempts (t : list event) : list string :=
  flat_map (fun ev => match ev with Attempt p => [p] | _ => [] end) t.

(** The exceptions the batch level has logged. *)
Definition logged_exceptions (t : list event) : list exn :=
  flat_map (fun ev => match ev with LogException e => [e] | _ => [] end) t.

(** The pipeline stages a log shows as called. *)
Definition calls (t : list event) : list string :=
  flat_map (fun ev => match ev with Call s => [s] | _ => [] end) t.

(** The paths a log shows as written through a storage writer. *)
Definition writes (t : list event) : list string :=
  flat_map (fun ev => match ev with Write p => [p] | _ => [] end) t.

(** The summary rows a log shows. *)
Definition reports (t : list event) : list (string * Z) :=
  flat_map (fun ev => match ev with Report p d => [(p, d)] | _ => [] end) t.

(** The error lines of a log. *)
Definition errors (t : list event) : list string :=
  flat_map (fun ev => match ev with LogError m => [m] | _ => [] end) t.

(** How often a log shows model inference. *)
Definition inferences (t : list event) : nat :=
  length (List.filter (String.eqb "pipe_analyze") (calls t)).

(** The error lines of a log that come from the branch of [do_parse]
    that finds neither a model list nor an inside model. *)
Definition need_model_errors (t : list event) : list string :=
  List.filter (String.eqb need_model_msg) (errors t).

(** ** Invariants and relations on runs *)

(** [hoare I R m]: from a state in [I], [m] ends (either way) in a state
    in [I] that is [R]-related to the first. *)
Definition hoare {A} (I : World -> Prop) (R : World -> World -> Prop) (m : M A) : Prop :=
  forall w, I w -> I (state_of (m w)) /\ R w (state_of (m w)).

(** An invariant and a relation that no collaborator and no log line
    that is [quiet] can break. *)
Class Frame (I : World -> Prop) (R : World -> World -> Prop) (quiet : event -> bool) : Prop := {
  frame_refl : forall w, R w w;
  frame_trans : forall a b c, R a b -> R b c -> R a c;
  frame_env : forall w e, I w -> I (with_env w e) /\ R w (with_env w e);
  frame_log : forall w ev, quiet ev = true -> I w -> I (logged w ev) /\ R w (logged w ev)
}.

(** Only the batch loop notes an attempt or logs an exception. *)
Definition batch_level (ev : event) : bool :=
  match ev with
  | Attempt _ | LogException _ => false
  | _ => true
  end.

(** The batch-level part of two logs is the same. *)
Definition same_batch_log (w w' : World) : Prop :=
  attempts (trace w') = attempts (trace w)
  /\ logged_exceptions (trace w') = logged_exceptions (trace w).

(** [model_config.__use_inside_model__] is set. *)
Definition inside_enabled (w : World) : Prop := use_inside_model w = true.

(** No error line of the branch without a model was added. *)
Definition same_need_model_errors (w w' : World) : Prop :=
  need_model_errors (trace w') = need_model_errors (trace w).

(** Every log line but the error line of that branch. *)
Definition not_need_model_error (ev : event) : bool :=
  match ev with
  | LogError m => negb (String.eqb need_model_msg m)
  | _ => true
  end.

(** No model inference was added to the log. *)
Definition same_inferences (w w' : World) : Prop :=
  inferences (trace w') = inferences (trace w).

(** Every log line but a call of [pipe_analyze]. *)
Definition not_inference (ev : event) : bool :=
  match ev with
  | Call stage => negb (String.eqb "pipe_analyze" stage)
  | _ => true
  end.

(** A collaborator call that leaves the shared model list as it is. *)
Definition keeps_model_list {A} (c : Env -> result Env A) : Prop :=
  forall e a e', c e = Ok a e' -> env_model_list e' = env_model_list e.

(** The contract the skip relies on: building the pipeline and
    classifying do not change the list they were handed. *)
Definition construction_keeps_model_list `{Pipeline} : Prop :=
  (forall bytes iw, keeps_model_list (UNIPipe bytes iw))
  /\ (forall bytes iw, keeps_model_list (TXTPipe bytes iw))
  /\ (forall bytes iw, keeps_model_list (OCRPipe bytes iw))
  /\ (forall p, keeps_model_list (pipe_classify p)).

(** What a step that only touches the disk leaves as it was. *)
Definition only_fs (w w' : World) : Prop :=
  env_model_list (env w') = env_model_list (env w)
  /\ env_clock (env w') = env_clock (env w)
  /\ use_inside_model w' = use_inside_model w
  /\ model_mode w' = model_mode w
  /\ trace w' = trace w.

(** Two disks with the same regular files, content included. *)
Definition same_files (fs fs' : FS.t) : Prop :=
  forall loc data, FS.kind fs' loc = Some (FS.File data) <-> FS.kind fs loc = Some (FS.File data).

(** A step that leaves the state as it is, whichever way it ends. *)
Definition reads_only {A} (m : M A) : Prop := forall w, state_of (m w) = w.

(** Nothing was called, written or reported, and the regular files are
    the same. *)
Definition no_artifact (w w' : World) : Prop :=
  same_files (env_fs (env w)) (env_fs (env w'))
  /\ calls (trace w') = calls (trace w)
  /\ writes (trace w') = writes (trace w)
  /\ reports (trace w') = reports (trace w).

(** The log lines that show no call, write or summary row. *)
Definition no_artifact_event (ev : event) : bool :=
  match ev with
  | Call _ | Write _ | Report _ _ => false
  | _ => true
  end.

(** A component as [split_sep] yields it and [normpath] keeps it. *)
Definition plain (c : string) : Prop := PosixPath.has_sep c = false /\ c <> "".

(** The directory of a path that [glob] found [ds] below the root. *)
Definition found_dir (file_path : string) (ds : list string) : string :=
  match ds with
  | [] => Glob.root file_path
  | _ => PosixPath.join2 (Glob.root file_path) (String.concat "/" ds)
  end.

(** The loop of [normpath] on an absolute path, from a given stack. *)
Definition norm_run (stack : list string) (path : string) : list string :=
  fold_left (PosixPath.norm_step true) (PosixPath.split_sep path) stack.

(** ** Notions for the further properties *)

(** The second disk has the working directory and every directory of
    the first. *)
Definition dir_ext (fs fs' : FS.t) : Prop :=
  FS.cwd fs' = FS.cwd fs /\ forall loc, FS.is_dir fs loc = true -> FS.is_dir fs' loc = true.

(** The state with another disk. *)
Definition with_fs (w : World) (fs : FS.t) : World :=
  with_env w (mkEnv fs (env_clock (env w)) (env_model_list (env w))).



(** No summary row was added to the log. *)
Definition same_reports (w w' : World) : Prop :=
  reports (trace w') = reports (trace w).

(** Every log line but a summary row. *)
Definition not_report (ev : event) : bool :=
  match ev with
  | Report _ _ => false
  | _ => true
  end.

(** No write through a storage writer was added to the log. *)
Definition same_writes (w w' : World) : Prop :=
  writes (trace w') = writes (trace w).

(** Every log line but a write. *)
Definition not_write (ev : event) : bool :=
  match ev with
  | Write _ => false
  | _ => true
  end.

(** [m] writes the paths [l] through storage writers, in this order,
    when it completes, and a front part of them when it raises. *)
Definition emits {A} (l : list string) (m : M A) : Prop :=
  forall w,
    match m w with
    | Ok _ w' => writes (trace w') = writes (trace w) ++ l
    | Err _ w' => exists pre, pre `prefix_of` l /\ writes (trace w') = writes (trace w) ++ pre
    end.

(** The files that the flags of [do_parse] select, in the order of the
    dump steps. *)
Definition artifact_files (pdf_file_name : string) (f : Flags) : list string :=
  (if f_dump_md f then [pdf_file_name +:+ ".md"] else [])
  ++ (if f_dump_middle_json f then ["middle.json"] else [])
  ++ (if f_dump_model_json f then ["model.json"] else [])
  ++ (if f_dump_orig_pdf f then ["origin.pdf"] else [])
  ++ (if f_dump_content_list f then ["content_list.json"] else []).

(** How often a log shows a call of the stage. *)
Definition called (stage : string) (t : list event) : nat :=
  length (List.filter (String.eqb stage) (calls t)).

(** The classes that [do_parse] builds a pipeline from. *)
Definition pipe_classes : list string := ["UNIPipe"; "TXTPipe"; "OCRPipe"].

(** What a parse call that stops before it asks whether a model list
    was given has logged: nothing (the layout failed), the error of an
    unknown method, the construction of the pipeline, or the construction
    and the classification. *)
Definition stopped_early (l : list event) : Prop :=
  l = []
  \/ l = [LogError unknown_method_msg]
  \/ exists c, In c pipe_classes /\ (l = [Call c] \/ l = [Call c; Call "pipe_classify"]).

(** Lines 179-185: the command line, once [argparse] has the two
    required arguments; [main] runs with the default of [parse_method]. *)
Definition cli `{PyLib} `{Pipeline} (file_path out_root : string) : M unit :=
  main file_path out_root "auto".

(** No error line was added to the log. *)
Definition same_errors (w w' : World) : Prop :=
  errors (trace w') = errors (trace w).

(** Every log line but an error line. *)
Definition not_error (ev : event) : bool :=
  match ev with
  | LogError _ => false
  | _ => true
  end.

(* ===================================================================== *)
(** * Part II: properties                                                 *)
(* ===================================================================== *)

(** ** Reasoning about runs *)

Lemma bind_run {A B} (m : M A) (k : A -> M B) (w : World) :
  (m ≫= k) w = match m w with
               | Ok a w' => k a w'
               | Err e w' => Err e w'
               end.
Proof. reflexivity. Qed.

Section Hoare.

Context {I : World -> Prop} {R : World -> World -> Prop} {quiet : event -> bool}.
Context `{!Frame I R quiet}.

Lemma hoare_ret {A} (a : A) : hoare I R (mret a).
Proof. intros w Iw. simpl. split; [assumption | apply frame_refl]. Qed.

Lemma hoare_raise {A} (e : exn) : hoare I R (@raise A e).
Proof. intros w Iw. simpl. split; [assumption | apply frame_refl]. Qed.

Lemma hoare_bind {A B} (m : M A) (k : A -> M B) :
  hoare I R m -> (forall a, hoare I R (k a)) -> hoare I R (m ≫= k).
Proof.
  intros Hm Hk w Iw. rewrite bind_run.
  destruct (Hm w Iw) as [I1 R1].
  destruct (m w) as [a w1 | e w1]; simpl in *.
  - destruct (Hk a w1 I1) as [I2 R2]. split; [assumption | eapply frame_trans; eassumption].
  - split; assumption.
Qed.

Lemma hoare_log (ev : event) : quiet ev = true -> hoare I R (log ev).
Proof. intros Hq w Iw. simpl. apply frame_log; assumption. Qed.

Lemma hoare_call {A} (stage : string) (c : Env -> result Env A) :
  quiet (Call stage) = true -> hoare I R (call stage c).
Proof.
  intros Hq w Iw. unfold call.
  destruct (frame_log w (Call stage) Hq Iw) as [I1 R1].
  destruct (c (env (logged w (Call stage)))) as [a e' | x e']; simpl;
    destruct (frame_env (logged w (Call stage)) e' I1) as [I2 R2];
    (split; [assumption | eapply frame_trans; eassumption]).
Qed.

Lemma hoare_get_fs : hoare I R get_fs.
Proof. intros w Iw. simpl. split; [assumption | apply frame_refl]. Qed.

Lemma hoare_put_fs (fs : FS.t) : hoare I R (put_fs fs).
Proof. intros w Iw. simpl. apply frame_env. assumption. Qed.

Lemma hoare_get_model_list : hoare I R get_model_list.
Proof. intros w Iw. simpl. split; [assumption | apply frame_refl]. Qed.

Lemma hoare_set_model_list (v : Json.t) : hoare I R (set_model_list v).
Proof. intros w Iw. simpl. apply frame_env. assumption. Qed.

Lemma hoare_get_use_inside_model : hoare I R get_use_inside_model.
Proof. intros w Iw. simpl. split; [assumption | apply frame_refl]. Qed.

Lemma hoare_time : hoare I R time.
Proof. intros w Iw. simpl. split; [assumption | apply frame_refl]. Qed.

Lemma hoare_of_option {A} (o : option A) (e : exn) : hoare I R (of_option o e).
Proof. destruct o; [apply hoare_ret | apply hoare_raise]. Qed.

Lemma hoare_of_sum {A} (r : exn + A) : hoare I R (of_sum r).
Proof. destruct r; [apply hoare_raise | apply hoare_ret]. Qed.

Lemma hoare_when (b : bool) (m : M unit) : hoare I R m -> hoare I R (when b m).
Proof. intros Hm. destruct b; [assumption | apply hoare_ret]. Qed.

Lemma hoare_os_path_isdir (p : string) : hoare I R (os_path_isdir p).
Proof. apply hoare_bind; [apply hoare_get_fs | intros; apply hoare_ret]. Qed.

Lemma hoare_os_path_exists (p : string) : hoare I R (os_path_exists p).
Proof. apply hoare_bind; [apply hoare_get_fs | intros; apply hoare_ret]. Qed.

Lemma hoare_os_makedirs (p : string) : hoare I R (os_makedirs p).
Proof.
  intros w Iw. unfold os_makedirs.
  destruct (FS.makedirs (env_fs (env w)) p) as [[] fs' | e fs'].
  - apply hoare_put_fs. assumption.
  - apply (hoare_bind (put_fs fs') (fun _ => raise e)); [apply hoare_put_fs | | assumption].
    intros _. apply hoare_raise.
Qed.

Lemma hoare_open_read (p : string) : hoare I R (open_read p).
Proof. apply hoare_bind; [apply hoare_get_fs | intros; apply hoare_of_sum]. Qed.

Lemma hoare_open_write (p content : string) : hoare I R (open_write p content).
Proof.
  apply hoare_bind; [apply hoare_get_fs | intros fs].
  apply hoare_bind; [apply hoare_of_sum | intros fs'; apply hoare_put_fs].
Qed.

Lemma hoare_os_path_relpath (path start : string) : hoare I R (os_path_relpath path start).
Proof. apply hoare_bind; [apply hoare_get_fs | intros; apply hoare_of_option]. Qed.

Lemma hoare_drw_read (rw : DiskReaderWriter) (path : string) (mode : rw_mode) :
  hoare I R (drw_read rw path mode).
Proof. apply hoare_open_read. Qed.

Lemma hoare_drw_write (rw : DiskReaderWriter) (content path : string) (mode : rw_mode) :
  quiet (Write (PosixPath.join2 (drw_path rw) path)) = true ->
  hoare I R (drw_write rw content path mode).
Proof.
  intros Hq. apply hoare_bind; [apply hoare_log; assumption | intros _; apply hoare_open_write].
Qed.

Lemma hoare_mapM {A B} (f : A -> M B) (l : list A) :
  (forall a, hoare I R (f a)) -> hoare I R (mapM f l).
Proof.
  intros Hf. induction l as [| a l IH]; simpl.
  - apply hoare_ret.
  - apply hoare_bind; [apply Hf | intros b].
    apply hoare_bind; [apply IH | intros bs; apply hoare_ret].
Qed.

Lemma hoare_glob_glob `{PyLib} (pathname : string) : hoare I R (glob_glob pathname).
Proof. apply hoare_bind; [apply hoare_get_fs | intros; apply hoare_ret]. Qed.

Lemma hoare_try_except {A} (body : M A) (handler : exn -> M A) :
  hoare I R body -> (forall e, hoare I R (handler e)) ->
  hoare I R (try_except_Exception body handler).
Proof.
  intros Hb Hh w Iw. unfold try_except_Exception.
  destruct (Hb w Iw) as [I1 R1].
  destruct (body w) as [a w1 | e w1]; simpl in *.
  - split; assumption.
  - destruct (is_Exception e); simpl.
    + destruct (Hh e w1 I1) as [I2 R2]. split; [assumption | eapply frame_trans; eassumption].
    + split; assumption.
Qed.

End Hoare.

Ltac hoare_prim :=
  first
    [ apply hoare_ret
    | apply hoare_raise
    | apply hoare_get_fs
    | apply hoare_get_model_list
    | apply hoare_set_model_list
    | apply hoare_get_use_inside_model
    | apply hoare_time
    | apply hoare_of_option
    | apply hoare_of_sum
    | apply hoare_os_path_isdir
    | apply hoare_os_path_exists
    | apply hoare_os_makedirs
    | apply hoare_open_read
    | apply hoare_os_path_relpath
    | apply hoare_glob_glob
    | apply hoare_drw_read
    | apply hoare_log; reflexivity
    | apply hoare_call; reflexivity
    | apply hoare_drw_write; reflexivity ].

(** [special] is tried first at every step, for the steps that need an
    argument of their own. *)
Ltac hoare_go_with special :=
  repeat first
    [ special
    | lazymatch goal with
      | |- hoare _ _ (mbind _ _) => apply hoare_bind; [ | intros ? ]
      | |- hoare _ _ (when _ _) => apply hoare_when
      | |- hoare _ _ (if ?b then _ else _) => destruct b
      | |- hoare _ _ (let '(_, _) := ?x in _) => destruct x
      | |- hoare _ _ _ => hoare_prim
      end ].

Ltac hoare_go := hoare_go_with fail.

Lemma flat_map_snoc {A B} (f : A -> list B) (l : list A) (x : A) :
  flat_map f (l ++ [x]) = flat_map f l ++ f x.
Proof. rewrite flat_map_app. simpl. rewrite app_nil_r. reflexivity. Qed.

(** *** What the processing of one document leaves alone *)

#[local] Instance batch_frame : Frame (fun _ => True) same_batch_log batch_level.
Proof.
  split.
  - intros w. split; reflexivity.
  - intros a b c [H1 H2] [H3 H4]. split; congruence.
  - intros w e _. split; [exact Logic.I | split; reflexivity].
  - intros w ev Hq _. split; [exact Logic.I |].
    unfold same_batch_log, attempts, logged_exceptions. simpl.
    rewrite !flat_map_snoc. destruct ev; try discriminate; rewrite !app_nil_r; split; reflexivity.
Qed.

Section DriverFacts.

Context `{PyLib} `{Pipeline}.

Lemma read_fn_hoare {I R quiet} `{!Frame I R quiet} (path : string) :
  hoare I R (read_fn path).
Proof. apply hoare_drw_read. Qed.

Lemma prepare_env_hoare {I R quiet} `{!Frame I R quiet} (output_dir name method : string) :
  hoare I R (prepare_env output_dir name method).
Proof. unfold prepare_env. hoare_go. Qed.

Lemma load_model_list_hoare {I R quiet} `{!Frame I R quiet} (out_dir name method : string) :
  hoare I R (load_model_list out_dir name method).
Proof. unfold load_model_list. hoare_go. Qed.

Lemma do_parse_batch_log (output_dir name bytes method : string) (f : Flags) :
  hoare (fun _ => True) same_batch_log (do_parse output_dir name bytes method f).
Proof. unfold do_parse. hoare_go; apply prepare_env_hoare. Qed.

End DriverFacts.

Lemma attempts_logged (w : World) (ev : event) :
  attempts (trace (logged w ev))
  = attempts (trace w) ++ match ev with Attempt p => [p] | _ => [] end.
Proof. unfold attempts. simpl. apply flat_map_snoc. Qed.

Lemma logged_exceptions_logged (w : World) (ev : event) :
  logged_exceptions (trace (logged w ev))
  = logged_exceptions (trace w) ++ match ev with LogException e => [e] | _ => [] end.
Proof. unfold logged_exceptions. simpl. apply flat_map_snoc. Qed.

Section BatchFacts.

Context `{PyLib} `{Pipeline}.

Lemma process_batch_log (pdf_path out_dir method : string) (result : list (string * Z)) :
  hoare (fun _ => True) same_batch_log (process pdf_path out_dir method result).
Proof.
  unfold process. hoare_go.
  - apply load_model_list_hoare.
  - apply do_parse_batch_log.
Qed.

(** A document that is processed to the end adds one row to the summary. *)
Lemma process_result (pdf_path out_dir method : string) (result result' : list (string * Z))
    (w w' : World) :
  process pdf_path out_dir method result w = Ok result' w' ->
  exists duration, result' = result ++ [(pdf_path, duration)].
Proof.
  unfold process. rewrite bind_run. simpl. rewrite bind_run.
  destruct (read_fn pdf_path w) as [data w1 | e w1]; [| discriminate].
  rewrite bind_run.
  destruct (load_model_list _ _ _ w1) as [[] w2 | e w2]; [| discriminate].
  rewrite bind_run.
  destruct (do_parse _ _ _ _ _ w2) as [[] w3 | e w3]; [| discriminate].
  rewrite bind_run. simpl. intros [= <- <-]. eexists. reflexivity.
Qed.

Lemma batch_cons (method pdf_path out_dir : string) (rest : list (string * string))
    (result : list (string * Z)) (w : World) :
  batch method ((pdf_path, out_dir) :: rest) result w
  = match process pdf_path out_dir method result (logged w (Attempt pdf_path)) with
    | Ok result' w' => batch method rest result' w'
    | Err e w' =>
        if is_Exception e then batch method rest result (logged w' (LogException e))
        else Err e w'
    end.
Proof.
  simpl. rewrite bind_run. unfold attempt. rewrite bind_run. simpl.
  unfold try_except_Exception.
  destruct (process _ _ _ _ _) as [a w1 | e w1]; [reflexivity |].
  destruct (is_Exception e); reflexivity.
Qed.

(** C1: an exception raised while one document is processed is caught
    and logged by the batch loop, which goes on with the next document:
    a batch that no [BaseException] ends has attempted every document in
    discovery order, and each one has either a summary row or a logged
    exception. *)
Theorem batch_isolates_failures (parse_method : string) :
  (forall pdf_path out_dir rest result w e w',
      process pdf_path out_dir parse_method result (logged w (Attempt pdf_path)) = Err e w' ->
      is_Exception e = true ->
      batch parse_method ((pdf_path, out_dir) :: rest) result w
      = batch parse_method rest result (logged w' (LogException e)))
  /\ (forall jobs result w,
         match batch parse_method jobs result w with
         | Ok result' w' =>
             attempts (trace w') = attempts (trace w) ++ map fst jobs
             /\ length (logged_exceptions (trace w')) + length result'
                = length (logged_exceptions (trace w)) + length result + length jobs
         | Err e _ => is_Exception e = false
         end).
Proof.
  split.
  - intros pdf_path out_dir rest result w e w' Hp He.
    rewrite batch_cons, Hp, He. reflexivity.
  - induction jobs as [| [pdf_path out_dir] rest IH]; intros result w.
    + simpl. rewrite app_nil_r. split; [reflexivity | lia].
    + rewrite batch_cons.
      pose proof (process_batch_log pdf_path out_dir parse_method result
                    (logged w (Attempt pdf_path)) Logic.I) as [_ [Ha Hl]].
      pose proof (process_result pdf_path out_dir parse_method result) as Hr.
      rewrite attempts_logged in Ha. rewrite logged_exceptions_logged, app_nil_r in Hl.
      destruct (process _ _ _ _ _) as [result' w1 | e w1] eqn:Hp; cbn [state_of] in Ha, Hl.
      * destruct (Hr result' _ w1 Hp) as [d ->].
        specialize (IH (result ++ [(pdf_path, d)]) w1).
        destruct (batch _ _ _ w1) as [r2 w2 | e2 w2]; [| exact IH].
        destruct IH as [IH1 IH2]. rewrite IH1, Ha, <- app_assoc. split; [reflexivity |].
        rewrite IH2, Hl, length_app. simpl. lia.
      * destruct (is_Exception e) eqn:He; [| exact He].
        specialize (IH result (logged w1 (LogException e))).
        destruct (batch _ _ _ _) as [r2 w2 | e2 w2]; [| exact IH].
        destruct IH as [IH1 IH2]. split.
        -- rewrite IH1, attempts_logged, app_nil_r, Ha, <- app_assoc. reflexivity.
        -- rewrite IH2, logged_exceptions_logged, length_app, Hl. simpl. lia.
Qed.

End BatchFacts.

(** *** The inside model stays enabled *)

Lemma need_model_errors_logged (w : World) (ev : event) :
  not_need_model_error ev = true ->
  need_model_errors (trace (logged w ev)) = need_model_errors (trace w).
Proof.
  intros Hq. unfold need_model_errors, errors. simpl.
  rewrite flat_map_snoc, List.filter_app.
  destruct ev; simpl; try apply app_nil_r.
  simpl in Hq. apply negb_true_iff in Hq. rewrite Hq. apply app_nil_r.
Qed.

#[local] Instance inside_frame : Frame inside_enabled same_need_model_errors not_need_model_error.
Proof.
  split.
  - intros w. reflexivity.
  - intros a b c Hab Hbc. unfold same_need_model_errors in *. congruence.
  - intros w e Iw. split; [exact Iw | reflexivity].
  - intros w ev Hq Iw. split; [exact Iw | apply need_model_errors_logged; exact Hq].
Qed.

Lemma hoare_inside_enabled {A} (k : bool -> M A) :
  hoare inside_enabled same_need_model_errors (k true) ->
  hoare inside_enabled same_need_model_errors (get_use_inside_model ≫= k).
Proof.
  intros Hk w Iw. rewrite bind_run. simpl. rewrite Iw. apply Hk. exact Iw.
Qed.

Section InsideModel.

Context `{PyLib} `{Pipeline}.

Lemma do_parse_inside (output_dir name bytes method : string) (f : Flags) :
  hoare inside_enabled same_need_model_errors (do_parse output_dir name bytes method f).
Proof.
  unfold do_parse. hoare_go_with ltac:(apply hoare_inside_enabled); apply prepare_env_hoare.
Qed.

Lemma attempt_inside (pdf_path out_dir method : string) (result : list (string * Z)) :
  hoare inside_enabled same_need_model_errors (attempt pdf_path out_dir method result).
Proof.
  unfold attempt. apply hoare_bind; [apply hoare_log; reflexivity | intros _].
  apply hoare_try_except.
  - unfold process. hoare_go; [apply load_model_list_hoare | apply do_parse_inside].
  - intros e. hoare_go.
Qed.

Lemma batch_inside (method : string) (jobs : list (string * string)) :
  forall result, hoare inside_enabled same_need_model_errors (batch method jobs result).
Proof.
  induction jobs as [| [pdf_path out_dir] rest IH]; intros result; simpl.
  - apply hoare_ret.
  - apply hoare_bind; [apply attempt_inside | intros r; apply IH].
Qed.

Lemma report_inside (result : list (string * Z)) :
  hoare inside_enabled same_need_model_errors (report result).
Proof.
  induction result as [| [pdf_path duration] rest IH]; simpl.
  - apply hoare_ret.
  - apply hoare_bind; [apply hoare_log; reflexivity | intros _; apply IH].
Qed.

Lemma collect_hoare {I R quiet} `{!Frame I R quiet} (file_path out_root : string) :
  hoare I R (collect file_path out_root).
Proof.
  unfold collect. hoare_go. apply hoare_mapM. intros f. apply hoare_os_path_relpath.
Qed.

(** C10: [main] enables the inside model before anything else and
    nothing disables it, so no run of [main] takes the branch of
    [do_parse] that logs "need model list input" and exits with status
    2: the log of the run holds that error line no more often than the
    log it started from. *)
Theorem main_never_needs_model_list (file_path out_root parse_method : string) (w : World) :
  need_model_errors (trace (state_of (main file_path out_root parse_method w)))
  = need_model_errors (trace w)
  /\ use_inside_model (state_of (main file_path out_root parse_method w)) = true.
Proof.
  unfold main. rewrite bind_run. simpl. rewrite bind_run. simpl.
  set (w0 := mkWorld (env w) true "full" (trace w)).
  assert (I0 : inside_enabled w0) by reflexivity.
  assert (Hrest : hoare inside_enabled same_need_model_errors
                    (jobs ← collect file_path out_root;
                     result ← batch parse_method jobs [];
                     report result)).
  { apply hoare_bind; [apply collect_hoare | intros jobs].
    apply hoare_bind; [apply batch_inside | intros result; apply report_inside]. }
  destruct (Hrest w0 I0) as [I1 R1]. split; [exact R1 | exact I1].
Qed.

End InsideModel.

(** *** Inference is skipped on a cached model list that is not empty *)

Lemma inferences_logged (w : World) (ev : event) :
  not_inference ev = true -> inferences (trace (logged w ev)) = inferences (trace w).
Proof.
  intros Hq. unfold inferences, calls. simpl.
  rewrite flat_map_snoc, List.filter_app, length_app.
  destruct ev; simpl; try lia.
  simpl in Hq. apply negb_true_iff in Hq. rewrite Hq. simpl. lia.
Qed.

#[local] Instance inference_frame : Frame (fun _ => True) same_inferences not_inference.
Proof.
  split.
  - intros w. reflexivity.
  - intros a b c Hab Hbc. unfold same_inferences in *. congruence.
  - intros w e _. split; [exact Logic.I | reflexivity].
  - intros w ev Hq _. split; [exact Logic.I | apply inferences_logged; exact Hq].
Qed.

Lemma ret_run {A} (a : A) (w : World) : (mret a : M A) w = Ok a w.
Proof. reflexivity. Qed.

Lemma call_run {A} (stage : string) (c : Env -> result Env A) (w : World) :
  call stage c w
  = match c (env w) with
    | Ok a e' => Ok a (with_env (logged w (Call stage)) e')
    | Err x e' => Err x (with_env (logged w (Call stage)) e')
    end.
Proof. reflexivity. Qed.

Lemma only_fs_refl (w : World) : only_fs w w.
Proof. repeat split. Qed.

Lemma only_fs_trans (a b c : World) : only_fs a b -> only_fs b c -> only_fs a c.
Proof.
  unfold only_fs. intros (?&?&?&?&?) (?&?&?&?&?). repeat split; congruence.
Qed.

Lemma os_makedirs_only_fs (p : string) (w : World) :
  only_fs w (state_of (os_makedirs p w)).
Proof.
  unfold os_makedirs. destruct (FS.makedirs _ _) as [[] fs' | e fs']; repeat split.
Qed.

Section CacheFacts.

Context `{PyLib} `{Pipeline}.

Lemma prepare_env_only_fs (output_dir name method : string) (w : World) :
  only_fs w (state_of (prepare_env output_dir name method w)).
Proof.
  unfold prepare_env. rewrite bind_run.
  pose proof (os_makedirs_only_fs (PosixPath.join (PosixPath.join output_dir [name; method])
                                     ["images"]) w) as H1.
  destruct (os_makedirs _ w) as [[] w1 | e w1]; cbn [state_of] in *; [| exact H1].
  rewrite bind_run.
  pose proof (os_makedirs_only_fs (PosixPath.join output_dir [name; method]) w1) as H2.
  destruct (os_makedirs _ w1) as [[] w2 | e w2]; cbn [state_of] in *;
    eapply only_fs_trans; eassumption.
Qed.

(** [do_parse] on a model list that is not empty does not call
    [pipe_analyze]. *)
Lemma do_parse_cached (output_dir name bytes method : string) (f : Flags)
    (records : Json.t) (n : nat) (w : World) :
  construction_keeps_model_list ->
  env_model_list (env w) = records ->
  Json.len records = Some (S n) ->
  inferences (trace (state_of (do_parse output_dir name bytes method f w)))
  = inferences (trace w).
Proof.
  intros (Huni & Htxt & Hocr & Hcls) Hml Hlen.
  unfold do_parse. rewrite bind_run. cbn [get_model_list].
  rewrite bind_run.
  pose proof (prepare_env_only_fs output_dir name method w) as Hpe.
  destruct (prepare_env output_dir name method w) as [[image_dir md_dir] w1 | e w1];
    cbn [state_of] in Hpe; destruct Hpe as (Hml1 & _ & _ & _ & Htr1);
    [| cbn [state_of]; rewrite Htr1; reflexivity].
  rewrite bind_run.
  match goal with
  | |- context [match ?d w1 with Ok _ _ => _ | Err _ _ => _ end] =>
      assert (Hd : match d w1 with
                   | Ok _ w2 => env_model_list (env w2) = records
                                /\ inferences (trace w2) = inferences (trace w)
                   | Err _ w2 => inferences (trace w2) = inferences (trace w)
                   end);
      [| destruct (d w1) as [p w2 | e w2]; [destruct Hd as [Hml2 Hinf2] | exact Hd]]
  end.
  { assert (Hkeep : forall stage (c : Env -> result Env pipe),
               not_inference (Call stage) = true -> keeps_model_list c ->
               match call stage c w1 with
               | Ok _ w2 => env_model_list (env w2) = records
                            /\ inferences (trace w2) = inferences (trace w)
               | Err _ w2 => inferences (trace w2) = inferences (trace w)
               end).
    { intros stage c Hq Hc. rewrite call_run. specialize (Hc (env w1)).
      destruct (c (env w1)) as [p e' | x e']; cbn [with_env env trace].
      - split; [rewrite (Hc p e' eq_refl); congruence |].
        change (trace (logged w1 (Call stage))) with (trace (logged w1 (Call stage))).
        rewrite inferences_logged by exact Hq. rewrite Htr1. reflexivity.
      - rewrite inferences_logged by exact Hq. rewrite Htr1. reflexivity. }
    destruct (String.eqb method "auto"); [apply Hkeep; [reflexivity | apply Huni] |].
    destruct (String.eqb method "txt"); [apply Hkeep; [reflexivity | apply Htxt] |].
    destruct (String.eqb method "ocr"); [apply Hkeep; [reflexivity | apply Hocr] |].
    change (inferences (trace (logged w1 (LogError unknown_method_msg)))
            = inferences (trace w)).
    rewrite inferences_logged by reflexivity. rewrite Htr1. reflexivity. }
  rewrite bind_run, call_run.
  pose proof (Hcls p (env w2)) as Hc.
  destruct (pipe_classify p (env w2)) as [p' e' | x e'];
    [| cbn [state_of with_env trace]; rewrite inferences_logged by reflexivity; exact Hinf2].
  specialize (Hc p' e' eq_refl).
  rewrite bind_run. cbn [get_model_list with_env env]. rewrite bind_run.
  rewrite Hc, Hml2, Hlen. cbn [of_option]. rewrite ret_run.
  cbv iota beta. cbn [Nat.eqb]. rewrite bind_run, ret_run. cbv iota beta.
  match goal with
  | |- inferences (trace (state_of (?m ?w3))) = _ =>
      assert (Htail : hoare (fun _ => True) same_inferences m) by hoare_go;
      destruct (Htail w3 Logic.I) as [_ Ht]; unfold same_inferences in Ht; rewrite Ht
  end.
  cbn [with_env trace]. rewrite inferences_logged by reflexivity. exact Hinf2.
Qed.

End CacheFacts.

Section CacheLookup.

Context `{PyLib} `{Pipeline}.

Lemma read_fn_state (path : string) (w : World) : state_of (read_fn path w) = w.
Proof.
  unfold read_fn, drw_read, open_read. rewrite bind_run. cbn [get_fs].
  destruct (FS.read _ _); reflexivity.
Qed.

(** The cache lookup on a file that parses: its value is the model list. *)
Lemma load_model_list_hit (out_dir name method text : string) (records : Json.t) (w : World) :
  FS.exists_ (env_fs (env w)) (model_list_path out_dir name method) = true ->
  FS.read (env_fs (env w)) (model_list_path out_dir name method) = inr text ->
  json_loads text = Some records ->
  load_model_list out_dir name method w
  = Ok tt (with_env w (mkEnv (env_fs (env w)) (env_clock (env w)) records)).
Proof.
  intros Hex Hrd Hjs. unfold load_model_list, os_path_exists, open_read.
  rewrite bind_run. cbn [set_model_list]. rewrite !bind_run.
  cbn [get_fs with_env env env_fs env_clock]. rewrite ret_run, Hex.
  rewrite !bind_run. cbn [get_fs with_env env env_fs env_clock]. rewrite Hrd.
  cbn [of_sum]. rewrite ret_run, Hjs. reflexivity.
Qed.

(** The cache lookup without a file: the model list is empty. *)
Lemma load_model_list_miss (out_dir name method : string) (w : World) :
  FS.exists_ (env_fs (env w)) (model_list_path out_dir name method) = false ->
  load_model_list out_dir name method w
  = Ok tt (with_env w (mkEnv (env_fs (env w)) (env_clock (env w)) (Json.Arr []))).
Proof.
  intros Hex. unfold load_model_list, os_path_exists.
  rewrite bind_run. cbn [set_model_list]. rewrite !bind_run.
  cbn [get_fs with_env env env_fs env_clock]. rewrite ret_run, Hex. reflexivity.
Qed.

(** The cache lookup on a file that does not parse raises. *)
Lemma load_model_list_garbled (out_dir name method text : string) (w : World) :
  FS.exists_ (env_fs (env w)) (model_list_path out_dir name method) = true ->
  FS.read (env_fs (env w)) (model_list_path out_dir name method) = inr text ->
  json_loads text = None ->
  load_model_list out_dir name method w
  = Err (Exception "JSONDecodeError" (model_list_path out_dir name method))
        (with_env w (mkEnv (env_fs (env w)) (env_clock (env w)) (Json.Arr []))).
Proof.
  intros Hex Hrd Hjs. unfold load_model_list, os_path_exists, open_read.
  rewrite bind_run. cbn [set_model_list]. rewrite !bind_run.
  cbn [get_fs with_env env env_fs env_clock]. rewrite ret_run, Hex.
  rewrite !bind_run. cbn [get_fs with_env env env_fs env_clock]. rewrite Hrd.
  cbn [of_sum]. rewrite ret_run, Hjs. reflexivity.
Qed.

(** C3, as amended: when the document's artifact directory holds a
    [model.json] that parses to a value of non-zero length, and the
    pipeline's construction and classification leave the list they are
    handed as it is, the round of the batch loop for that document never
    calls [pipe_analyze]; the model list that the cache lookup of the
    round hands to [do_parse] is the cached value. *)
Theorem cached_records_skip_inference (pdf_path out_dir parse_method text : string)
    (result : list (string * Z)) (records : Json.t) (n : nat) (w : World) :
  construction_keeps_model_list ->
  FS.exists_ (env_fs (env w))
             (model_list_path out_dir (Pathlib.stem pdf_path) parse_method) = true ->
  FS.read (env_fs (env w))
          (model_list_path out_dir (Pathlib.stem pdf_path) parse_method) = inr text ->
  json_loads text = Some records ->
  Json.len records = Some (S n) ->
  inferences (trace (state_of (attempt pdf_path out_dir parse_method result w)))
  = inferences (trace w)
  /\ env_model_list
       (env (state_of (load_model_list out_dir (Pathlib.stem pdf_path) parse_method
                                       (logged w (Attempt pdf_path)))))
     = records.
Proof.
  intros Hkeep Hex Hrd Hjs Hlen. split.
  2: { rewrite (load_model_list_hit _ _ _ text records (logged w (Attempt pdf_path))
                  Hex Hrd Hjs).
       reflexivity. }
  assert (Hw1 : inferences (trace (logged w (Attempt pdf_path))) = inferences (trace w))
    by (apply inferences_logged; reflexivity).
  unfold attempt. rewrite bind_run. cbn [log].
  set (w1 := logged w (Attempt pdf_path)) in *.
  assert (Hp : inferences (trace (state_of (process pdf_path out_dir parse_method result w1)))
               = inferences (trace w1)).
  { unfold process. rewrite bind_run. cbn [time]. rewrite bind_run.
    pose proof (read_fn_state pdf_path w1) as Hr.
    destruct (read_fn pdf_path w1) as [data w2 | e w2]; cbn [state_of] in Hr; subst w2;
      [| reflexivity].
    rewrite bind_run.
    rewrite (load_model_list_hit _ _ _ text records w1 Hex Hrd Hjs).
    rewrite bind_run.
    set (w2 := with_env w1 _).
    pose proof (do_parse_cached out_dir (Pathlib.stem pdf_path) data parse_method
                  default_flags records n w2 Hkeep eq_refl Hlen) as Hd.
    destruct (do_parse _ _ _ _ _ w2) as [[] w3 | e w3]; cbn [state_of] in Hd |- *.
    - rewrite bind_run. cbn. exact Hd.
    - exact Hd. }
  unfold try_except_Exception.
  destruct (process _ _ _ _ w1) as [r w2 | e w2]; cbn [state_of] in Hp.
  - cbn [state_of]. congruence.
  - destruct (is_Exception e); cbn [state_of]; [| congruence].
    rewrite bind_run. cbn [log state_of].
    change (inferences (trace (logged w2 (LogException e))) = inferences (trace w)).
    rewrite inferences_logged by reflexivity. congruence.
Qed.

End CacheLookup.

(** ** The file system *)

Lemma same_files_refl (fs : FS.t) : same_files fs fs.
Proof. intros loc data. reflexivity. Qed.

Lemma same_files_trans (a b c : FS.t) : same_files a b -> same_files b c -> same_files a c.
Proof. intros Hab Hbc loc data. rewrite (Hbc loc data). apply Hab. Qed.

Lemma kind_insert_dir (fs : FS.t) (loc k : list string) :
  FS.kind fs loc = None ->
  FS.kind (FS.mk (FS.cwd fs) (<[loc := FS.Dir]> (FS.tree fs))) k
  = if decide (loc = k) then Some FS.Dir else FS.kind fs k.
Proof.
  intros Hnone. destruct k as [| x k]; cbn [FS.kind FS.tree].
  - destruct (decide (loc = [])) as [-> |]; reflexivity.
  - rewrite lookup_insert. destruct (decide (loc = x :: k)); reflexivity.
Qed.

(** [makedirs] adds directories at free locations and nothing else. *)
Lemma makedirs_walk_same_files (comps : list string) :
  forall fs cur, same_files fs (snd (FS.makedirs_walk fs cur comps)).
Proof.
  induction comps as [| c rest IH]; intros fs cur; cbn [FS.makedirs_walk].
  - apply same_files_refl.
  - destruct (FS.is_dir fs cur); [| apply same_files_refl].
    destruct (String.eqb c "" || String.eqb c "."); [apply IH |].
    destruct (String.eqb c ".."); [apply IH |].
    destruct (FS.kind fs (cur ++ [c])) as [[data |] |] eqn:Hk.
    + apply same_files_refl.
    + apply IH.
    + eapply same_files_trans; [| apply IH].
      intros loc data. rewrite kind_insert_dir by exact Hk.
      destruct (decide (cur ++ [c] = loc)) as [<- |]; [| reflexivity].
      rewrite Hk. split; discriminate.
Qed.

Lemma makedirs_same_files (fs : FS.t) (p : string) :
  same_files fs (state_of (FS.makedirs fs p)).
Proof.
  unfold FS.makedirs. destruct (String.eqb p ""); [apply same_files_refl |].
  pose proof (makedirs_walk_same_files (PosixPath.split_sep p) fs (FS.start fs p)) as Hs.
  destruct (FS.makedirs_walk _ _ _) as [[|] fs']; exact Hs.
Qed.

Lemma makedirs_error (fs fs' : FS.t) (p : string) (e : exn) :
  FS.makedirs fs p = Err e fs' -> is_Exception e = true.
Proof.
  unfold FS.makedirs. destruct (String.eqb p ""); [intros [= <- _]; reflexivity |].
  destruct (FS.makedirs_walk _ _ _) as [[|] fs'']; [discriminate |].
  intros [= <- _]. reflexivity.
Qed.

Lemma os_makedirs_same_files (p : string) (w : World) :
  same_files (env_fs (env w)) (env_fs (env (state_of (os_makedirs p w)))).
Proof.
  unfold os_makedirs. pose proof (makedirs_same_files (env_fs (env w)) p) as Hs.
  destruct (FS.makedirs _ _) as [[] fs' | e fs']; exact Hs.
Qed.

Lemma os_makedirs_error (p : string) (w w' : World) (e : exn) :
  os_makedirs p w = Err e w' -> is_Exception e = true.
Proof.
  unfold os_makedirs. destruct (FS.makedirs _ _) as [[] fs' | e' fs'] eqn:Hm; [discriminate |].
  rewrite bind_run. cbn. intros [= <- _]. eapply makedirs_error. exact Hm.
Qed.

Section UnknownMethod.

Context `{PyLib} `{Pipeline}.

Lemma prepare_env_same_files (output_dir name method : string) (w : World) :
  same_files (env_fs (env w)) (env_fs (env (state_of (prepare_env output_dir name method w)))).
Proof.
  unfold prepare_env. rewrite bind_run.
  pose proof (os_makedirs_same_files (PosixPath.join (PosixPath.join output_dir [name; method])
                                        ["images"]) w) as H1.
  destruct (os_makedirs _ w) as [[] w1 | e w1]; cbn [state_of] in *; [| exact H1].
  rewrite bind_run.
  pose proof (os_makedirs_same_files (PosixPath.join output_dir [name; method]) w1) as H2.
  destruct (os_makedirs _ w1) as [[] w2 | e w2]; cbn [state_of] in *;
    eapply same_files_trans; eassumption.
Qed.

Lemma prepare_env_error (output_dir name method : string) (w w' : World) (e : exn) :
  prepare_env output_dir name method w = Err e w' -> is_Exception e = true.
Proof.
  unfold prepare_env. rewrite bind_run.
  destruct (os_makedirs _ w) as [[] w1 | e1 w1] eqn:H1.
  - rewrite bind_run. destruct (os_makedirs _ w1) as [[] w2 | e2 w2] eqn:H2; [discriminate |].
    intros [= <- _]. eapply os_makedirs_error. exact H2.
  - intros [= <- _]. eapply os_makedirs_error. exact H1.
Qed.

Lemma recognized_false (method : string) :
  recognized method = false ->
  String.eqb method "auto" = false /\ String.eqb method "txt" = false
  /\ String.eqb method "ocr" = false.
Proof.
  unfold recognized. intros Hr.
  apply orb_false_iff in Hr as [Hr Hocr]. apply orb_false_iff in Hr as [Hauto Htxt].
  repeat split; assumption.
Qed.

(** With a method it does not know, [do_parse] lays out the output
    directory and then exits. *)
Lemma do_parse_unknown (output_dir name bytes method : string) (f : Flags) (w : World) :
  recognized method = false ->
  do_parse output_dir name bytes method f w
  = match prepare_env output_dir name method w with
    | Ok _ w1 => Err (SystemExit 1) (logged w1 (LogError unknown_method_msg))
    | Err e w1 => Err e w1
    end.
Proof.
  intros Hr. apply recognized_false in Hr as (Hauto & Htxt & Hocr).
  unfold do_parse. rewrite bind_run. cbn [get_model_list]. rewrite bind_run.
  destruct (prepare_env output_dir name method w) as [[image_dir md_dir] w1 | e w1];
    [| reflexivity].
  rewrite bind_run, Hauto, Htxt, Hocr. reflexivity.
Qed.

End UnknownMethod.

(** *** Steps that leave the state as it is *)

Lemma reads_only_ret {A} (a : A) : reads_only (mret a : M A).
Proof. intros w. reflexivity. Qed.

Lemma reads_only_bind {A B} (m : M A) (k : A -> M B) :
  reads_only m -> (forall a, reads_only (k a)) -> reads_only (m ≫= k).
Proof.
  intros Hm Hk w. rewrite bind_run. specialize (Hm w).
  destruct (m w) as [a w1 | e w1]; cbn [state_of] in *; subst w1; [apply Hk | reflexivity].
Qed.

Lemma reads_only_get_fs : reads_only get_fs.
Proof. intros w. reflexivity. Qed.

Lemma reads_only_of_option {A} (o : option A) (e : exn) : reads_only (of_option o e).
Proof. intros w. destruct o; reflexivity. Qed.

Lemma reads_only_mapM {A B} (f : A -> M B) (l : list A) :
  (forall a, reads_only (f a)) -> reads_only (mapM f l).
Proof.
  intros Hf. induction l as [| a l IH]; cbn [mapM].
  - apply reads_only_ret.
  - apply reads_only_bind; [apply Hf | intros b].
    apply reads_only_bind; [apply IH | intros bs; apply reads_only_ret].
Qed.

Section Collect.

Context `{PyLib} `{Pipeline}.

Lemma collect_reads_only (file_path out_root : string) : reads_only (collect file_path out_root).
Proof.
  unfold collect, os_path_isdir, glob_glob, os_path_relpath.
  apply reads_only_bind.
  { apply reads_only_bind; [apply reads_only_get_fs | intros fs; apply reads_only_ret]. }
  intros is_dir. apply reads_only_bind; [| intros [file_paths rel_dirs]; apply reads_only_ret].
  destruct is_dir; [| apply reads_only_ret].
  apply reads_only_bind.
  - apply reads_only_bind; [apply reads_only_get_fs | intros fs; apply reads_only_ret].
  - intros file_paths. apply reads_only_bind; [| intros; apply reads_only_ret].
    apply reads_only_mapM. intros f.
    apply reads_only_bind; [apply reads_only_get_fs | intros fs; apply reads_only_of_option].
Qed.

Lemma read_fn_run (path : string) (w : World) :
  read_fn path w
  = match FS.read (env_fs (env w))
                  (PosixPath.join2 (PosixPath.dirname path) (PosixPath.basename path)) with
    | inr data => Ok data w
    | inl e => Err e w
    end.
Proof.
  unfold read_fn, drw_read, open_read. rewrite bind_run. cbn [get_fs drw_path].
  destruct (FS.read _ _); reflexivity.
Qed.

Lemma read_fn_error (path : string) (w w' : World) (e : exn) :
  read_fn path w = Err e w' -> is_Exception e = true.
Proof.
  unfold read_fn, drw_read, open_read, FS.read. rewrite bind_run. cbn [get_fs].
  destruct (FS.resolve _ _) as [loc |]; [destruct (FS.kind _ loc) as [[data |] |] |];
    cbn; intros [= <- _]; reflexivity.
Qed.

(** The cache lookup changes nothing but the model list, and what it
    raises is an [Exception]. *)
Lemma load_model_list_effect (out_dir name method : string) (w : World) :
  env_fs (env (state_of (load_model_list out_dir name method w))) = env_fs (env w)
  /\ trace (state_of (load_model_list out_dir name method w)) = trace w
  /\ forall e w', load_model_list out_dir name method w = Err e w' -> is_Exception e = true.
Proof.
  unfold load_model_list, os_path_exists, open_read.
  rewrite bind_run. cbn [set_model_list]. rewrite !bind_run.
  cbn [get_fs with_env env env_fs env_clock]. rewrite ret_run.
  destruct (FS.exists_ _ _); [| repeat split; try reflexivity; discriminate].
  rewrite !bind_run. cbn [get_fs with_env env env_fs env_clock].
  destruct (FS.read _ _) as [e | text] eqn:Hrd; cbn [of_sum].
  - unfold FS.read in Hrd. repeat split; try reflexivity.
    intros e' w' [= <- _].
    destruct (FS.resolve _ _) as [loc |]; [destruct (FS.kind _ loc) as [[data |] |] |];
      inversion Hrd; reflexivity.
  - rewrite ret_run. destruct (json_loads text) as [v |]; cbn [of_option];
      rewrite ?ret_run; cbn [raise set_model_list state_of with_env env env_fs trace];
      repeat split; try reflexivity; try discriminate.
    intros e' w' [= <- _]. reflexivity.
Qed.

End Collect.

(** *** A run with a parse method that [do_parse] does not know *)

Lemma no_artifact_refl (w : World) : no_artifact w w.
Proof. split; [apply same_files_refl | repeat split]. Qed.

Lemma no_artifact_trans (a b c : World) : no_artifact a b -> no_artifact b c -> no_artifact a c.
Proof.
  intros (Hf1 & Hc1 & Hw1 & Hr1) (Hf2 & Hc2 & Hw2 & Hr2).
  split; [eapply same_files_trans; eassumption | repeat split; congruence].
Qed.

Lemma no_artifact_logged (w : World) (ev : event) :
  no_artifact_event ev = true -> no_artifact w (logged w ev).
Proof.
  intros Hq. split; [apply same_files_refl |].
  unfold calls, writes, reports. cbn [logged trace]. rewrite !flat_map_snoc.
  destruct ev; try discriminate; rewrite !app_nil_r; repeat split.
Qed.

Lemma no_artifact_same_fs_trace (w w' : World) :
  env_fs (env w') = env_fs (env w) -> trace w' = trace w -> no_artifact w w'.
Proof.
  intros Hfs Htr. unfold no_artifact. rewrite Hfs, Htr.
  split; [apply same_files_refl | repeat split].
Qed.

Section UnknownMethodRuns.

Context `{PyLib} `{Pipeline}.

Lemma prepare_env_no_artifact (output_dir name method : string) (w : World) :
  no_artifact w (state_of (prepare_env output_dir name method w)).
Proof.
  destruct (prepare_env_only_fs output_dir name method w) as (_ & _ & _ & _ & Htr).
  split; [apply prepare_env_same_files | rewrite Htr; repeat split].
Qed.

(** The body of the [try] with an unknown method: the document never
    completes; it fails with an [Exception] before the method check, or
    the process exits with status 1 at the check. *)
Lemma process_unknown (pdf_path out_dir method : string) (result : list (string * Z))
    (w : World) :
  recognized method = false ->
  no_artifact w (state_of (process pdf_path out_dir method result w))
  /\ match process pdf_path out_dir method result w with
     | Ok _ _ => False
     | Err e _ => is_Exception e = true \/ e = SystemExit 1
     end.
Proof.
  intros Hr. unfold process. rewrite bind_run. cbn [time]. rewrite bind_run.
  pose proof (read_fn_state pdf_path w) as Hst.
  pose proof (read_fn_error pdf_path w) as Herr.
  destruct (read_fn pdf_path w) as [data w1 | e w1]; cbn [state_of] in Hst; subst w1.
  2: { split; [apply no_artifact_refl | left; eapply Herr; reflexivity]. }
  rewrite bind_run.
  destruct (load_model_list_effect out_dir (Pathlib.stem pdf_path) method w)
    as (Hfs & Htr & Hle).
  destruct (load_model_list _ _ _ w) as [[] w2 | e w2]; cbn [state_of] in Hfs, Htr.
  2: { split; [apply no_artifact_same_fs_trace; assumption | left; eapply Hle; reflexivity]. }
  assert (H12 : no_artifact w w2) by (apply no_artifact_same_fs_trace; assumption).
  rewrite bind_run, (do_parse_unknown _ _ _ _ _ _ Hr).
  pose proof (prepare_env_no_artifact out_dir (Pathlib.stem pdf_path) method w2) as Hpe.
  pose proof (prepare_env_error out_dir (Pathlib.stem pdf_path) method w2) as Hpx.
  destruct (prepare_env _ _ _ w2) as [dirs w3 | e w3]; cbn [state_of] in Hpe |- *.
  - split; [| right; reflexivity].
    eapply no_artifact_trans; [exact H12 |].
    eapply no_artifact_trans;
      [exact Hpe | apply (no_artifact_logged w3 (LogError unknown_method_msg)); reflexivity].
  - split; [eapply no_artifact_trans; eassumption | left; eapply Hpx; reflexivity].
Qed.

Lemma batch_unknown (method : string) (jobs : list (string * string)) :
  recognized method = false ->
  forall result w,
    no_artifact w (state_of (batch method jobs result w))
    /\ match batch method jobs result w with
       | Ok result' _ => result' = result
       | Err e _ => e = SystemExit 1
       end.
Proof.
  intros Hr. induction jobs as [| [pdf_path out_dir] rest IH]; intros result w.
  - cbn. split; [apply no_artifact_refl | reflexivity].
  - rewrite batch_cons.
    assert (Hatt : no_artifact w (logged w (Attempt pdf_path)))
      by (apply no_artifact_logged; reflexivity).
    destruct (process_unknown pdf_path out_dir method result (logged w (Attempt pdf_path)) Hr)
      as [Hp Ho].
    destruct (process _ _ _ _ _) as [result' w1 | e w1]; [contradiction |].
    cbn [state_of] in Hp.
    destruct Ho as [He | ->].
    + rewrite He.
      destruct (IH result (logged w1 (LogException e))) as [IH1 IH2].
      split; [| exact IH2].
      eapply no_artifact_trans; [exact Hatt |].
      eapply no_artifact_trans; [exact Hp |].
      eapply no_artifact_trans;
        [apply (no_artifact_logged w1 (LogException e)); reflexivity | exact IH1].
    + cbn. split; [eapply no_artifact_trans; eassumption | reflexivity].
Qed.

(** C8, as amended: in a run with a parse method that [do_parse] does
    not know, no pipeline stage is called, nothing is written through a
    storage writer, no summary row is reported and the regular files of
    the disk stay what they were (only the directories that
    [prepare_env] lays out before the method check can appear); no
    document of the batch completes, and the batch can only end early by
    exiting with status 1. *)
Theorem unknown_method_leaves_no_artifact (file_path out_root parse_method : string)
    (w : World) :
  recognized parse_method = false ->
  no_artifact w (state_of (main file_path out_root parse_method w))
  /\ (forall jobs result w0,
         match batch parse_method jobs result w0 with
         | Ok result' _ => result' = result
         | Err e _ => e = SystemExit 1
         end).
Proof.
  intros Hr. split; [| intros jobs result w0; apply (batch_unknown _ jobs Hr result w0)].
  unfold main. rewrite bind_run. cbn [set_use_inside_model]. rewrite bind_run.
  cbn [set_model_mode env use_inside_model model_mode trace]. rewrite bind_run.
  set (w0 := mkWorld (env w) true "full" (trace w)).
  assert (Hstart : no_artifact w w0) by (apply no_artifact_same_fs_trace; reflexivity).
  pose proof (collect_reads_only file_path out_root w0) as Hc.
  destruct (collect file_path out_root w0) as [jobs w1 | e w1]; cbn [state_of] in Hc; subst w1;
    [| exact Hstart].
  rewrite bind_run.
  destruct (batch_unknown parse_method jobs Hr [] w0) as [Hb Ho].
  destruct (batch parse_method jobs [] w0) as [result w1 | e w1]; cbn [state_of] in Hb |- *.
  - subst result. cbn [report]. rewrite ret_run. cbn [state_of].
    exact (no_artifact_trans _ _ _ Hstart Hb).
  - exact (no_artifact_trans _ _ _ Hstart Hb).
Qed.





(** C5, as amended: when the document's [model.json] exists and does not
    parse, the cache lookup raises; the batch loop catches and logs the
    exception and goes on, and the document is left unprocessed: no
    pipeline stage runs for it (no inference either), nothing is written,
    the disk is unchanged and the summary gets no row. *)
Theorem garbled_cache_fails_document (pdf_path out_dir parse_method text : string)
    (result : list (string * Z)) (w : World) :
  FS.exists_ (env_fs (env w))
             (model_list_path out_dir (Pathlib.stem pdf_path) parse_method) = true ->
  FS.read (env_fs (env w))
          (model_list_path out_dir (Pathlib.stem pdf_path) parse_method) = inr text ->
  json_loads text = None ->
  exists e w',
    attempt pdf_path out_dir parse_method result w = Ok result w'
    /\ is_Exception e = true
    /\ trace w' = trace w ++ [Attempt pdf_path; LogException e]
    /\ env_fs (env w') = env_fs (env w)
    /\ (forall data, read_fn pdf_path w = Ok data w ->
                     e = Exception "JSONDecodeError"
                           (model_list_path out_dir (Pathlib.stem pdf_path) parse_method)).
Proof.
  intros Hex Hrd Hjs.
  unfold attempt. rewrite bind_run. cbn [log].
  set (w1 := logged w (Attempt pdf_path)).
  unfold try_except_Exception, process. rewrite bind_run. cbn [time]. rewrite bind_run.
  rewrite read_fn_run. change (env_fs (env w1)) with (env_fs (env w)).
  destruct (FS.read (env_fs (env w)) (PosixPath.join2 _ _)) as [e | data] eqn:Hread.
  - assert (He : is_Exception e = true).
    { apply (read_fn_error pdf_path w w e). rewrite read_fn_run, Hread. reflexivity. }
    rewrite He, bind_run. cbn [log].
    exists e, (logged w1 (LogException e)).
    split; [reflexivity |]. split; [exact He |].
    split; [cbn; rewrite <- app_assoc; reflexivity |]. split; [reflexivity |].
    intros data Hd. rewrite read_fn_run, Hread in Hd. discriminate.
  - rewrite bind_run.
    rewrite (load_model_list_garbled out_dir _ parse_method text w1 Hex Hrd Hjs).
    cbn [is_Exception]. rewrite bind_run. cbn [log].
    eexists (Exception "JSONDecodeError" _), _.
    split; [reflexivity |]. split; [reflexivity |].
    split; [cbn; rewrite <- app_assoc; reflexivity |]. split; [reflexivity |].
    intros; reflexivity.
Qed.

End UnknownMethodRuns.

(** *** A file that was written can be read back *)




Section RoundTrip.

Context `{PyLib} `{Pipeline}.

Lemma drw_write_run (rw : DiskReaderWriter) (content path : string) (mode : rw_mode) (w : World) :
  drw_write rw content path mode w
  = match FS.write (env_fs (env w)) (PosixPath.join2 (drw_path rw) path) content with
    | inr fs' =>
        Ok tt (with_env (logged w (Write (PosixPath.join2 (drw_path rw) path)))
                        (mkEnv fs' (env_clock (env w)) (env_model_list (env w))))
    | inl e => Err e (logged w (Write (PosixPath.join2 (drw_path rw) path)))
    end.
Proof.
  unfold drw_write, open_write. rewrite bind_run. cbn [log]. rewrite bind_run. cbn [get_fs].
  rewrite bind_run. cbn [logged env].
  destruct (FS.write _ _ _); reflexivity.
Qed.


End RoundTrip.

(** ** Paths as strings *)

Lemma append_cons (c : ascii) (a b : string) : String c a +:+ b = String c (a +:+ b).
Proof. reflexivity. Qed.

Lemma append_nil_l (b : string) : "" +:+ b = b.
Proof. reflexivity. Qed.

Lemma append_assoc (a b c : string) : (a +:+ b) +:+ c = a +:+ (b +:+ c).
Proof.
  induction a as [| x a IH]; [reflexivity |]. rewrite !append_cons. f_equal. exact IH.
Qed.

Lemma append_nil_r (a : string) : a +:+ "" = a.
Proof.
  induction a as [| x a IH]; [reflexivity |]. rewrite append_cons. f_equal. exact IH.
Qed.

Lemma length_append (a b : string) :
  String.length (a +:+ b) = String.length a + String.length b.
Proof.
  induction a as [| x a IH]; [reflexivity |]. rewrite append_cons. cbn [String.length].
  rewrite IH. reflexivity.
Qed.

(** Two ways to cut one string into a front and a back of a given
    length agree. *)
Lemma append_same_length_back (a b x y : string) :
  a +:+ x = b +:+ y -> String.length x = String.length y -> a = b /\ x = y.
Proof.
  revert b. induction a as [| c a IH]; intros b Heq Hlen.
  - destruct b as [| d b]; [split; [reflexivity | exact Heq] |].
    rewrite append_nil_l in Heq. subst x. rewrite length_append in Hlen.
    cbn [String.length] in Hlen. lia.
  - destruct b as [| d b].
    + rewrite append_nil_l in Heq. subst y. rewrite length_append in Hlen.
      cbn [String.length] in Hlen. lia.
    + rewrite !append_cons in Heq. injection Heq as -> Heq.
      destruct (IH b Heq Hlen) as [-> ->]. split; reflexivity.
Qed.

Lemma has_sep_existsb (s : string) :
  PosixPath.has_sep s = existsb PosixPath.is_sep (list_ascii_of_string s).
Proof. induction s as [| c s IH]; cbn; [reflexivity | rewrite IH; reflexivity]. Qed.

Lemma has_sep_append (a b : string) :
  PosixPath.has_sep (a +:+ b) = PosixPath.has_sep a || PosixPath.has_sep b.
Proof.
  induction a as [| c a IH]; [reflexivity |].
  rewrite append_cons. cbn [PosixPath.has_sep]. rewrite IH, orb_assoc. reflexivity.
Qed.

Lemma isabs_sep_free (s : string) : PosixPath.has_sep s = false -> PosixPath.isabs s = false.
Proof.
  destruct s as [| c s]; cbn; [reflexivity |].
  intros Hs. apply orb_false_iff in Hs as [Hc _]. exact Hc.
Qed.

Lemma valid_name_facts (x : string) :
  FS.valid_name x = true ->
  PosixPath.has_sep x = false /\ x <> "" /\ x <> "." /\ x <> "..".
Proof.
  unfold FS.valid_name. rewrite !andb_true_iff, !negb_true_iff, <- has_sep_existsb.
  intros [[[Hne Hdot] Hdd] Hs]. repeat split; [exact Hs | | |];
    intros ->; discriminate.
Qed.

Lemma endswith_sep_append (a b : string) :
  b <> "" -> PosixPath.endswith_sep (a +:+ b) = PosixPath.endswith_sep b.
Proof.
  intros Hb. induction a as [| c a IH]; [reflexivity |].
  rewrite append_cons. cbn [PosixPath.endswith_sep]. rewrite IH.
  destruct (a +:+ b) eqn:Hab; [| reflexivity].
  destruct a; [rewrite append_nil_l in Hab; contradiction | discriminate].
Qed.

(** Cutting at the last slash: a back without slash stays in the tail. *)
Lemma rcut_append_sep_free (a t : string) :
  PosixPath.has_sep t = false ->
  PosixPath.rcut (a +:+ t) = (fst (PosixPath.rcut a), snd (PosixPath.rcut a) +:+ t).
Proof.
  intros Ht. induction a as [| c a IH].
  - rewrite append_nil_l. cbn [PosixPath.rcut fst snd]. rewrite append_nil_l.
    induction t as [| d t IHt]; [reflexivity |].
    cbn [PosixPath.has_sep] in Ht. apply orb_false_iff in Ht as [Hd Ht].
    cbn [PosixPath.rcut]. rewrite (IHt Ht), Hd. reflexivity.
  - rewrite append_cons. cbn [PosixPath.rcut]. rewrite IH.
    destruct (PosixPath.rcut a) as [h tl]. cbn [fst snd].
    destruct h; [destruct (PosixPath.is_sep c) |]; reflexivity.
Qed.

Lemma rcut_endswith_sep (a : string) :
  PosixPath.endswith_sep a = true -> PosixPath.rcut a = (a, "").
Proof.
  induction a as [| c a IH]; [discriminate |].
  cbn [PosixPath.endswith_sep PosixPath.rcut]. destruct a as [| d a].
  - intros ->. reflexivity.
  - intros Ha. rewrite (IH Ha). reflexivity.
Qed.

Lemma join2_cases (d b : string) :
  PosixPath.isabs b = false ->
  PosixPath.join2 d b = b /\ d = ""
  \/ PosixPath.join2 d b = d +:+ b /\ PosixPath.endswith_sep d = true
  \/ PosixPath.join2 d b = (d +:+ "/") +:+ b /\ d <> "" /\ PosixPath.endswith_sep d = false.
Proof.
  intros Hb. unfold PosixPath.join2. rewrite Hb.
  destruct (String.eqb_spec d "") as [-> | Hd]; [left; split; reflexivity |].
  cbn [orb]. destruct (PosixPath.endswith_sep d) eqn:He.
  - right; left. split; reflexivity.
  - right; right. rewrite append_assoc. repeat split; assumption.
Qed.

(** The last component of a join is the name that was joined. *)
Lemma basename_join2 (d name : string) :
  PosixPath.has_sep name = false -> PosixPath.basename (PosixPath.join2 d name) = name.
Proof.
  intros Hn. unfold PosixPath.basename.
  destruct (join2_cases d name (isabs_sep_free name Hn))
    as [[-> ->] | [[-> He] | [-> [Hd He]]]].
  - change name with ("" +:+ name) at 1. rewrite rcut_append_sep_free by exact Hn. reflexivity.
  - rewrite rcut_append_sep_free by exact Hn. rewrite rcut_endswith_sep by exact He. reflexivity.
  - rewrite rcut_append_sep_free by exact Hn.
    rewrite rcut_endswith_sep by (apply endswith_sep_append; discriminate). reflexivity.
Qed.

(** *** What [*.pdf] matches *)

Lemma fnmatch_dot_pdf (name : string) :
  Fnmatch.fnmatchcase_pat ".pdf" name = true -> name = ".pdf".
Proof.
  assert (Heq : Fnmatch.fnmatchcase_pat ".pdf" name = String.eqb ".pdf" name)
    by (destruct name as [| c1 [| c2 [| c3 [| c4 [| c5 r]]]]]; reflexivity).
  rewrite Heq. intros Hm. apply String.eqb_eq in Hm. symmetry. exact Hm.
Qed.

Lemma fnmatch_star_pdf (name : string) :
  Fnmatch.fnmatchcase name "*.pdf" = true -> exists stem, name = stem +:+ ".pdf".
Proof.
  unfold Fnmatch.fnmatchcase. induction name as [| c name IH].
  - cbn. discriminate.
  - change (Fnmatch.fnmatchcase_pat "*.pdf" (String c name))
      with (Fnmatch.fnmatchcase_pat ".pdf" (String c name)
            || Fnmatch.fnmatchcase_pat "*.pdf" name).
    intros Hm. apply orb_true_iff in Hm as [Hm | Hm].
    + exists "". apply fnmatch_dot_pdf in Hm. exact Hm.
    + destruct (IH Hm) as [stem ->]. exists (String c stem). reflexivity.
Qed.


(** *** What [glob] yields *)

Lemma listdir_valid (fs : FS.t) (loc : list string) (x : string) :
  In x (FS.listdir fs loc) -> FS.valid_name x = true.
Proof.
  unfold FS.listdir. destruct (FS.is_dir fs loc); [| intros []].
  rewrite in_flat_map. intros [[k n] [_ Hx]]. cbn [fst] in Hx.
  destruct (FS.strip_prefix loc k) as [[| y [| z l]] |]; try contradiction.
  destruct (FS.valid_name y) eqn:Hv; [| contradiction].
  destruct Hx as [<- | []]. exact Hv.
Qed.

Lemma glob1_in (fs : FS.t) (dirname pattern name : string) :
  In name (Glob.glob1 fs dirname pattern) ->
  FS.valid_name name = true /\ Fnmatch.ishidden name = false
  /\ Fnmatch.fnmatchcase name pattern = true.
Proof.
  unfold Glob.glob1. destruct (FS.resolve fs _) as [loc |]; [| intros []].
  rewrite !filter_In, negb_true_iff. intros [[Hin Hh] Hm].
  repeat split; [eapply listdir_valid; exact Hin | exact Hh | exact Hm].
Qed.

(** ** Components of a path *)

Lemma split_sep_not_nil (s : string) : PosixPath.split_sep s <> [].
Proof.
  destruct s as [| c s]; cbn [PosixPath.split_sep]; [discriminate |].
  destruct (PosixPath.is_sep c); [discriminate |].
  destruct (PosixPath.split_sep s); discriminate.
Qed.

Lemma split_sep_sep_free (s : string) :
  PosixPath.has_sep s = false -> PosixPath.split_sep s = [s].
Proof.
  induction s as [| c s IH]; [reflexivity |].
  cbn [PosixPath.has_sep PosixPath.split_sep]. intros Hs.
  apply orb_false_iff in Hs as [Hc Hs]. rewrite Hc, (IH Hs). reflexivity.
Qed.

Lemma split_sep_append (a b : string) :
  PosixPath.split_sep (a +:+ "/" +:+ b) = PosixPath.split_sep a ++ PosixPath.split_sep b.
Proof.
  induction a as [| c a IH]; [reflexivity |].
  rewrite append_cons. cbn [PosixPath.split_sep]. rewrite IH.
  destruct (PosixPath.is_sep c); [reflexivity |].
  pose proof (split_sep_not_nil a) as Hne.
  destruct (PosixPath.split_sep a) as [| h t]; [contradiction | reflexivity].
Qed.

Lemma split_sep_pieces (s : string) :
  Forall (fun c => PosixPath.has_sep c = false) (PosixPath.split_sep s).
Proof.
  induction s as [| c s IH]; [repeat constructor |].
  cbn [PosixPath.split_sep]. destruct (PosixPath.is_sep c) eqn:Hc.
  - constructor; [reflexivity | exact IH].
  - destruct (PosixPath.split_sep s) as [| h t]; [repeat constructor; cbn; rewrite Hc; reflexivity |].
    inversion IH as [| ? ? Hh Ht]; subst. constructor; [| exact Ht].
    cbn [PosixPath.has_sep]. rewrite Hc, Hh. reflexivity.
Qed.

Lemma concat_cons2 (sep x y : string) (l : list string) :
  String.concat sep (x :: y :: l) = x +:+ sep +:+ String.concat sep (y :: l).
Proof. reflexivity. Qed.

Lemma split_sep_concat (comps : list string) :
  Forall plain comps -> comps <> [] -> PosixPath.split_sep (String.concat "/" comps) = comps.
Proof.
  induction comps as [| x [| y l] IH]; intros Hall Hne; [contradiction | |].
  - inversion Hall as [| ? ? [Hx _] _]; subst. cbn [String.concat].
    apply split_sep_sep_free. exact Hx.
  - inversion Hall as [| ? ? [Hx _] Hrest]; subst.
    rewrite concat_cons2, split_sep_append, (split_sep_sep_free x Hx).
    rewrite IH by (assumption || discriminate). reflexivity.
Qed.

Lemma nonempty_comps_concat (comps : list string) :
  Forall plain comps -> PosixPath.nonempty_comps (String.concat "/" comps) = comps.
Proof.
  intros Hall. destruct comps as [| x l]; [reflexivity |].
  unfold PosixPath.nonempty_comps. rewrite split_sep_concat by (assumption || discriminate).
  induction Hall as [| c l' [_ Hc] _ IH]; [reflexivity |].
  cbn [List.filter]. apply String.eqb_neq in Hc. rewrite Hc. cbn [negb]. f_equal. exact IH.
Qed.

Lemma nonempty_comps_slashes (n : nat) (s : string) :
  PosixPath.nonempty_comps (PosixPath.slashes n +:+ s) = PosixPath.nonempty_comps s.
Proof.
  induction n as [| n IH]; [reflexivity |]. exact IH.
Qed.

Lemma valid_name_plain (x : string) : FS.valid_name x = true -> plain x.
Proof. intros Hv. apply valid_name_facts in Hv as (Hs & Hne & _). split; assumption. Qed.

(** *** [normpath] *)

Lemma norm_step_plain (abs : bool) (stack : list string) (c : string) :
  c <> "" -> c <> "." -> c <> ".." -> PosixPath.norm_step abs stack c = c :: stack.
Proof.
  intros H1 H2 H3. unfold PosixPath.norm_step.
  apply String.eqb_neq in H1, H2, H3. rewrite H1, H2, H3. reflexivity.
Qed.

Lemma norm_step_empty (abs : bool) (stack : list string) :
  PosixPath.norm_step abs stack "" = stack.
Proof. reflexivity. Qed.

(** Names below a directory are pushed as they come. *)
Lemma norm_fold_names (abs : bool) (ds stack : list string) :
  Forall (fun d => FS.valid_name d = true) ds ->
  fold_left (PosixPath.norm_step abs) ds stack = rev ds ++ stack.
Proof.
  intros Hall. revert stack. induction Hall as [| d ds Hd _ IH]; intros stack; [reflexivity |].
  apply valid_name_facts in Hd as (_ & H1 & H2 & H3).
  cbn [fold_left rev]. rewrite (norm_step_plain abs stack d H1 H2 H3), IH, <- app_assoc.
  reflexivity.
Qed.

Lemma norm_step_keeps_plain (abs : bool) (stack : list string) (c : string) :
  PosixPath.has_sep c = false -> Forall plain stack ->
  Forall plain (PosixPath.norm_step abs stack c).
Proof.
  intros Hc Hst. unfold PosixPath.norm_step.
  destruct (String.eqb_spec c "") as [-> | Hne]; [exact Hst |].
  cbn [orb]. destruct (String.eqb c "."); [exact Hst |].
  destruct (_ || _).
  - constructor; [split; assumption | exact Hst].
  - destruct stack as [| x rest]; [constructor | inversion Hst; assumption].
Qed.

Lemma norm_fold_keeps_plain (abs : bool) (comps stack : list string) :
  Forall (fun c => PosixPath.has_sep c = false) comps -> Forall plain stack ->
  Forall plain (fold_left (PosixPath.norm_step abs) comps stack).
Proof.
  intros Hc. revert stack. induction Hc as [| c comps Hc _ IH]; intros stack Hst; [exact Hst |].
  cbn [fold_left]. apply IH. apply norm_step_keeps_plain; assumption.
Qed.

Lemma norm_comps_plain (path : string) : Forall plain (PosixPath.norm_comps path).
Proof.
  unfold PosixPath.norm_comps. apply Forall_rev.
  apply norm_fold_keeps_plain; [apply split_sep_pieces | constructor].
Qed.

Lemma initial_slashes_abs (path : string) :
  PosixPath.isabs path = true -> exists n, PosixPath.initial_slashes path = S n.
Proof.
  destruct path as [| c1 [| c2 [| c3 r]]]; cbn [PosixPath.isabs PosixPath.initial_slashes];
    intros Hc; try discriminate; rewrite Hc;
    repeat match goal with |- context [if ?b then _ else _] => destruct b end;
    eexists; reflexivity.
Qed.

(** The components of a normalised absolute path are those that
    [normpath] kept. *)
Lemma nonempty_comps_normpath (path : string) :
  PosixPath.isabs path = true ->
  PosixPath.nonempty_comps (PosixPath.normpath path) = PosixPath.norm_comps path.
Proof.
  intros Habs. unfold PosixPath.normpath.
  destruct path as [| c path]; [discriminate |]. cbn [String.eqb].
  destruct (initial_slashes_abs _ Habs) as [n Hn]. rewrite Hn.
  assert (Hne : String.eqb (PosixPath.slashes (S n)
                            +:+ String.concat "/" (PosixPath.norm_comps (String c path))) ""
                = false) by reflexivity.
  rewrite Hne, nonempty_comps_slashes. apply nonempty_comps_concat. apply norm_comps_plain.
Qed.

(** *** Trailing slashes *)

Lemma is_sep_eq (c : ascii) : PosixPath.is_sep c = true -> c = "/"%char.
Proof. unfold PosixPath.is_sep, PosixPath.sep. apply Ascii.eqb_eq. Qed.

Lemma endswith_sep_decompose (a : string) :
  PosixPath.endswith_sep a = true -> exists a', a = a' +:+ "/".
Proof.
  induction a as [| c a IH]; [discriminate |].
  cbn [PosixPath.endswith_sep]. destruct a as [| d a].
  - intros Hc. apply is_sep_eq in Hc as ->. exists "". reflexivity.
  - intros Ha. destruct (IH Ha) as [a' ->]. exists (String c a'). reflexivity.
Qed.

Lemma endswith_sep_sep_free (x : string) :
  PosixPath.has_sep x = false -> PosixPath.endswith_sep x = false.
Proof.
  induction x as [| c x IH]; [reflexivity |].
  cbn [PosixPath.has_sep PosixPath.endswith_sep]. intros Hs.
  apply orb_false_iff in Hs as [Hc Hs]. destruct x; [exact Hc | apply IH; exact Hs].
Qed.

Lemma all_sep_append (a b : string) :
  PosixPath.all_sep (a +:+ b) = PosixPath.all_sep a && PosixPath.all_sep b.
Proof.
  induction a as [| c a IH]; [reflexivity |].
  rewrite append_cons. cbn [PosixPath.all_sep]. rewrite IH, andb_assoc. reflexivity.
Qed.

Lemma all_sep_endswith (a : string) :
  PosixPath.all_sep a = true -> a <> "" -> PosixPath.endswith_sep a = true.
Proof.
  induction a as [| c a IH]; [contradiction |].
  cbn [PosixPath.all_sep PosixPath.endswith_sep]. intros Ha _.
  apply andb_true_iff in Ha as [Hc Ha]. destruct a; [exact Hc | apply IH; [exact Ha | discriminate]].
Qed.

Lemma rstrip_sep_nil (a : string) :
  PosixPath.rstrip_sep a = "" -> PosixPath.all_sep a = true.
Proof.
  induction a as [| c a IH]; [reflexivity |].
  cbn [PosixPath.rstrip_sep PosixPath.all_sep].
  destruct (PosixPath.rstrip_sep a) eqn:Hr; [| discriminate].
  destruct (PosixPath.is_sep c); [intros _; apply IH; reflexivity | discriminate].
Qed.

Lemma rstrip_sep_append_sep (a : string) :
  PosixPath.rstrip_sep (a +:+ "/") = PosixPath.rstrip_sep a.
Proof.
  induction a as [| c a IH]; [reflexivity |].
  rewrite append_cons. cbn [PosixPath.rstrip_sep]. rewrite IH. reflexivity.
Qed.

Lemma rstrip_sep_id (a : string) :
  PosixPath.endswith_sep a = false -> PosixPath.rstrip_sep a = a.
Proof.
  induction a as [| c a IH]; [reflexivity |].
  cbn [PosixPath.endswith_sep PosixPath.rstrip_sep]. destruct a as [| d a].
  - intros ->. reflexivity.
  - intros Ha. rewrite (IH Ha). reflexivity.
Qed.

Lemma endswith_sep_rstrip (a : string) :
  PosixPath.endswith_sep (PosixPath.rstrip_sep a) = false.
Proof.
  induction a as [| c a IH]; [reflexivity |].
  cbn [PosixPath.rstrip_sep]. destruct (PosixPath.rstrip_sep a) as [| d r] eqn:Hr.
  - destruct (PosixPath.is_sep c) eqn:Hc; [reflexivity | cbn; exact Hc].
  - cbn [PosixPath.endswith_sep]. exact IH.
Qed.

Lemma rstrip_sep_decompose (a : string) :
  exists n, a = PosixPath.rstrip_sep a +:+ PosixPath.slashes n.
Proof.
  induction a as [| c a [n IH]]; [exists 0; reflexivity |].
  cbn [PosixPath.rstrip_sep]. destruct (PosixPath.rstrip_sep a) as [| d r] eqn:Hr.
  - rewrite append_nil_l in IH. destruct (PosixPath.is_sep c) eqn:Hc.
    + apply is_sep_eq in Hc as ->. exists (S n). rewrite IH. reflexivity.
    + exists n. rewrite IH at 1. reflexivity.
  - exists n. rewrite IH at 1. reflexivity.
Qed.

(** The directory part [glob] works from. *)
Lemma root_shape (file_path : string) :
  file_path <> "" ->
  Glob.root file_path <> ""
  /\ (PosixPath.all_sep (Glob.root file_path) = true
      \/ PosixPath.all_sep (Glob.root file_path) = false
         /\ PosixPath.endswith_sep (Glob.root file_path) = false)
  /\ exists n, file_path = Glob.root file_path +:+ PosixPath.slashes n.
Proof.
  intros Hne. unfold Glob.root. destruct (PosixPath.all_sep file_path) eqn:Ha.
  - split; [exact Hne |]. split; [left; exact Ha |]. exists 0. symmetry. apply append_nil_r.
  - split; [intros Hr; apply rstrip_sep_nil in Hr; congruence |].
    split; [| apply rstrip_sep_decompose].
    right. split; [| apply endswith_sep_rstrip].
    destruct (PosixPath.all_sep (PosixPath.rstrip_sep file_path)) eqn:Hr; [| reflexivity].
    destruct (rstrip_sep_decompose file_path) as [n Hn]. rewrite Hn, all_sep_append, Hr in Ha.
    cbn [andb] in Ha. exfalso. clear -Ha. induction n as [| n IH]; [discriminate | apply IH; exact Ha].
Qed.

(** *** Relative directories *)

Lemma concat_names_shape (d : string) (ds : list string) :
  Forall (fun x => FS.valid_name x = true) (d :: ds) ->
  String.concat "/" (d :: ds) <> ""
  /\ PosixPath.isabs (String.concat "/" (d :: ds)) = false
  /\ PosixPath.all_sep (String.concat "/" (d :: ds)) = false
  /\ PosixPath.endswith_sep (String.concat "/" (d :: ds)) = false.
Proof.
  revert d. induction ds as [| y l IH]; intros d Hall;
    inversion Hall as [| ? ? Hd Hrest]; subst;
    apply valid_name_facts in Hd as (Hs & Hne & _).
  - cbn [String.concat]. split; [exact Hne |].
    split; [apply isabs_sep_free; exact Hs |].
    split; [| apply endswith_sep_sep_free; exact Hs].
    destruct d as [| c d]; [contradiction |]. cbn [PosixPath.has_sep] in Hs.
    apply orb_false_iff in Hs as [Hc _]. cbn [PosixPath.all_sep]. rewrite Hc. reflexivity.
  - rewrite concat_cons2. destruct (IH y Hrest) as (Hne' & _ & _ & He').
    destruct d as [| c d]; [contradiction |]. cbn [PosixPath.has_sep] in Hs.
    apply orb_false_iff in Hs as [Hc _].
    split; [discriminate |]. split; [cbn; exact Hc |].
    split; [rewrite append_cons; cbn [PosixPath.all_sep]; rewrite Hc; reflexivity |].
    rewrite endswith_sep_append by discriminate.
    change ("/" +:+ String.concat "/" (y :: l)) with (("" +:+ "/") +:+ String.concat "/" (y :: l)).
    rewrite endswith_sep_append by exact Hne'. exact He'.
Qed.

(** ** The layout of the output *)

Lemma append_not_empty (a x : string) : x <> "" -> a +:+ x <> "".
Proof.
  intros Hx. destruct a as [| c a]; [rewrite append_nil_l; exact Hx |].
  rewrite append_cons. discriminate.
Qed.

(** Whatever it is joined to, a name leaves a path that ends in it. *)
Lemma join2_name_open (d x : string) :
  FS.valid_name x = true ->
  PosixPath.join2 d x <> "" /\ PosixPath.endswith_sep (PosixPath.join2 d x) = false.
Proof.
  intros Hx. apply valid_name_facts in Hx as (Hs & Hne & _).
  destruct (join2_cases d x (isabs_sep_free x Hs)) as [[-> _] | [[-> _] | [-> _]]].
  - split; [exact Hne | apply endswith_sep_sep_free; exact Hs].
  - split; [apply append_not_empty; exact Hne |].
    rewrite endswith_sep_append by exact Hne. apply endswith_sep_sep_free. exact Hs.
  - split; [apply append_not_empty; exact Hne |].
    rewrite endswith_sep_append by exact Hne. apply endswith_sep_sep_free. exact Hs.
Qed.

Lemma join2_after_name (p x : string) :
  p <> "" -> PosixPath.endswith_sep p = false -> PosixPath.isabs x = false ->
  PosixPath.join2 p x = p +:+ "/" +:+ x.
Proof.
  intros Hp He Hx. unfold PosixPath.join2. rewrite Hx, He.
  destruct (String.eqb_spec p "") as [-> | _]; [contradiction | reflexivity].
Qed.

Section Layout.

Context `{PyLib} `{Pipeline}.

(** C6: the artifact directory that [prepare_env] returns is
    [os.path.join(output_dir, pdf_file_name, method)], with the images
    directory joined beneath it, whatever the state of the run; the path
    where the batch runner looks the cached model list up is the path
    that the storage writer rooted at that directory writes [model.json]
    to; and for a document name and a method that are plain names the
    three paths are [output_dir/name/method], its [images] and its
    [model.json]. *)
Theorem artifact_directory_deterministic (output_dir pdf_file_name method : string) :
  (forall w,
      match prepare_env output_dir pdf_file_name method w with
      | Ok dirs _ =>
          dirs = (PosixPath.join2 (PosixPath.join output_dir [pdf_file_name; method]) "images",
                  PosixPath.join output_dir [pdf_file_name; method])
      | Err _ _ => True
      end)
  /\ (forall content mode w,
         writes (trace (state_of
                          (drw_write (mkDiskReaderWriter
                                        (PosixPath.join output_dir [pdf_file_name; method]))
                                     content "model.json" mode w)))
         = writes (trace w) ++ [model_list_path output_dir pdf_file_name method])
  /\ (FS.valid_name pdf_file_name = true -> FS.valid_name method = true ->
      PosixPath.join output_dir [pdf_file_name; method]
      = PosixPath.join2 output_dir pdf_file_name +:+ "/" +:+ method
      /\ PosixPath.join2 (PosixPath.join output_dir [pdf_file_name; method]) "images"
         = PosixPath.join2 output_dir pdf_file_name +:+ "/" +:+ method +:+ "/images"
      /\ model_list_path output_dir pdf_file_name method
         = PosixPath.join2 output_dir pdf_file_name +:+ "/" +:+ method +:+ "/model.json").
Proof.
  split; [| split].
  - intros w. unfold prepare_env. rewrite bind_run.
    destruct (os_makedirs _ w) as [[] w1 | e w1]; [| exact Logic.I].
    rewrite bind_run. destruct (os_makedirs _ w1) as [[] w2 | e w2]; [| exact Logic.I].
    reflexivity.
  - intros content mode w. rewrite drw_write_run. cbn [drw_path].
    destruct (FS.write _ _ _); cbn [state_of with_env trace logged];
      unfold writes; rewrite flat_map_snoc; reflexivity.
  - intros Hname Hmethod.
    destruct (join2_name_open output_dir pdf_file_name Hname) as [Hne He].
    pose proof (valid_name_facts method Hmethod) as (Hms & Hmne & _).
    assert (Hdir : PosixPath.join output_dir [pdf_file_name; method]
                   = PosixPath.join2 output_dir pdf_file_name +:+ "/" +:+ method).
    { unfold PosixPath.join. cbn [fold_left].
      apply join2_after_name; [exact Hne | exact He | apply isabs_sep_free; exact Hms]. }
    assert (Hopen : PosixPath.join output_dir [pdf_file_name; method] <> ""
                    /\ PosixPath.endswith_sep (PosixPath.join output_dir [pdf_file_name; method])
                       = false).
    { unfold PosixPath.join. cbn [fold_left]. apply join2_name_open. exact Hmethod. }
    destruct Hopen as [Hdne Hde].
    split; [exact Hdir |]. split.
    + rewrite (join2_after_name _ "images" Hdne Hde eq_refl), Hdir, !append_assoc. reflexivity.
    + unfold model_list_path.
      change (PosixPath.join output_dir [pdf_file_name; method; "model.json"])
        with (PosixPath.join2 (PosixPath.join output_dir [pdf_file_name; method]) "model.json").
      rewrite (join2_after_name _ "model.json" Hdne Hde eq_refl), Hdir, !append_assoc.
      reflexivity.
Qed.

End Layout.

(** [os.path.join] of names is the names with slashes between. *)
Lemma join_names (d : string) (ds : list string) :
  Forall (fun x => FS.valid_name x = true) (d :: ds) ->
  PosixPath.join d ds = String.concat "/" (d :: ds).
Proof.
  intros Hall. inversion Hall as [| ? ? Hd Hds]; subst.
  apply valid_name_facts in Hd as (Hs & Hne & _).
  assert (Hgen : forall acc, acc <> "" -> PosixPath.endswith_sep acc = false ->
                   fold_left PosixPath.join2 ds acc = String.concat "/" (acc :: ds)).
  { clear Hall. induction Hds as [| y l Hy _ IH]; intros acc Ha He; [reflexivity |].
    apply valid_name_facts in Hy as (Hys & Hyne & _).
    cbn [fold_left].
    destruct (join2_cases acc y (isabs_sep_free y Hys)) as [[_ ->] | [[_ He'] | [-> _]]];
      [contradiction | congruence |].
    rewrite IH.
    - rewrite append_assoc. destruct l as [| z l]; [reflexivity |].
      rewrite !concat_cons2, !append_assoc. reflexivity.
    - destruct acc; [contradiction | discriminate].
    - rewrite endswith_sep_append by exact Hyne. apply endswith_sep_sep_free. exact Hys. }
  apply Hgen; [exact Hne | apply endswith_sep_sep_free; exact Hs].
Qed.

Lemma dirname_found (file_path name : string) (ds : list string) :
  file_path <> "" ->
  Forall (fun x => FS.valid_name x = true) ds -> FS.valid_name name = true ->
  PosixPath.dirname
    (PosixPath.join2 (PosixPath.join2 (Glob.root file_path) (String.concat "/" ds)) name)
  = found_dir file_path ds.
Proof.
  intros Hne Hds Hname. apply valid_name_facts in Hname as (Hns & _).
  destruct (root_shape file_path Hne) as (Hr & Hshape & _).
  set (D := Glob.root file_path) in *.
  assert (Hdir : forall d, d <> "" -> PosixPath.endswith_sep d = true ->
                   PosixPath.dirname (d +:+ name)
                   = if PosixPath.all_sep d then d else PosixPath.rstrip_sep d).
  { intros d Hd He. unfold PosixPath.dirname, PosixPath.split.
    rewrite rcut_append_sep_free by exact Hns. rewrite rcut_endswith_sep by exact He.
    cbn [fst snd]. apply String.eqb_neq in Hd. rewrite Hd. cbn [negb andb].
    destruct (PosixPath.all_sep d); reflexivity. }
  destruct ds as [| d0 ds]; cbn [found_dir].
  - change (String.concat "/" []) with "".
    destruct (join2_cases D "" eq_refl) as [[_ HD] | [[-> He] | [-> [_ He]]]]; [contradiction | |].
    + rewrite append_nil_r.
      destruct (join2_cases D name (isabs_sep_free name Hns)) as [[_ HD] | [[-> _] | [_ [_ He']]]];
        [contradiction | | congruence].
      rewrite (Hdir D Hr He).
      destruct Hshape as [-> | [_ He']]; [reflexivity | congruence].
    + rewrite append_nil_r.
      assert (He2 : PosixPath.endswith_sep (D +:+ "/") = true)
        by (apply endswith_sep_append; discriminate).
      destruct (join2_cases (D +:+ "/") name (isabs_sep_free name Hns))
        as [[_ HD] | [[-> _] | [_ [_ He']]]];
        [destruct D; discriminate | | congruence].
      rewrite (Hdir (D +:+ "/")) by (assumption || (destruct D; discriminate)).
      rewrite all_sep_append, rstrip_sep_append_sep.
      destruct Hshape as [Ha | [-> He']].
      * rewrite (all_sep_endswith D Ha Hr) in He. discriminate.
      * cbn [andb]. apply rstrip_sep_id. exact He'.
  - destruct (concat_names_shape d0 ds Hds) as (Hrne & Hrabs & Hrall & Hrend).
    set (rel := String.concat "/" (d0 :: ds)) in *.
    assert (Hd : PosixPath.join2 D rel <> ""
                 /\ PosixPath.endswith_sep (PosixPath.join2 D rel) = false
                 /\ PosixPath.all_sep (PosixPath.join2 D rel) = false).
    { destruct (join2_cases D rel Hrabs) as [[_ HD] | [[-> _] | [-> _]]]; [contradiction | |].
      - split; [destruct D; [contradiction | discriminate] |].
        split; [rewrite endswith_sep_append by exact Hrne; exact Hrend |].
        rewrite all_sep_append, Hrall. apply andb_false_r.
      - split; [destruct D; [contradiction | discriminate] |].
        split; [rewrite endswith_sep_append by exact Hrne; exact Hrend |].
        rewrite all_sep_append, Hrall. apply andb_false_r. }
    destruct Hd as (Hdne & Hdend & Hdall).
    destruct (join2_cases (PosixPath.join2 D rel) name (isabs_sep_free name Hns))
      as [[_ HD] | [[_ He'] | [-> _]]]; [contradiction | congruence |].
    rewrite (Hdir (PosixPath.join2 D rel +:+ "/"))
      by ((destruct (PosixPath.join2 D rel); discriminate)
          || (apply endswith_sep_append; discriminate)).
    rewrite all_sep_append, Hdall, rstrip_sep_append_sep. cbn [andb].
    apply rstrip_sep_id. exact Hdend.
Qed.

(** *** [relpath] of a directory below the start *)

Lemma norm_run_append (stack : list string) (a b : string) :
  norm_run stack (a +:+ "/" +:+ b) = norm_run (norm_run stack a) b.
Proof. unfold norm_run. rewrite split_sep_append, fold_left_app. reflexivity. Qed.

Lemma norm_run_slashes (stack : list string) (n : nat) :
  norm_run stack (PosixPath.slashes n) = stack.
Proof.
  induction n as [| n IH]; [reflexivity |].
  change (PosixPath.slashes (S n)) with ("" +:+ "/" +:+ PosixPath.slashes n).
  rewrite norm_run_append. exact IH.
Qed.

Lemma norm_run_trailing (stack : list string) (a : string) (n : nat) :
  norm_run stack (a +:+ PosixPath.slashes n) = norm_run stack a.
Proof.
  destruct n as [| n]; [rewrite append_nil_r; reflexivity |].
  change (PosixPath.slashes (S n)) with ("/" +:+ PosixPath.slashes n).
  rewrite norm_run_append. apply norm_run_slashes.
Qed.

Lemma norm_run_join2 (stack : list string) (a b : string) :
  a <> "" -> PosixPath.isabs b = false ->
  norm_run stack (PosixPath.join2 a b) = norm_run (norm_run stack a) b.
Proof.
  intros Ha Hb. destruct (join2_cases a b Hb) as [[_ ->] | [[-> He] | [-> _]]]; [contradiction | |].
  - destruct (endswith_sep_decompose a He) as [a' ->].
    rewrite append_assoc, norm_run_append.
    change (a' +:+ "/") with (a' +:+ PosixPath.slashes 1).
    rewrite norm_run_trailing. reflexivity.
  - rewrite append_assoc. apply norm_run_append.
Qed.

Lemma norm_run_names (stack : list string) (d : string) (ds : list string) :
  Forall (fun x => FS.valid_name x = true) (d :: ds) ->
  norm_run stack (String.concat "/" (d :: ds)) = rev (d :: ds) ++ stack.
Proof.
  intros Hall. unfold norm_run. rewrite split_sep_concat.
  - apply norm_fold_names. exact Hall.
  - eapply Forall_impl; [exact Hall |]. intros x Hx. apply valid_name_plain. exact Hx.
  - discriminate.
Qed.

Lemma isabs_append (a b : string) : a <> "" -> PosixPath.isabs (a +:+ b) = PosixPath.isabs a.
Proof. destruct a; [contradiction | reflexivity]. Qed.

Lemma isabs_join2 (a b : string) :
  a <> "" -> PosixPath.isabs b = false -> PosixPath.isabs (PosixPath.join2 a b) = PosixPath.isabs a.
Proof.
  intros Ha Hb. destruct (join2_cases a b Hb) as [[_ ->] | [[-> _] | [-> _]]]; [contradiction | |].
  - apply isabs_append. exact Ha.
  - rewrite append_assoc. apply isabs_append. exact Ha.
Qed.

(** The components of [abspath(p)], as the run of [normpath] that
    starts from the working directory when [p] is relative. *)
Lemma abspath_comps (cwd p : string) :
  PosixPath.isabs cwd = true ->
  PosixPath.nonempty_comps (PosixPath.abspath cwd p)
  = rev (norm_run (if PosixPath.isabs p then [] else norm_run [] cwd) p).
Proof.
  intros Hcwd. assert (Hne : cwd <> "") by (intros ->; discriminate).
  unfold PosixPath.abspath. destruct (PosixPath.isabs p) eqn:Hp.
  - rewrite nonempty_comps_normpath by exact Hp. unfold PosixPath.norm_comps. rewrite Hp.
    reflexivity.
  - assert (Habs : PosixPath.isabs (PosixPath.join2 cwd p) = true)
      by (rewrite isabs_join2; assumption).
    rewrite nonempty_comps_normpath by exact Habs. unfold PosixPath.norm_comps. rewrite Habs.
    fold (norm_run [] (PosixPath.join2 cwd p)). rewrite norm_run_join2 by assumption.
    reflexivity.
Qed.

Lemma found_dir_shape (file_path : string) (ds : list string) :
  file_path <> "" -> Forall (fun x => FS.valid_name x = true) ds ->
  found_dir file_path ds <> ""
  /\ PosixPath.isabs (found_dir file_path ds) = PosixPath.isabs file_path
  /\ (forall stack, norm_run stack (found_dir file_path ds)
                    = rev ds ++ norm_run stack file_path).
Proof.
  intros Hne Hds. destruct (root_shape file_path Hne) as (Hr & _ & n & Hn).
  assert (Habs : PosixPath.isabs (Glob.root file_path) = PosixPath.isabs file_path).
  { rewrite Hn at 2. symmetry. apply isabs_append. exact Hr. }
  assert (Hrun : forall stack, norm_run stack file_path = norm_run stack (Glob.root file_path)).
  { intros stack. rewrite Hn at 1. apply norm_run_trailing. }
  destruct ds as [| d ds]; cbn [found_dir].
  - split; [exact Hr |]. split; [exact Habs |]. intros stack. rewrite Hrun. reflexivity.
  - destruct (concat_names_shape d ds Hds) as (_ & Hrabs & _).
    split; [| split].
    + destruct (join2_cases (Glob.root file_path) (String.concat "/" (d :: ds)) Hrabs)
        as [[_ HD] | [[-> _] | [-> _]]]; [contradiction | |];
        destruct (Glob.root file_path); (contradiction || discriminate).
    + rewrite isabs_join2 by assumption. exact Habs.
    + intros stack. rewrite norm_run_join2 by assumption.
      rewrite norm_run_names by exact Hds. rewrite Hrun. reflexivity.
Qed.

Lemma common_prefix_len_app (l ds : list string) :
  PosixPath.common_prefix_len l (l ++ ds) = length l.
Proof.
  induction l as [| x l IH]; [destruct ds; reflexivity |].
  cbn [PosixPath.common_prefix_len app length]. rewrite String.eqb_refl, IH. reflexivity.
Qed.

Lemma skipn_length_app {A} (l ds : list A) : skipn (length l) (l ++ ds) = ds.
Proof. induction l as [| x l IH]; [reflexivity | exact IH]. Qed.

(** From the start directory, the relative path of a directory found
    [ds] below it is [ds], and [.] for the start directory itself. *)
Lemma relpath_found (cwd file_path : string) (ds : list string) :
  PosixPath.isabs cwd = true -> file_path <> "" ->
  Forall (fun x => FS.valid_name x = true) ds ->
  PosixPath.relpath cwd (found_dir file_path ds) file_path
  = Some (match ds with [] => "." | _ => String.concat "/" ds end).
Proof.
  intros Hcwd Hne Hds.
  destruct (found_dir_shape file_path ds Hne Hds) as (Hfne & Hfabs & Hrun).
  unfold PosixPath.relpath. apply String.eqb_neq in Hfne. rewrite Hfne.
  rewrite !abspath_comps by exact Hcwd. rewrite Hfabs, Hrun.
  rewrite rev_app_distr, rev_involutive.
  set (l := rev (norm_run _ file_path)).
  rewrite common_prefix_len_app, Nat.sub_diag, skipn_length_app. cbn [repeat app].
  destruct ds as [| d ds]; [reflexivity |].
  rewrite (join_names d ds Hds). reflexivity.
Qed.

(** *** The paths that discovery yields *)

Lemma split_pdf_pattern (file_path : string) :
  (exists front,
      PosixPath.split (PosixPath.join file_path ["**/*.pdf"]) = (front +:+ "**", "*.pdf")
      /\ PosixPath.endswith_sep front = true
      /\ (front = file_path
          \/ front = file_path +:+ "/" /\ PosixPath.endswith_sep file_path = false))
  \/ (PosixPath.split (PosixPath.join file_path ["**/*.pdf"]) = ("**", "*.pdf")
      /\ file_path = "").
Proof.
  cbn [PosixPath.join fold_left].
  assert (Hcut : forall front, PosixPath.endswith_sep front = true ->
             PosixPath.split ((front +:+ "**/") +:+ "*.pdf") = (front +:+ "**", "*.pdf")).
  { intros front Hf. unfold PosixPath.split.
    rewrite rcut_append_sep_free by reflexivity.
    rewrite rcut_endswith_sep by (apply endswith_sep_append; discriminate).
    cbn [fst snd]. rewrite append_nil_l.
    assert (Hns : PosixPath.all_sep (front +:+ "**/") = false)
      by (rewrite all_sep_append; apply andb_false_r).
    assert (Hne : String.eqb (front +:+ "**/") "" = false) by (destruct front; reflexivity).
    rewrite Hne, Hns. cbn [negb andb]. f_equal.
    change "**/" with ("**" +:+ "/"). rewrite <- append_assoc, rstrip_sep_append_sep.
    apply rstrip_sep_id. rewrite endswith_sep_append by discriminate. reflexivity. }
  destruct (join2_cases file_path "**/*.pdf" eq_refl) as [[-> ->] | [[-> He] | [-> [Hd He]]]].
  - right. split; reflexivity.
  - left. exists file_path. split; [| split; [exact He | left; reflexivity]].
    change "**/*.pdf" with ("**/" +:+ "*.pdf"). rewrite <- append_assoc.
    apply Hcut. exact He.
  - left. exists (file_path +:+ "/"). split; [| split; [| right; split; [reflexivity | exact He]]].
    + change "**/*.pdf" with ("**/" +:+ "*.pdf"). rewrite <- append_assoc.
      apply Hcut. apply endswith_sep_append. discriminate.
    + apply endswith_sep_append. discriminate.
Qed.

Lemma glob_in `{PyLib} (fs : FS.t) (file_path f : string) :
  In f (Glob.glob fs (PosixPath.join file_path ["**/*.pdf"])) ->
  exists d name,
    f = PosixPath.join2 d name
    /\ In d (Glob.iglob_dirs fs (fst (PosixPath.split (PosixPath.join file_path ["**/*.pdf"]))))
    /\ In name (Glob.glob1 fs d "*.pdf").
Proof.
  unfold Glob.glob.
  assert (Hb : snd (PosixPath.split (PosixPath.join file_path ["**/*.pdf"])) = "*.pdf").
  { destruct (split_pdf_pattern file_path) as [(front & -> & _) | [-> _]]; reflexivity. }
  destruct (PosixPath.split _) as [dirname basename]. cbn [fst snd] in *. subst basename.
  rewrite in_flat_map. intros (d & Hd & Hf). apply in_map_iff in Hf as (name & <- & Hn).
  exists d, name. repeat split; assumption.
Qed.

Lemma has_magic_append (a b : string) :
  Fnmatch.has_magic (a +:+ b) = Fnmatch.has_magic a || Fnmatch.has_magic b.
Proof.
  unfold Fnmatch.has_magic. induction a as [| c a IH]; [reflexivity |].
  rewrite append_cons. cbn [list_ascii_of_string existsb]. rewrite IH, orb_assoc. reflexivity.
Qed.

Lemma has_magic_root (file_path : string) :
  file_path <> "" -> Fnmatch.has_magic file_path = false ->
  Fnmatch.has_magic (Glob.root file_path) = false.
Proof.
  intros Hne Hm. destruct (root_shape file_path Hne) as (_ & _ & n & Hn).
  rewrite Hn, has_magic_append in Hm. apply orb_false_iff in Hm as [Hm _]. exact Hm.
Qed.

Lemma visible_dirs_valid (fs : FS.t) (ds cur : list string) :
  FS.visible_dirs fs cur ds = true -> Forall (fun x => FS.valid_name x = true) ds.
Proof.
  revert cur. induction ds as [| d ds IH]; intros cur; [constructor |].
  cbn [FS.visible_dirs]. rewrite !andb_true_iff. intros [[[Hv _] _] Hrest].
  constructor; [exact Hv | eapply IH; exact Hrest].
Qed.

Lemma rlistdir_in (fs : FS.t) (loc ds : list string) :
  In ds (FS.rlistdir fs loc) -> ds <> [] /\ FS.visible_dirs fs loc ds = true.
Proof.
  unfold FS.rlistdir. destruct (FS.is_dir fs loc); [| intros []].
  rewrite in_flat_map. intros [[k n] [_ Hx]]. cbn [fst] in Hx.
  destruct (FS.strip_prefix loc k) as [[| d l] |]; try contradiction.
  destruct (FS.visible_dirs fs loc (d :: l)) eqn:Hv; [| contradiction].
  destruct Hx as [<- | []]. split; [discriminate | exact Hv].
Qed.

(** Without magic characters in [file_path], the directories of the
    first round are the root and the visible directories below it. *)
Lemma iglob_dirs_in `{PyLib} (fs : FS.t) (file_path d : string) :
  file_path <> "" -> Fnmatch.has_magic file_path = false ->
  In d (Glob.iglob_dirs fs (fst (PosixPath.split (PosixPath.join file_path ["**/*.pdf"])))) ->
  exists ds,
    d = PosixPath.join2 (Glob.root file_path) (String.concat "/" ds)
    /\ (ds = [] \/ exists loc, FS.resolve fs (Glob.root file_path) = Some loc
                               /\ In ds (FS.rlistdir fs loc)).
Proof.
  intros Hne Hm.
  destruct (split_pdf_pattern file_path) as [(front & -> & He & Hfront) | [_ ->]];
    [| contradiction].
  cbn [fst]. unfold Glob.iglob_dirs.
  assert (Hsplit : PosixPath.split (front +:+ "**") = (Glob.root file_path, "**")).
  { unfold PosixPath.split. rewrite rcut_append_sep_free by reflexivity.
    rewrite rcut_endswith_sep by exact He. cbn [fst snd]. rewrite append_nil_l. f_equal.
    assert (Hfne : String.eqb front "" = false) by (destruct front; [discriminate | reflexivity]).
    rewrite Hfne. cbn [negb andb]. unfold Glob.root.
    destruct Hfront as [-> | [-> Hend]].
    - destruct (PosixPath.all_sep file_path); reflexivity.
    - rewrite all_sep_append, rstrip_sep_append_sep, andb_true_r.
      destruct (PosixPath.all_sep file_path) eqn:Ha; [| reflexivity].
      rewrite (all_sep_endswith file_path Ha Hne) in Hend. discriminate. }
  rewrite Hsplit, (has_magic_root file_path Hne Hm).
  rewrite in_map_iff. intros (rel & <- & Hrel). unfold Glob.glob2 in Hrel.
  destruct (root_shape file_path Hne) as (Hr & _).
  apply String.eqb_neq in Hr. rewrite Hr in Hrel. cbn [orb] in Hrel.
  apply in_app_or in Hrel as [Hrel | Hrel].
  - exists []. destruct (FS.isdir fs (Glob.root file_path)); [| contradiction].
    destruct Hrel as [<- | []]. split; [reflexivity | left; reflexivity].
  - destruct (FS.resolve fs (Glob.root file_path)) as [loc |] eqn:Hres; [| contradiction].
    apply in_map_iff in Hrel as (ds & <- & Hds).
    exists ds. split; [reflexivity |]. right. exists loc. split; [reflexivity | exact Hds].
Qed.

Lemma join2_empty_then (a b : string) :
  PosixPath.join2 (PosixPath.join2 a "") b = PosixPath.join2 a b.
Proof.
  destruct (join2_cases a "" eq_refl) as [[-> ->] | [[-> _] | [-> [Ha He]]]].
  - reflexivity.
  - rewrite append_nil_r. reflexivity.
  - rewrite append_nil_r. destruct (PosixPath.isabs b) eqn:Hb.
    + unfold PosixPath.join2. rewrite Hb. reflexivity.
    + destruct (join2_cases a b Hb) as [[_ ->] | [[_ He'] | [-> _]]];
        [contradiction | congruence |].
      destruct (join2_cases (a +:+ "/") b Hb) as [[_ Habs] | [[-> _] | [_ [_ He']]]].
      * destruct a; discriminate.
      * reflexivity.
      * rewrite endswith_sep_append in He' by discriminate. discriminate.
Qed.

Lemma concat_names_not_dot (d : string) (ds : list string) :
  Forall (fun x => FS.valid_name x = true) (d :: ds) ->
  String.eqb (String.concat "/" (d :: ds)) "." = false.
Proof.
  intros Hall. apply String.eqb_neq. intros Heq.
  inversion Hall as [| ? ? Hd _]; subst. apply valid_name_facts in Hd as (_ & _ & Hdot & _).
  destruct ds as [| y l]; [cbn [String.concat] in Heq; contradiction |].
  rewrite concat_cons2 in Heq.
  assert (Hs : PosixPath.has_sep "." = true)
    by (rewrite <- Heq, has_sep_append, has_sep_append; cbn; apply orb_true_r).
  discriminate.
Qed.

Lemma in_combine_map {A B} (k : A -> B) (l : list A) (x : A) (y : B) :
  In (x, y) (combine l (map k l)) -> In x l /\ y = k x.
Proof.
  induction l as [| a l IH]; [intros [] |].
  cbn [map combine]. intros [[= -> ->] | Hin].
  - split; [left; reflexivity | reflexivity].
  - destruct (IH Hin) as [Hx Hy]. split; [right; exact Hx | exact Hy].
Qed.

Lemma mapM_each {A B} (f : A -> M B) (g : A -> B) (l : list A) (w : World) :
  (forall x, In x l -> f x w = Ok (g x) w) -> mapM (M := M) f l w = Ok (map g l) w.
Proof.
  induction l as [| a l IH]; intros Hf; [reflexivity |].
  cbn [mapM map]. rewrite bind_run, (Hf a) by (left; reflexivity).
  rewrite bind_run, IH by (intros x Hx; apply Hf; right; exact Hx).
  reflexivity.
Qed.

Section Discovery.

Context `{PyLib} `{Pipeline}.

(** [collect] on a directory: the files are those of [glob], each with
    the directory made from its relative path. *)
Lemma collect_directory (file_path out_root : string) (w : World) :
  FS.isdir (env_fs (env w)) file_path = true ->
  collect file_path out_root w
  = match mapM (M := M) (fun f => os_path_relpath (PosixPath.dirname f) file_path)
               (Glob.glob (env_fs (env w)) (PosixPath.join file_path ["**/*.pdf"])) w with
    | Ok rel_dirs w' =>
        Ok (combine (Glob.glob (env_fs (env w)) (PosixPath.join file_path ["**/*.pdf"]))
                    (map (fun d => PosixPath.join out_root [d])
                         (map (fun d => if String.eqb d "." then "" else d) rel_dirs)))
           w'
    | Err e w' => Err e w'
    end.
Proof.
  intros Hd. unfold collect, os_path_isdir, glob_glob.
  rewrite !bind_run. cbn [get_fs]. rewrite ret_run, Hd, !bind_run. cbn [get_fs].
  rewrite ret_run, bind_run.
  destruct (mapM (M := M) _ _ w) as [rel_dirs w' | e w']; [| reflexivity].
  rewrite ret_run. reflexivity.
Qed.

Lemma collect_file (file_path out_root : string) (w : World) :
  FS.isdir (env_fs (env w)) file_path = false ->
  collect file_path out_root w = Ok [(file_path, PosixPath.join2 out_root "")] w.
Proof.
  intros Hd. unfold collect, os_path_isdir.
  rewrite !bind_run. cbn [get_fs]. rewrite ret_run, Hd. reflexivity.
Qed.

(** C9: on a directory input, every path that file discovery yields has
    a name that ends in the lowercase extension [.pdf]: a name that ends
    in any other four characters, such as [.PDF] or [.Pdf], is never
    among them. *)
Theorem discovery_is_case_sensitive (file_path out_root : string) (w : World) :
  FS.isdir (env_fs (env w)) file_path = true ->
  match collect file_path out_root w with
  | Ok jobs _ =>
      forall pdf_path out_dir,
        In (pdf_path, out_dir) jobs ->
        (exists stem, PosixPath.basename pdf_path = stem +:+ ".pdf")
        /\ (forall stem ext,
               String.length ext = 4 -> ext <> ".pdf" ->
               PosixPath.basename pdf_path <> stem +:+ ext)
  | Err _ _ => True
  end.
Proof.
  intros Hd. rewrite (collect_directory _ _ _ Hd).
  destruct (mapM (M := M) _ _ w) as [rel_dirs w' | e w']; [| exact Logic.I].
  intros pdf_path out_dir Hin. apply in_combine_l in Hin.
  apply glob_in in Hin as (d & name & -> & _ & Hname).
  apply glob1_in in Hname as (Hv & _ & Hm).
  apply valid_name_facts in Hv as (Hs & _).
  rewrite (basename_join2 d name Hs).
  apply fnmatch_star_pdf in Hm as [stem ->].
  split; [exists stem; reflexivity |].
  intros stem' ext Hlen Hext Heq.
  apply append_same_length_back in Heq as [_ Heq]; [| rewrite Hlen; reflexivity].
  apply Hext. symmetry. exact Heq.
Qed.

End Discovery.

(** *** Where the discovered paths are on the disk *)

Lemma walk_app (fs : FS.t) (xs ys cur : list string) :
  FS.walk fs cur (xs ++ ys)
  = match FS.walk fs cur xs with
    | Some l => FS.walk fs l ys
    | None => None
    end.
Proof.
  revert cur. induction xs as [| x xs IH]; intros cur; [reflexivity |].
  cbn [app FS.walk]. destruct (FS.is_dir fs cur); [| reflexivity].
  destruct (String.eqb x "" || String.eqb x "."); [apply IH |].
  destruct (String.eqb x ".."); apply IH.
Qed.

(** Trailing slashes do not change where a directory is. *)
Lemma walk_slashes (fs : FS.t) (cur : list string) (n : nat) :
  FS.walk fs cur (PosixPath.split_sep (PosixPath.slashes n))
  = if FS.is_dir fs cur then Some cur else None.
Proof.
  induction n as [| n IH].
  - cbn. destruct (FS.is_dir fs cur); reflexivity.
  - change (PosixPath.split_sep (PosixPath.slashes (S n)))
      with ("" :: PosixPath.split_sep (PosixPath.slashes n)).
    cbn [FS.walk]. destruct (FS.is_dir fs cur) eqn:Hd; [| reflexivity].
    exact IH.
Qed.

Lemma walk_names (fs : FS.t) (ds cur : list string) :
  FS.is_dir fs cur = true -> FS.visible_dirs fs cur ds = true ->
  FS.walk fs cur ds = Some (cur ++ ds).
Proof.
  revert cur. induction ds as [| d ds IH]; intros cur Hcur Hv.
  - cbn. rewrite app_nil_r. reflexivity.
  - cbn [FS.visible_dirs] in Hv. apply andb_true_iff in Hv as [Hv Hrest].
    apply andb_true_iff in Hv as [Hv Hd]. apply andb_true_iff in Hv as [Hv _].
    apply valid_name_facts in Hv as (_ & H1 & H2 & H3).
    apply String.eqb_neq in H1, H2, H3.
    cbn [FS.walk]. rewrite Hcur, H1, H2, H3. cbn [orb].
    rewrite (IH (cur ++ [d]) Hd Hrest), <- app_assoc. reflexivity.
Qed.

Lemma walk_dir_result (fs : FS.t) (comps cur loc : list string) :
  FS.walk fs cur (comps ++ [""]) = Some loc ->
  FS.walk fs cur comps = Some loc /\ FS.is_dir fs loc = true.
Proof.
  rewrite walk_app. destruct (FS.walk fs cur comps) as [l |]; [| discriminate].
  cbn [FS.walk]. destruct (FS.is_dir fs l) eqn:Hd; [| discriminate].
  cbn [String.eqb orb]. intros [= ->]. split; [reflexivity | exact Hd].
Qed.

Lemma start_append (fs : FS.t) (a b : string) : a <> "" -> FS.start fs (a +:+ b) = FS.start fs a.
Proof. intros Ha. unfold FS.start. rewrite isabs_append by exact Ha. reflexivity. Qed.

(** A directory that [isdir] accepts is where its path without trailing
    slashes leads. *)
Lemma resolve_root (fs : FS.t) (file_path : string) :
  FS.isdir fs file_path = true ->
  exists loc,
    FS.resolve fs file_path = Some loc /\ FS.is_dir fs loc = true
    /\ FS.resolve fs (Glob.root file_path) = Some loc.
Proof.
  unfold FS.isdir. destruct (FS.resolve fs file_path) as [loc |] eqn:Hres; [| discriminate].
  intros Hd. exists loc. split; [reflexivity |]. split; [exact Hd |].
  assert (Hne : file_path <> "") by (intros ->; discriminate).
  destruct (root_shape file_path Hne) as (Hr & _ & n & Hn).
  unfold FS.resolve in *. apply String.eqb_neq in Hne, Hr. rewrite Hne in Hres. rewrite Hr.
  apply String.eqb_neq in Hr.
  destruct n as [| n]; [rewrite append_nil_r in Hn; rewrite <- Hn; exact Hres |].
  rewrite Hn in Hres. rewrite start_append in Hres by exact Hr.
  change (PosixPath.slashes (S n)) with ("/" +:+ PosixPath.slashes n) in Hres.
  rewrite split_sep_append, walk_app in Hres.
  destruct (FS.walk fs _ (PosixPath.split_sep (Glob.root file_path))) as [l |]; [| discriminate].
  rewrite walk_slashes in Hres. destruct (FS.is_dir fs l); [exact Hres | discriminate].
Qed.

(** The directory found [ds] below the root is at the location of the
    root followed by [ds]. *)
Lemma resolve_found (fs : FS.t) (file_path : string) (ds loc : list string) :
  file_path <> "" ->
  FS.resolve fs (Glob.root file_path) = Some loc -> FS.is_dir fs loc = true ->
  FS.visible_dirs fs loc ds = true ->
  FS.resolve fs (PosixPath.join2 (Glob.root file_path) (String.concat "/" ds))
  = Some (loc ++ ds).
Proof.
  intros Hne Hres Hloc Hv.
  destruct (root_shape file_path Hne) as (Hr & _).
  set (D := Glob.root file_path) in *.
  pose proof (visible_dirs_valid fs ds loc Hv) as Hvalid.
  assert (Hwalk : FS.walk fs (FS.start fs D) (PosixPath.split_sep D) = Some loc).
  { unfold FS.resolve in Hres. apply String.eqb_neq in Hr. rewrite Hr in Hres. exact Hres. }
  assert (Hgen : forall rel comps,
             PosixPath.isabs rel = false -> PosixPath.split_sep rel = comps ->
             FS.walk fs loc comps = Some (loc ++ ds) ->
             FS.resolve fs (PosixPath.join2 D rel) = Some (loc ++ ds)).
  { intros rel comps Hrel Hsplit Hgo. unfold FS.resolve.
    destruct (join2_cases D rel Hrel) as [[_ HD] | [[-> He] | [-> _]]]; [contradiction | |].
    - assert (Hne' : String.eqb (D +:+ rel) "" = false)
        by (destruct D; [contradiction | reflexivity]).
      rewrite Hne', start_append by exact Hr.
      destruct (endswith_sep_decompose D He) as [D' HD'].
      assert (Hs1 : PosixPath.split_sep D = PosixPath.split_sep D' ++ [""]).
      { rewrite HD'. change (D' +:+ "/") with (D' +:+ "/" +:+ ""). apply split_sep_append. }
      assert (Hs2 : PosixPath.split_sep (D +:+ rel)
                    = PosixPath.split_sep D' ++ PosixPath.split_sep rel).
      { rewrite HD', append_assoc. apply split_sep_append. }
      rewrite Hs1 in Hwalk. apply walk_dir_result in Hwalk as [Hwalk _].
      rewrite Hs2, walk_app, Hwalk, Hsplit. exact Hgo.
    - assert (Hne' : String.eqb ((D +:+ "/") +:+ rel) "" = false)
        by (destruct D; [contradiction | reflexivity]).
      rewrite Hne', append_assoc, start_append by exact Hr.
      rewrite split_sep_append, walk_app, Hwalk, Hsplit. exact Hgo. }
  destruct ds as [| d ds].
  - apply (Hgen "" [""]); [reflexivity | reflexivity |].
    cbn [FS.walk]. rewrite Hloc, app_nil_r. reflexivity.
  - destruct (concat_names_shape d ds Hvalid) as (_ & Hrabs & _).
    apply (Hgen _ (d :: ds)); [exact Hrabs | | apply walk_names; assumption].
    apply split_sep_concat; [| discriminate].
    eapply Forall_impl; [exact Hvalid |]. intros x Hx. apply valid_name_plain. exact Hx.
Qed.

Lemma strip_prefix_app (pre l rest : list string) :
  FS.strip_prefix pre l = Some rest -> l = pre ++ rest.
Proof.
  revert l. induction pre as [| x pre IH]; intros l; cbn [FS.strip_prefix].
  - intros [= ->]. reflexivity.
  - destruct l as [| y l]; [discriminate |].
    destruct (String.eqb_spec x y) as [-> |]; [| discriminate].
    intros Hs. rewrite (IH l Hs). reflexivity.
Qed.

(** An entry that [listdir] yields is on the disk. *)
Lemma listdir_entry (fs : FS.t) (loc : list string) (x : string) :
  In x (FS.listdir fs loc) -> is_Some (FS.tree fs !! (loc ++ [x])).
Proof.
  unfold FS.listdir. destruct (FS.is_dir fs loc); [| intros []].
  rewrite in_flat_map. intros [[k n] [Hk Hx]]. cbn [fst] in Hx.
  destruct (FS.strip_prefix loc k) as [[| y [| z l]] |] eqn:Hs; try contradiction.
  destruct (FS.valid_name y); [| contradiction].
  destruct Hx as [<- | []]. apply strip_prefix_app in Hs as ->.
  apply list_elem_of_In, elem_of_map_to_list in Hk. exists n. exact Hk.
Qed.

Lemma mapM_ok_inv {A B} (f : A -> M B) (l : list A) (rs : list B) (w w' : World) :
  (forall x, reads_only (f x)) ->
  mapM (M := M) f l w = Ok rs w' ->
  w' = w /\ Forall2 (fun x r => f x w = Ok r w) l rs.
Proof.
  intros Hf. revert rs w'. induction l as [| a l IH]; intros rs w'; cbn [mapM].
  - rewrite ret_run. intros [= <- <-]. split; [reflexivity | constructor].
  - rewrite bind_run. pose proof (Hf a w) as Ha.
    destruct (f a w) as [b w1 | e w1] eqn:Hfa; [| discriminate].
    cbn [state_of] in Ha. subst w1. rewrite bind_run.
    destruct (mapM (M := M) f l w) as [bs w2 | e w2] eqn:Hl; [| discriminate].
    destruct (IH bs w2 eq_refl) as [-> Hall].
    rewrite ret_run. intros [= <- <-]. split; [reflexivity |].
    constructor; [exact Hfa | exact Hall].
Qed.

Lemma in_combine_Forall2 {A B C} (P : A -> B -> Prop) (k : B -> C)
    (l : list A) (rs : list B) (x : A) (y : C) :
  Forall2 P l rs -> In (x, y) (combine l (map k rs)) -> exists r, P x r /\ y = k r.
Proof.
  intros Hall. induction Hall as [| a r l rs Hp _ IH]; [intros [] |].
  cbn [map combine]. intros [[= <- <-] | Hin]; [exists r; split; [exact Hp | reflexivity] |].
  apply IH. exact Hin.
Qed.

Section Mirror.

Context `{PyLib} `{Pipeline}.

(** C7: a single file is the only job and goes under [out_root] with
    no directory between, so that its artifacts are in
    [out_root/name/method]. For a directory, the output directory of
    every discovered path is [out_root] joined with the path of its
    directory relative to the input root, the root itself giving the
    empty path; and when the input path has no magic character of
    [glob], a discovered path is an entry [name] of the root or of a
    visible directory [ds] below it, and goes under [out_root/ds]. *)
Theorem output_directory_mirrors_input (file_path out_root : string) (w : World) :
  (FS.isdir (env_fs (env w)) file_path = false ->
   collect file_path out_root w = Ok [(file_path, PosixPath.join2 out_root "")] w
   /\ forall name method,
        PosixPath.join (PosixPath.join2 out_root "") [name; method]
        = PosixPath.join out_root [name; method])
  /\ (FS.isdir (env_fs (env w)) file_path = true ->
      forall jobs w',
        collect file_path out_root w = Ok jobs w' ->
        forall pdf_path out_dir,
          In (pdf_path, out_dir) jobs ->
          exists rel,
            PosixPath.relpath (FS.getcwd (env_fs (env w))) (PosixPath.dirname pdf_path)
                              file_path = Some rel
            /\ out_dir = PosixPath.join2 out_root (if String.eqb rel "." then "" else rel))
  /\ (FS.isdir (env_fs (env w)) file_path = true ->
      Fnmatch.has_magic file_path = false ->
      exists jobs loc,
        collect file_path out_root w = Ok jobs w
        /\ FS.resolve (env_fs (env w)) file_path = Some loc
        /\ forall pdf_path out_dir,
             In (pdf_path, out_dir) jobs ->
             exists ds name,
               FS.visible_dirs (env_fs (env w)) loc ds = true
               /\ is_Some (FS.tree (env_fs (env w)) !! (loc ++ ds ++ [name]))
               /\ pdf_path = PosixPath.join2
                               (PosixPath.join2 (Glob.root file_path) (String.concat "/" ds))
                               name
               /\ out_dir = PosixPath.join2 out_root (String.concat "/" ds)).
Proof.
  split; [| split].
  - intros Hd. split; [apply collect_file; exact Hd |].
    intros name method. cbn [PosixPath.join fold_left]. rewrite join2_empty_then. reflexivity.
  - intros Hd jobs w'. rewrite (collect_directory _ _ _ Hd).
    destruct (mapM (M := M) _ _ w) as [rel_dirs w1 | e w1] eqn:Hm; [| discriminate].
    intros [= <- <-] pdf_path out_dir Hin.
    apply mapM_ok_inv in Hm as [_ Hall].
    2: { intros f. unfold os_path_relpath.
         apply reads_only_bind; [apply reads_only_get_fs | intros fs; apply reads_only_of_option]. }
    rewrite map_map in Hin.
    destruct (in_combine_Forall2 _ _ _ _ _ _ Hall Hin) as (rel & Hrel & ->).
    exists rel. split; [| reflexivity].
    unfold os_path_relpath in Hrel. rewrite bind_run in Hrel. cbn [get_fs] in Hrel.
    destruct (PosixPath.relpath _ _ _) as [r |]; [| discriminate].
    cbn [of_option] in Hrel. rewrite ret_run in Hrel. congruence.
  - intros Hd Hm.
    assert (Hne : file_path <> "") by (intros ->; discriminate).
    set (fs := env_fs (env w)) in *.
    destruct (resolve_root fs file_path Hd) as (loc & Hres & Hloc & Hroot).
    set (g := fun f => match PosixPath.relpath (FS.getcwd fs) (PosixPath.dirname f) file_path with
                       | Some r => r
                       | None => ""
                       end).
    assert (Hfound : forall f,
               In f (Glob.glob fs (PosixPath.join file_path ["**/*.pdf"])) ->
               exists ds name,
                 FS.visible_dirs fs loc ds = true
                 /\ is_Some (FS.tree fs !! (loc ++ ds ++ [name]))
                 /\ f = PosixPath.join2 (PosixPath.join2 (Glob.root file_path)
                                                         (String.concat "/" ds)) name
                 /\ PosixPath.relpath (FS.getcwd fs) (PosixPath.dirname f) file_path
                    = Some (match ds with [] => "." | _ => String.concat "/" ds end)
                 /\ Forall (fun x => FS.valid_name x = true) ds).
    { intros f Hf. apply glob_in in Hf as (d & name & -> & Hdir & Hname).
      apply iglob_dirs_in in Hdir as (ds & -> & Hds); [| exact Hne | exact Hm].
      assert (Hvis : FS.visible_dirs fs loc ds = true).
      { destruct Hds as [-> | (loc' & Hres' & Hin)]; [reflexivity |].
        rewrite Hroot in Hres'. injection Hres' as <-.
        apply rlistdir_in in Hin as [_ Hv]. exact Hv. }
      pose proof (visible_dirs_valid fs ds loc Hvis) as Hvalid.
      exists ds, name. split; [exact Hvis |].
      split; [| split; [reflexivity | split; [| exact Hvalid]]].
      - unfold Glob.glob1 in Hname.
        assert (Hdne : String.eqb (PosixPath.join2 (Glob.root file_path) (String.concat "/" ds)) ""
                       = false).
        { apply String.eqb_neq. intros Hnil.
          pose proof (resolve_found fs file_path ds loc Hne Hroot Hloc Hvis) as Hrf.
          rewrite Hnil in Hrf. discriminate. }
        rewrite Hdne, (resolve_found fs file_path ds loc Hne Hroot Hloc Hvis) in Hname.
        apply filter_In in Hname as [Hname _]. apply filter_In in Hname as [Hname _].
        apply listdir_entry in Hname. rewrite <- app_assoc in Hname. exact Hname.
      - apply glob1_in in Hname as (Hv & _).
        rewrite (dirname_found file_path name ds Hne Hvalid Hv).
        apply relpath_found; [reflexivity | exact Hne | exact Hvalid]. }
    rewrite (collect_directory _ _ _ Hd). fold fs.
    rewrite (mapM_each _ g).
    2: { intros f Hf. destruct (Hfound f Hf) as (ds & name & _ & _ & _ & Hrel & _).
         unfold os_path_relpath. rewrite bind_run. cbn [get_fs]. fold fs.
         unfold g. rewrite Hrel. reflexivity. }
    eexists _, loc. split; [reflexivity |]. split; [exact Hres |].
    intros pdf_path out_dir Hin. rewrite !map_map in Hin.
    apply in_combine_map in Hin as [Hin ->].
    destruct (Hfound pdf_path Hin) as (ds & name & Hvis & Hentry & Hpath & Hrel & Hvalid).
    exists ds, name. split; [exact Hvis |]. split; [exact Hentry |]. split; [exact Hpath |].
    unfold g. rewrite Hrel. cbn [PosixPath.join fold_left].
    destruct ds as [| d ds]; [reflexivity |].
    rewrite (concat_names_not_dot d ds Hvalid). reflexivity.
Qed.

End Mirror.

(** * Further properties of the driver *)

(** ** Laying out the output directory *)

Lemma dir_ext_refl (fs : FS.t) : dir_ext fs fs.
Proof. split; [reflexivity | intros loc Hd; exact Hd]. Qed.

Lemma dir_ext_trans (a b c : FS.t) : dir_ext a b -> dir_ext b c -> dir_ext a c.
Proof.
  intros [Hc1 Hd1] [Hc2 Hd2]. split; [congruence | intros loc Hd; apply Hd2, Hd1, Hd].
Qed.

Lemma is_dir_kind (fs : FS.t) (loc : list string) :
  FS.is_dir fs loc = true -> FS.kind fs loc = Some FS.Dir.
Proof. unfold FS.is_dir. destruct (FS.kind fs loc) as [[data |] |]; congruence. Qed.

Lemma is_dir_insert_dir (fs : FS.t) (loc k : list string) :
  FS.kind fs loc = None ->
  FS.is_dir (FS.mk (FS.cwd fs) (<[loc := FS.Dir]> (FS.tree fs))) k
  = if decide (loc = k) then true else FS.is_dir fs k.
Proof.
  intros Hk. unfold FS.is_dir. rewrite kind_insert_dir by exact Hk.
  destruct (decide (loc = k)); reflexivity.
Qed.

Lemma dir_ext_insert_dir (fs : FS.t) (loc : list string) :
  FS.kind fs loc = None ->
  dir_ext fs (FS.mk (FS.cwd fs) (<[loc := FS.Dir]> (FS.tree fs))).
Proof.
  intros Hk. split; [reflexivity |]. intros k Hd.
  rewrite is_dir_insert_dir by exact Hk. destruct (decide (loc = k)); [reflexivity | exact Hd].
Qed.

(** [makedirs] removes no directory. *)
Lemma makedirs_walk_dir_ext (comps : list string) :
  forall fs cur, dir_ext fs (snd (FS.makedirs_walk fs cur comps)).
Proof.
  induction comps as [| c rest IH]; intros fs cur; cbn [FS.makedirs_walk].
  - apply dir_ext_refl.
  - destruct (FS.is_dir fs cur); [| apply dir_ext_refl].
    destruct (String.eqb c "" || String.eqb c "."); [apply IH |].
    destruct (String.eqb c ".."); [apply IH |].
    destruct (FS.kind fs (cur ++ [c])) as [[data |] |] eqn:Hk.
    + apply dir_ext_refl.
    + apply IH.
    + eapply dir_ext_trans; [apply dir_ext_insert_dir; exact Hk | apply IH].
Qed.

(** On a disk that has the directories [makedirs] left, [makedirs]
    succeeds again and changes nothing. *)
Lemma makedirs_walk_again (comps : list string) :
  forall fs cur fs',
    FS.makedirs_walk fs cur comps = (true, fs') ->
    forall fs2, dir_ext fs' fs2 -> FS.makedirs_walk fs2 cur comps = (true, fs2).
Proof.
  induction comps as [| c rest IH]; intros fs cur fs' Hm fs2 Hext; [reflexivity |].
  pose proof (makedirs_walk_dir_ext (c :: rest) fs cur) as Hmono.
  rewrite Hm in Hmono. cbn [snd] in Hmono.
  cbn [FS.makedirs_walk] in Hm |- *.
  destruct (FS.is_dir fs cur) eqn:Hd; [| discriminate].
  rewrite (proj2 Hext cur (proj2 Hmono cur Hd)).
  destruct (String.eqb c "" || String.eqb c "."); [eapply IH; eassumption |].
  destruct (String.eqb c ".."); [eapply IH; eassumption |].
  assert (Hsub : forall fs1, FS.is_dir fs1 (cur ++ [c]) = true ->
                   FS.makedirs_walk fs1 (cur ++ [c]) rest = (true, fs') ->
                   match FS.kind fs2 (cur ++ [c]) with
                   | Some FS.Dir => FS.makedirs_walk fs2 (cur ++ [c]) rest
                   | Some (FS.File _) => (false, fs2)
                   | None => FS.makedirs_walk
                               (FS.mk (FS.cwd fs2) (<[cur ++ [c] := FS.Dir]> (FS.tree fs2)))
                               (cur ++ [c]) rest
                   end = (true, fs2)).
  { intros fs1 Hd1 Hm1.
    pose proof (makedirs_walk_dir_ext rest fs1 (cur ++ [c])) as Hmono1.
    rewrite Hm1 in Hmono1. cbn [snd] in Hmono1.
    rewrite (is_dir_kind fs2 _ (proj2 Hext _ (proj2 Hmono1 _ Hd1))).
    eapply IH; eassumption. }
  destruct (FS.kind fs (cur ++ [c])) as [[data |] |] eqn:Hk; [discriminate | |].
  - apply (Hsub fs); [unfold FS.is_dir; rewrite Hk; reflexivity | exact Hm].
  - eapply Hsub; [| exact Hm].
    rewrite is_dir_insert_dir by exact Hk. rewrite decide_True by reflexivity. reflexivity.
Qed.

(** The directory that [makedirs] was asked for is there afterwards,
    when the path ends in a name. *)
Lemma makedirs_walk_reaches (comps : list string) :
  forall fs cur fs',
    FS.makedirs_walk fs cur comps = (true, fs') ->
    FS.valid_name (List.last comps "") = true ->
    forall fs2, dir_ext fs' fs2 ->
    exists loc, FS.walk fs2 cur comps = Some loc /\ FS.is_dir fs2 loc = true.
Proof.
  induction comps as [| c rest IH]; intros fs cur fs' Hm Hlast fs2 Hext; [discriminate |].
  pose proof (makedirs_walk_dir_ext (c :: rest) fs cur) as Hmono.
  rewrite Hm in Hmono. cbn [snd] in Hmono.
  cbn [FS.makedirs_walk] in Hm. cbn [FS.walk].
  destruct (FS.is_dir fs cur) eqn:Hd; [| discriminate].
  rewrite (proj2 Hext cur (proj2 Hmono cur Hd)).
  destruct rest as [| c' rest'].
  - cbn [List.last] in Hlast. apply valid_name_facts in Hlast as (_ & Hne & Hdot & Hdd).
    apply String.eqb_neq in Hne, Hdot, Hdd. rewrite Hne, Hdot, Hdd in Hm |- *.
    cbn [orb FS.makedirs_walk FS.walk] in Hm |- *.
    exists (cur ++ [c]). split; [reflexivity |].
    apply (proj2 Hext). destruct (FS.kind fs (cur ++ [c])) as [[data |] |] eqn:Hk.
    + discriminate.
    + injection Hm as <-. unfold FS.is_dir. rewrite Hk. reflexivity.
    + injection Hm as <-. rewrite is_dir_insert_dir by exact Hk.
      rewrite decide_True by reflexivity. reflexivity.
  - change (List.last (c :: c' :: rest') "") with (List.last (c' :: rest') "") in Hlast.
    destruct (String.eqb c "" || String.eqb c "."); [eapply IH; eassumption |].
    destruct (String.eqb c ".."); [eapply IH; eassumption |].
    destruct (FS.kind fs (cur ++ [c])) as [[data |] |] eqn:Hk;
      [discriminate | |]; eapply IH; eassumption.
Qed.

Lemma makedirs_dir_ext (fs : FS.t) (p : string) : dir_ext fs (state_of (FS.makedirs fs p)).
Proof.
  unfold FS.makedirs. destruct (String.eqb p ""); [apply dir_ext_refl |].
  pose proof (makedirs_walk_dir_ext (PosixPath.split_sep p) fs (FS.start fs p)) as Hs.
  destruct (FS.makedirs_walk _ _ _) as [[|] fs']; exact Hs.
Qed.

Lemma start_dir_ext (fs fs' : FS.t) (p : string) : dir_ext fs fs' -> FS.start fs' p = FS.start fs p.
Proof. intros [Hc _]. unfold FS.start. rewrite Hc. reflexivity. Qed.

Lemma makedirs_again (fs fs' fs2 : FS.t) (p : string) :
  FS.makedirs fs p = Ok tt fs' -> dir_ext fs' fs2 -> FS.makedirs fs2 p = Ok tt fs2.
Proof.
  intros Hm Hext. pose proof (makedirs_dir_ext fs p) as Hmono. rewrite Hm in Hmono.
  cbn [state_of] in Hmono. unfold FS.makedirs in Hm |- *.
  destruct (String.eqb p ""); [discriminate |].
  rewrite (start_dir_ext fs fs2 p (dir_ext_trans _ _ _ Hmono Hext)).
  destruct (FS.makedirs_walk fs _ _) as [[|] fs1] eqn:Hw; [| discriminate].
  injection Hm as ->.
  rewrite (makedirs_walk_again _ _ _ _ Hw fs2 Hext). reflexivity.
Qed.

Lemma makedirs_isdir (fs fs' fs2 : FS.t) (p : string) :
  FS.makedirs fs p = Ok tt fs' ->
  FS.valid_name (List.last (PosixPath.split_sep p) "") = true ->
  dir_ext fs' fs2 -> FS.isdir fs2 p = true.
Proof.
  intros Hm Hlast Hext. pose proof (makedirs_dir_ext fs p) as Hmono. rewrite Hm in Hmono.
  cbn [state_of] in Hmono. unfold FS.makedirs in Hm. unfold FS.isdir, FS.resolve.
  destruct (String.eqb p ""); [discriminate |].
  rewrite (start_dir_ext fs fs2 p (dir_ext_trans _ _ _ Hmono Hext)).
  destruct (FS.makedirs_walk fs _ _) as [[|] fs1] eqn:Hw; [| discriminate].
  injection Hm as ->.
  destruct (makedirs_walk_reaches _ _ _ _ Hw Hlast fs2 Hext) as (loc & -> & Hd). exact Hd.
Qed.

Lemma os_makedirs_run (p : string) (w : World) :
  os_makedirs p w
  = match FS.makedirs (env_fs (env w)) p with
    | Ok _ fs' => Ok tt (with_fs w fs')
    | Err e fs' => Err e (with_fs w fs')
    end.
Proof. unfold os_makedirs. destruct (FS.makedirs _ _) as [[] fs' | e fs']; reflexivity. Qed.

Section OutputLayout.

Context `{PyLib} `{Pipeline}.

Lemma prepare_env_run (output_dir name method : string) (w : World) :
  prepare_env output_dir name method w
  = match FS.makedirs (env_fs (env w))
                      (PosixPath.join (PosixPath.join output_dir [name; method]) ["images"]) with
    | Ok _ fs1 =>
        match FS.makedirs fs1 (PosixPath.join output_dir [name; method]) with
        | Ok _ fs2 =>
            Ok (PosixPath.join (PosixPath.join output_dir [name; method]) ["images"],
                PosixPath.join output_dir [name; method])
               (with_fs w fs2)
        | Err e fs2 => Err e (with_fs w fs2)
        end
    | Err e fs1 => Err e (with_fs w fs1)
    end.
Proof.
  unfold prepare_env. rewrite bind_run, os_makedirs_run.
  destruct (FS.makedirs _ _) as [[] fs1 | e fs1]; [| reflexivity].
  rewrite bind_run, os_makedirs_run. cbn [with_fs with_env env env_fs].
  destruct (FS.makedirs fs1 _) as [[] fs2 | e fs2]; reflexivity.
Qed.

(** X1: [prepare_env] is idempotent: called again with the same
    arguments in the state a successful call left, it succeeds with the
    same two paths and leaves that state as it is. *)
Theorem prepare_env_idempotent (output_dir name method : string) (dirs : string * string)
    (w w1 : World) :
  prepare_env output_dir name method w = Ok dirs w1 ->
  prepare_env output_dir name method w1 = Ok dirs w1.
Proof.
  rewrite !prepare_env_run.
  destruct (FS.makedirs (env_fs (env w)) _) as [[] fs1 | e fs1] eqn:H1; [| discriminate].
  pose proof (makedirs_dir_ext fs1 (PosixPath.join output_dir [name; method])) as Hmono.
  destruct (FS.makedirs fs1 _) as [[] fs2 | e fs2] eqn:H2; [| discriminate].
  cbn [state_of] in Hmono. intros [= <- <-]. cbn [with_fs with_env env env_fs].
  rewrite (makedirs_again _ _ fs2 _ H1 Hmono).
  rewrite (makedirs_again _ _ fs2 _ H2 (dir_ext_refl fs2)). reflexivity.
Qed.

Lemma split_sep_ends_in_name (a x : string) :
  PosixPath.has_sep x = false ->
  List.last (PosixPath.split_sep (a +:+ "/" +:+ x)) "" = x.
Proof.
  intros Hx. rewrite split_sep_append, (split_sep_sep_free x Hx). apply List.last_last.
Qed.

(** X2: on success the two directories [prepare_env] returns exist,
    when the document name and the method are plain names; whatever the
    outcome, no regular file has changed and nothing but the disk has,
    and a failure is an [Exception], which the batch loop catches. *)
Theorem prepare_env_lays_out (output_dir name method : string) :
  (forall w,
      same_files (env_fs (env w))
                 (env_fs (env (state_of (prepare_env output_dir name method w))))
      /\ only_fs w (state_of (prepare_env output_dir name method w))
      /\ forall e w', prepare_env output_dir name method w = Err e w' -> is_Exception e = true)
  /\ (FS.valid_name name = true -> FS.valid_name method = true ->
      forall w local_image_dir local_md_dir w1,
        prepare_env output_dir name method w = Ok (local_image_dir, local_md_dir) w1 ->
        FS.isdir (env_fs (env w1)) local_image_dir = true
        /\ FS.isdir (env_fs (env w1)) local_md_dir = true).
Proof.
  split.
  - intros w. split; [apply prepare_env_same_files |].
    split; [apply prepare_env_only_fs | intros e w'; apply prepare_env_error].
  - intros Hname Hmethod w local_image_dir local_md_dir w1.
    rewrite prepare_env_run.
    destruct (FS.makedirs (env_fs (env w)) _) as [[] fs1 | e fs1] eqn:H1; [| discriminate].
    pose proof (makedirs_dir_ext fs1 (PosixPath.join output_dir [name; method])) as Hmono.
    destruct (FS.makedirs fs1 _) as [[] fs2 | e fs2] eqn:H2; [| discriminate].
    cbn [state_of] in Hmono. intros [= <- <- <-]. cbn [with_fs with_env env env_fs].
    destruct (join2_name_open output_dir name Hname) as [Hne He].
    pose proof (valid_name_facts method Hmethod) as (Hms & _).
    unfold PosixPath.join in *. cbn [fold_left] in *.
    assert (Hdir : PosixPath.join2 (PosixPath.join2 output_dir name) method
                   = PosixPath.join2 output_dir name +:+ "/" +:+ method)
      by (apply join2_after_name; [exact Hne | exact He | apply isabs_sep_free; exact Hms]).
    destruct (join2_name_open (PosixPath.join2 output_dir name) method Hmethod) as [Hdne Hde].
    assert (Himg : PosixPath.join2 (PosixPath.join2 (PosixPath.join2 output_dir name) method)
                                   "images"
                   = PosixPath.join2 (PosixPath.join2 output_dir name) method
                     +:+ "/" +:+ "images")
      by (apply join2_after_name; [exact Hdne | exact Hde | reflexivity]).
    split.
    + eapply makedirs_isdir; [exact H1 | | exact Hmono].
      rewrite Himg, split_sep_ends_in_name by reflexivity. reflexivity.
    + eapply makedirs_isdir; [exact H2 | | apply dir_ext_refl].
      rewrite Hdir, split_sep_ends_in_name by exact Hms. exact Hmethod.
Qed.

End OutputLayout.

(** ** Reading the document *)








(** The summary: one line per row, in order; it cannot fail. *)
Lemma report_run (result : list (string * Z)) :
  forall w,
    report result w
    = Ok tt (mkWorld (env w) (use_inside_model w) (model_mode w)
                     (trace w ++ map (fun r => Report (fst r) (snd r)) result)).
Proof.
  induction result as [| [pdf_path duration] rest IH]; intros w.
  - cbn [report map]. rewrite app_nil_r. destruct w; reflexivity.
  - cbn [report]. rewrite bind_run. cbn [log]. rewrite IH.
    cbn [logged env use_inside_model model_mode trace map fst snd].
    rewrite <- app_assoc. reflexivity.
Qed.

Section Reading.

Context `{PyLib} `{Pipeline}.



(** X5: path collection and the cache lookup only read: [collect]
    leaves the whole state as it is, and [load_model_list] changes nothing
    but the model list; neither touches the disk or the log, and what the
    lookup raises is an [Exception], which the batch loop catches. *)
Theorem discovery_and_lookup_only_read (w : World) :
  (forall file_path out_root, state_of (collect file_path out_root w) = w)
  /\ (forall out_dir name method,
         env_fs (env (state_of (load_model_list out_dir name method w))) = env_fs (env w)
         /\ trace (state_of (load_model_list out_dir name method w)) = trace w
         /\ use_inside_model (state_of (load_model_list out_dir name method w))
            = use_inside_model w
         /\ forall e w', load_model_list out_dir name method w = Err e w' ->
                         is_Exception e = true).
Proof.
  split; [intros file_path out_root; apply collect_reads_only |].
  intros out_dir name method.
  destruct (load_model_list_effect out_dir name method w) as (Hfs & Htr & He).
  split; [exact Hfs |]. split; [exact Htr |]. split; [| exact He].
  assert (HF : Frame (fun w0 => use_inside_model w0 = use_inside_model w)
                     (fun _ _ => True) (fun _ => true)).
  { split; intros; try exact Logic.I; (split; [assumption | exact Logic.I]). }
  exact (proj1 (load_model_list_hoare out_dir name method w eq_refl)).
Qed.

End Reading.

(** ** What discovery finds *)







Section Found.

Context `{PyLib} `{Pipeline}.





End Found.

(** ** Document names and artifact directories *)











Section Documents.

Context `{PyLib} `{Pipeline}.




End Documents.

(** ** The end of a run *)

Lemma reports_logged (w : World) (ev : event) :
  reports (trace (logged w ev))
  = reports (trace w) ++ match ev with Report p d => [(p, d)] | _ => [] end.
Proof. unfold reports. cbn [logged trace]. apply flat_map_snoc. Qed.

#[local] Instance report_frame : Frame (fun _ => True) same_reports not_report.
Proof.
  split.
  - intros w. reflexivity.
  - intros a b c Hab Hbc. unfold same_reports in *. congruence.
  - intros w e _. split; [exact Logic.I | reflexivity].
  - intros w ev Hq _. split; [exact Logic.I |]. unfold same_reports.
    rewrite reports_logged. destruct ev; try discriminate; apply app_nil_r.
Qed.


Section RunEnd.

Context `{PyLib} `{Pipeline}.






(** X15: a batch that is cut short was cut by something that is not an
    [Exception], raised while one document was processed: the documents
    attempted are the jobs up to that document, in order, and no job
    after it was attempted. *)
Theorem batch_cut_short (parse_method : string) (jobs : list (string * string)) :
  forall result w,
    match batch parse_method jobs result w with
    | Ok _ _ => True
    | Err e w' =>
        is_Exception e = false
        /\ exists done pdf_path out_dir rest,
             jobs = done ++ (pdf_path, out_dir) :: rest
             /\ attempts (trace w') = attempts (trace w) ++ map fst done ++ [pdf_path]
    end.
Proof.
  induction jobs as [| [pdf_path out_dir] rest IH]; intros result w; [exact Logic.I |].
  rewrite batch_cons.
  pose proof (process_batch_log pdf_path out_dir parse_method result
                (logged w (Attempt pdf_path)) Logic.I) as [_ [Ha _]].
  rewrite attempts_logged in Ha.
  assert (Hnext : forall result1 w1,
             attempts (trace w1) = attempts (trace w) ++ [pdf_path] ->
             match batch parse_method rest result1 w1 with
             | Ok _ _ => True
             | Err e w' =>
                 is_Exception e = false
                 /\ exists done p o rest',
                      (pdf_path, out_dir) :: rest = done ++ (p, o) :: rest'
                      /\ attempts (trace w') = attempts (trace w) ++ map fst done ++ [p]
             end).
  { intros result1 w1 Hw1. specialize (IH result1 w1).
    destruct (batch parse_method rest result1 w1) as [r2 w2 | e2 w2]; [exact Logic.I |].
    destruct IH as (He & done & p & o & rest' & -> & Hatt). split; [exact He |].
    exists ((pdf_path, out_dir) :: done), p, o, rest'. split; [reflexivity |].
    rewrite Hatt, Hw1, <- app_assoc. reflexivity. }
  destruct (process _ _ _ _ _) as [result1 w1 | e w1]; cbn [state_of] in Ha.
  - apply Hnext. exact Ha.
  - destruct (is_Exception e) eqn:He.
    + apply Hnext. rewrite attempts_logged, app_nil_r. exact Ha.
    + split; [exact He |]. exists [], pdf_path, out_dir, rest.
      split; [reflexivity | exact Ha].
Qed.

End RunEnd.

(** ** The artifacts of a document *)

Lemma writes_logged (w : World) (ev : event) :
  writes (trace (logged w ev))
  = writes (trace w) ++ match ev with Write p => [p] | _ => [] end.
Proof. unfold writes. cbn [logged trace]. apply flat_map_snoc. Qed.

#[local] Instance write_frame : Frame (fun _ => True) same_writes not_write.
Proof.
  split.
  - intros w. reflexivity.
  - intros a b c Hab Hbc. unfold same_writes in *. congruence.
  - intros w e _. split; [exact Logic.I | reflexivity].
  - intros w ev Hq _. split; [exact Logic.I |]. unfold same_writes.
    rewrite writes_logged. destruct ev; try discriminate; apply app_nil_r.
Qed.

Lemma emits_quiet {A} (m : M A) : hoare (fun _ => True) same_writes m -> emits [] m.
Proof.
  intros Hm w. destruct (Hm w Logic.I) as [_ Hw]. unfold same_writes in Hw.
  destruct (m w) as [a w1 | e w1]; cbn [state_of] in Hw.
  - rewrite app_nil_r. exact Hw.
  - exists []. split; [reflexivity | rewrite app_nil_r; exact Hw].
Qed.

Lemma emits_bind {A B} (l1 l2 : list string) (m : M A) (k : A -> M B) :
  emits l1 m -> (forall a, emits l2 (k a)) -> emits (l1 ++ l2) (m ≫= k).
Proof.
  intros Hm Hk w. rewrite bind_run. specialize (Hm w).
  destruct (m w) as [a w1 | e w1].
  - specialize (Hk a w1). destruct (k a w1) as [b w2 | e w2].
    + rewrite Hk, Hm, app_assoc. reflexivity.
    + destruct Hk as (pre & Hpre & Hw). exists (l1 ++ pre).
      split; [apply prefix_app; exact Hpre | rewrite Hw, Hm, app_assoc; reflexivity].
  - destruct Hm as (pre & Hpre & Hw). exists pre.
    split; [apply prefix_app_r; exact Hpre | exact Hw].
Qed.

Lemma emits_eq {A} (l l' : list string) (m : M A) : emits l m -> l = l' -> emits l' m.
Proof. intros Hm <-. exact Hm. Qed.

Lemma emits_when (l : list string) (b : bool) (m : M unit) :
  emits l m -> emits (if b then l else []) (when b m).
Proof.
  intros Hm. destruct b; [exact Hm |]. intros w. cbn. rewrite app_nil_r. reflexivity.
Qed.

Lemma emits_drw_write (rw : DiskReaderWriter) (content path : string) (mode : rw_mode) :
  emits [PosixPath.join2 (drw_path rw) path] (drw_write rw content path mode).
Proof.
  intros w. rewrite drw_write_run.
  destruct (FS.write _ _ _) as [e | fs'].
  - eexists. split; [reflexivity |]. rewrite writes_logged. reflexivity.
  - cbn [with_env trace]. rewrite writes_logged. reflexivity.
Qed.

Section Artifacts.

Context `{PyLib} `{Pipeline}.

(** The paths that [prepare_env] returns do not depend on the state. *)
Lemma emits_prepare_env {A} (l : list string) (output_dir name method : string)
    (k : string * string -> M A) :
  emits l (k (PosixPath.join (PosixPath.join output_dir [name; method]) ["images"],
              PosixPath.join output_dir [name; method])) ->
  emits l (prepare_env output_dir name method ≫= k).
Proof.
  intros Hk. apply (emits_eq ([] ++ l)); [| reflexivity].
  intros w. rewrite bind_run.
  destruct (prepare_env_only_fs output_dir name method w) as (_ & _ & _ & _ & Htr).
  rewrite prepare_env_run in Htr |- *.
  destruct (FS.makedirs (env_fs (env w)) _) as [[] fs1 | e fs1].
  - destruct (FS.makedirs fs1 _) as [[] fs2 | e fs2]; cbn [state_of] in Htr.
    + specialize (Hk (with_fs w fs2)). rewrite Htr in Hk. exact Hk.
    + exists []. split; [apply prefix_nil | rewrite Htr, app_nil_r; reflexivity].
  - cbn [state_of] in Htr. exists [].
    split; [apply prefix_nil | rewrite Htr, app_nil_r; reflexivity].
Qed.

Ltac emits_go :=
  repeat lazymatch goal with
    | |- emits _ (mbind _ (prepare_env _ _ _)) => apply emits_prepare_env
    | |- emits _ (mbind _ _) => eapply emits_bind; [| intros ?]
    | |- emits _ (when _ (drw_write _ _ _ _)) => apply emits_when, emits_drw_write
    | |- emits _ (let '(_, _) := ?x in _) => destruct x
    | |- emits _ _ => apply emits_quiet; hoare_go
    end.

(** X11: a parse call that completes has written, through the storage
    writer of the artifact directory [output_dir/name/method], the files
    that its flags select, once each and in the order markdown,
    [middle.json], [model.json], [origin.pdf], [content_list.json], and
    nothing else; a parse call that raises has written a front part of
    that list. *)
Theorem do_parse_writes (output_dir pdf_file_name pdf_bytes parse_method : string) (f : Flags)
    (w : World) :
  match do_parse output_dir pdf_file_name pdf_bytes parse_method f w with
  | Ok _ w' =>
      writes (trace w')
      = writes (trace w)
        ++ map (PosixPath.join2 (PosixPath.join output_dir [pdf_file_name; parse_method]))
               (artifact_files pdf_file_name f)
  | Err _ w' =>
      exists pre,
        pre `prefix_of` map (PosixPath.join2
                               (PosixPath.join output_dir [pdf_file_name; parse_method]))
                            (artifact_files pdf_file_name f)
        /\ writes (trace w') = writes (trace w) ++ pre
  end.
Proof.
  revert w.
  change (emits (map (PosixPath.join2 (PosixPath.join output_dir [pdf_file_name; parse_method]))
                     (artifact_files pdf_file_name f))
                (do_parse output_dir pdf_file_name pdf_bytes parse_method f)).
  eapply emits_eq.
  - unfold do_parse. emits_go.
  - unfold artifact_files. cbn [drw_path].
    destruct (f_dump_md f), (f_dump_middle_json f), (f_dump_model_json f),
      (f_dump_orig_pdf f), (f_dump_content_list f); reflexivity.
Qed.

End Artifacts.

(** ** The three ways past the classification *)

Lemma inferences_called (t : list event) : inferences t = called "pipe_analyze" t.
Proof. reflexivity. Qed.

Lemma called_app (stage : string) (t l : list event) :
  called stage (t ++ l) = called stage t + called stage l.
Proof.
  unfold called, calls. rewrite flat_map_app, List.filter_app, length_app. reflexivity.
Qed.

Lemma writes_app (t l : list event) : writes (t ++ l) = writes t ++ writes l.
Proof. unfold writes. apply flat_map_app. Qed.

(** A parse call that stopped early has neither inferred nor parsed nor
    written. *)
Lemma stopped_early_quiet (t l : list event) :
  stopped_early l ->
  writes (t ++ l) = writes t
  /\ inferences (t ++ l) = inferences t
  /\ called "pipe_parse" (t ++ l) = called "pipe_parse" t.
Proof.
  intros Hl. rewrite writes_app, inferences_called, !called_app.
  assert (Hq : writes l = [] /\ called "pipe_analyze" l = 0 /\ called "pipe_parse" l = 0).
  { destruct Hl as [-> | [-> | (c & Hc & Hl)]]; [repeat split | repeat split |].
    unfold pipe_classes in Hc. cbn [In] in Hc.
    destruct Hc as [<- | [<- | [<- | []]]]; destruct Hl as [-> | ->]; repeat split. }
  destruct Hq as (-> & -> & ->). rewrite app_nil_r, !Nat.add_0_r. repeat split.
Qed.

Section Branches.

Context `{PyLib} `{Pipeline}.

(** Construction and classification, with whatever follows: they raise,
    or what follows runs with the model list and the flag as they were. *)
Lemma construct_classify {A} (method bytes : string) (iw : DiskReaderWriter)
    (K : pipe -> M A) (w : World) :
  construction_keeps_model_list ->
  (exists e w' l,
      (p ← (if String.eqb method "auto" then call "UNIPipe" (UNIPipe bytes iw)
            else if String.eqb method "txt" then call "TXTPipe" (TXTPipe bytes iw)
            else if String.eqb method "ocr" then call "OCRPipe" (OCRPipe bytes iw)
            else log (LogError unknown_method_msg);; exit 1);
       p ← call "pipe_classify" (pipe_classify p); K p) w = Err e w'
      /\ trace w' = trace w ++ l /\ l <> [] /\ stopped_early l)
  \/ (exists c p w3,
         (p ← (if String.eqb method "auto" then call "UNIPipe" (UNIPipe bytes iw)
               else if String.eqb method "txt" then call "TXTPipe" (TXTPipe bytes iw)
               else if String.eqb method "ocr" then call "OCRPipe" (OCRPipe bytes iw)
               else log (LogError unknown_method_msg);; exit 1);
          p ← call "pipe_classify" (pipe_classify p); K p) w = K p w3
         /\ In c pipe_classes
         /\ trace w3 = trace w ++ [Call c; Call "pipe_classify"]
         /\ env_model_list (env w3) = env_model_list (env w)
         /\ use_inside_model w3 = use_inside_model w).
Proof.
  intros (Huni & Htxt & Hocr & Hcls).
  assert (Hgen : forall c (ctor : Env -> result Env pipe),
             In c pipe_classes -> keeps_model_list ctor ->
             (exists e w' l,
                 (p ← call c ctor; p ← call "pipe_classify" (pipe_classify p); K p) w = Err e w'
                 /\ trace w' = trace w ++ l /\ l <> [] /\ stopped_early l)
             \/ (exists c' p w3,
                    (p ← call c ctor; p ← call "pipe_classify" (pipe_classify p); K p) w = K p w3
                    /\ In c' pipe_classes
                    /\ trace w3 = trace w ++ [Call c'; Call "pipe_classify"]
                    /\ env_model_list (env w3) = env_model_list (env w)
                    /\ use_inside_model w3 = use_inside_model w)).
  { intros c ctor Hc Hkeep. rewrite bind_run, call_run.
    pose proof (Hkeep (env w)) as Hk1.
    destruct (ctor (env w)) as [p e1 | x e1].
    - specialize (Hk1 p e1 eq_refl). rewrite bind_run, call_run.
      cbn [with_env env]. pose proof (Hcls p e1) as Hk2.
      destruct (pipe_classify p e1) as [p' e2 | x e2].
      + specialize (Hk2 p' e2 eq_refl). right. eexists c, p', _.
        split; [reflexivity |]. split; [exact Hc |].
        cbn [with_env logged trace env use_inside_model]. rewrite <- app_assoc.
        repeat split. congruence.
      + left. eexists x, _, [Call c; Call "pipe_classify"]. split; [reflexivity |].
        cbn [with_env logged trace]. rewrite <- app_assoc.
        split; [reflexivity |]. split; [discriminate |].
        right; right. exists c. split; [exact Hc | right; reflexivity].
    - left. eexists x, _, [Call c]. split; [reflexivity |]. cbn [with_env logged trace].
      split; [reflexivity |]. split; [discriminate |].
      right; right. exists c. split; [exact Hc | left; reflexivity]. }
  destruct (String.eqb method "auto"); [apply Hgen; [left; reflexivity | apply Huni] |].
  destruct (String.eqb method "txt");
    [apply Hgen; [right; left; reflexivity | apply Htxt] |].
  destruct (String.eqb method "ocr");
    [apply Hgen; [right; right; left; reflexivity | apply Hocr] |].
  left. eexists (SystemExit 1), _, [LogError unknown_method_msg].
  split; [reflexivity |]. split; [reflexivity |]. split; [discriminate |].
  right; left. reflexivity.
Qed.

Lemma inferences_app (t l : list event) : inferences (t ++ l) = inferences t + inferences l.
Proof. rewrite !inferences_called. apply called_app. Qed.

Lemma classes_no_inference (c : string) :
  In c pipe_classes -> inferences [Call c; Call "pipe_classify"] = 0.
Proof. intros [<- | [<- | [<- | []]]]; reflexivity. Qed.

(** [do_parse] without a model list, with the inside model: a call that
    completes has inferred once. *)
Lemma do_parse_miss (output_dir name bytes method : string) (f : Flags) (w w' : World) :
  construction_keeps_model_list ->
  use_inside_model w = true -> Json.len (env_model_list (env w)) = Some 0 ->
  do_parse output_dir name bytes method f w = Ok tt w' ->
  inferences (trace w') = inferences (trace w) + 1.
Proof.
  intros Hkeep Huse Hlen.
  unfold do_parse. rewrite bind_run. cbn [get_model_list]. rewrite bind_run.
  destruct (prepare_env_only_fs output_dir name method w) as (Hml1 & _ & Huse1 & _ & Htr1).
  destruct (prepare_env output_dir name method w) as [[image_dir md_dir] w1 | e w1];
    cbn [state_of] in *; [| discriminate].
  match goal with
  | |- context [mbind (fun p => mbind ?K (call "pipe_classify" (pipe_classify p))) _ w1] =>
      destruct (construct_classify method bytes (mkDiskReaderWriter image_dir) K w1 Hkeep)
        as [(e & w2 & l & -> & _) | (c & p & w3 & -> & Hc & Htr3 & Hml3 & Huse3)];
      [discriminate |]
  end.
  rewrite bind_run. cbn [get_model_list]. rewrite bind_run, Hml3, Hml1, Hlen.
  cbn [of_option]. rewrite ret_run. cbv iota beta. cbn [Nat.eqb].
  rewrite bind_run, bind_run. cbn [get_use_inside_model]. rewrite Huse3, Huse1, Huse.
  rewrite bind_run, call_run.
  destruct (pipe_analyze p (env w3)) as [p4 e4 | x e4]; [| discriminate].
  rewrite ret_run. cbv iota beta.
  match goal with
  | |- ?m ?w4 = Ok tt w' -> _ =>
      assert (Htail : hoare (fun _ => True) same_inferences m) by hoare_go;
      destruct (Htail w4 Logic.I) as [_ Ht]; unfold same_inferences in Ht;
      intros Hrun; rewrite Hrun in Ht; cbn [state_of] in Ht; rewrite Ht
  end.
  cbn [with_env logged trace]. rewrite inferences_app, Htr3, inferences_app, Htr1.
  rewrite (classes_no_inference c Hc). cbn. lia.
Qed.

(** X12: a document without a cached model list is inferred exactly
    once: when no [model.json] is found, the inside model is enabled (as
    [main] has it) and the pipeline's construction and classification
    leave the list they are handed as it is, a round of processing that
    completes has called [pipe_analyze] once. *)
Theorem cache_miss_runs_inference_once (pdf_path out_dir parse_method : string)
    (result result' : list (string * Z)) (w w' : World) :
  construction_keeps_model_list ->
  use_inside_model w = true ->
  FS.exists_ (env_fs (env w))
             (model_list_path out_dir (Pathlib.stem pdf_path) parse_method) = false ->
  process pdf_path out_dir parse_method result w = Ok result' w' ->
  inferences (trace w') = inferences (trace w) + 1.
Proof.
  intros Hkeep Huse Hex. unfold process. rewrite bind_run. cbn [time]. rewrite bind_run.
  rewrite read_fn_run. destruct (FS.read _ _) as [e | data]; [discriminate |].
  rewrite bind_run, (load_model_list_miss _ _ _ w Hex), bind_run.
  set (w1 := with_env w _).
  pose proof (do_parse_miss out_dir (Pathlib.stem pdf_path) data parse_method default_flags
                w1) as Hd.
  destruct (do_parse _ _ _ _ _ w1) as [[] w2 | e w2]; [| discriminate].
  rewrite bind_run. cbn [time]. rewrite ret_run. intros [= _ <-].
  apply (Hd w2 Hkeep Huse eq_refl eq_refl).
Qed.


(** X14: a [model.json] that parses to a JSON value without a length
    (a number, [null], [true], [false]) is not taken for a cache and is
    not ignored either: the document is not completed, and neither
    [pipe_analyze] nor [pipe_parse] is called for it and nothing is
    written. *)
Theorem cache_without_length_fails_document (pdf_path out_dir parse_method text : string)
    (result : list (string * Z)) (v : Json.t) (w : World) :
  construction_keeps_model_list ->
  FS.exists_ (env_fs (env w))
             (model_list_path out_dir (Pathlib.stem pdf_path) parse_method) = true ->
  FS.read (env_fs (env w))
          (model_list_path out_dir (Pathlib.stem pdf_path) parse_method) = inr text ->
  json_loads text = Some v ->
  Json.len v = None ->
  match process pdf_path out_dir parse_method result w with
  | Ok _ _ => False
  | Err e w' =>
      writes (trace w') = writes (trace w)
      /\ inferences (trace w') = inferences (trace w)
      /\ called "pipe_parse" (trace w') = called "pipe_parse" (trace w)
      /\ exists l, trace w' = trace w ++ l /\ stopped_early l
  end.
Proof.
  intros Hkeep Hex Hrd Hjs Hlen.
  assert (Hstop : forall l w', trace w' = trace w ++ l -> stopped_early l ->
            writes (trace w') = writes (trace w)
            /\ inferences (trace w') = inferences (trace w)
            /\ called "pipe_parse" (trace w') = called "pipe_parse" (trace w)
            /\ exists l, trace w' = trace w ++ l /\ stopped_early l).
  { intros l w' Htr Hl. rewrite Htr.
    destruct (stopped_early_quiet (trace w) l Hl) as (Hw & Hi & Hp).
    split; [exact Hw |]. split; [exact Hi |]. split; [exact Hp |].
    exists l. split; [reflexivity | exact Hl]. }
  unfold process. rewrite bind_run. cbn [time]. rewrite bind_run.
  rewrite read_fn_run. destruct (FS.read _ (PosixPath.join2 _ _)) as [e | data].
  { apply (Hstop []); [rewrite app_nil_r; reflexivity | left; reflexivity]. }
  rewrite bind_run, (load_model_list_hit _ _ _ text v w Hex Hrd Hjs), bind_run.
  set (w0 := with_env w _).
  unfold do_parse. rewrite bind_run. cbn [get_model_list]. rewrite bind_run.
  destruct (prepare_env_only_fs out_dir (Pathlib.stem pdf_path) parse_method w0)
    as (Hml1 & _ & _ & _ & Htr1).
  destruct (prepare_env out_dir (Pathlib.stem pdf_path) parse_method w0)
    as [[image_dir md_dir] w1 | e w1]; cbn [state_of] in *.
  2: { apply (Hstop []); [rewrite app_nil_r; exact Htr1 | left; reflexivity]. }
  match goal with
  | |- context [mbind (fun p => mbind ?K (call "pipe_classify" (pipe_classify p))) _ w1] =>
      destruct (construct_classify parse_method data (mkDiskReaderWriter image_dir) K w1 Hkeep)
        as [(e & w2 & l & -> & Htr2 & _ & Hl) | (c & p & w3 & -> & Hc & Htr3 & Hml3 & _)]
  end.
  - apply (Hstop l); [rewrite Htr2, Htr1; reflexivity | exact Hl].
  - rewrite bind_run. cbn [get_model_list]. rewrite bind_run, Hml3, Hml1.
    change (env_model_list (env w0)) with v. rewrite Hlen. cbn [of_option raise].
    apply (Hstop [Call c; Call "pipe_classify"]); [rewrite Htr3, Htr1; reflexivity |].
    right; right. exists c. split; [exact Hc | right; reflexivity].
Qed.

End Branches.

(** ** The command line *)

Lemma errors_logged (w : World) (ev : event) :
  errors (trace (logged w ev))
  = errors (trace w) ++ match ev with LogError m => [m] | _ => [] end.
Proof. unfold errors. cbn [logged trace]. apply flat_map_snoc. Qed.

#[local] Instance error_frame : Frame inside_enabled same_errors not_error.
Proof.
  split.
  - intros w. reflexivity.
  - intros a b c Hab Hbc. unfold same_errors in *. congruence.
  - intros w e Iw. split; [exact Iw | reflexivity].
  - intros w ev Hq Iw. split; [exact Iw |]. unfold same_errors.
    rewrite errors_logged. destruct ev; try discriminate; apply app_nil_r.
Qed.

Lemma hoare_inside_errors {A} (k : bool -> M A) :
  hoare inside_enabled same_errors (k true) ->
  hoare inside_enabled same_errors (get_use_inside_model ≫= k).
Proof. intros Hk w Iw. rewrite bind_run. cbn. rewrite Iw. apply Hk. exact Iw. Qed.

Section CommandLine.

Context `{PyLib} `{Pipeline}.

(** With the method [auto] and the inside model, [do_parse] takes
    neither of its two exits. *)
Lemma do_parse_auto (output_dir name bytes : string) (f : Flags) :
  hoare inside_enabled same_errors (do_parse output_dir name bytes "auto" f).
Proof.
  unfold do_parse.
  hoare_go_with ltac:(first [rewrite String.eqb_refl | apply hoare_inside_errors]);
    apply prepare_env_hoare.
Qed.

Lemma batch_auto (jobs : list (string * string)) :
  forall result, hoare inside_enabled same_errors (batch "auto" jobs result).
Proof.
  induction jobs as [| [pdf_path out_dir] rest IH]; intros result; cbn [batch].
  - apply hoare_ret.
  - apply hoare_bind; [| intros r; apply IH].
    unfold attempt. apply hoare_bind; [apply hoare_log; reflexivity | intros _].
    apply hoare_try_except.
    + unfold process. hoare_go; [apply load_model_list_hoare | apply do_parse_auto].
    + intros e. hoare_go.
Qed.

(** X16: a run from the command line takes neither of the two fatal
    exits of [do_parse]: the method is always [auto] and the inside model
    is always enabled, so no error line ("unknown parse method", "need
    model list input") is ever logged; such a run is cut short only by
    what a pipeline stage itself raises. *)
Theorem cli_takes_no_fatal_exit (file_path out_root : string) (w : World) :
  errors (trace (state_of (cli file_path out_root w))) = errors (trace w)
  /\ use_inside_model (state_of (cli file_path out_root w)) = true.
Proof.
  unfold cli, main. rewrite bind_run. cbn [set_use_inside_model]. rewrite bind_run.
  cbn [set_model_mode env use_inside_model model_mode trace].
  set (w0 := mkWorld (env w) true "full" (trace w)).
  assert (I0 : inside_enabled w0) by reflexivity.
  assert (Hrest : hoare inside_enabled same_errors
                    (jobs ← collect file_path out_root;
                     result ← batch "auto" jobs [];
                     report result)).
  { apply hoare_bind; [apply collect_hoare | intros jobs].
    apply hoare_bind; [apply batch_auto | intros result].
    intros w1 I1. rewrite report_run. cbn [state_of]. split; [exact I1 |].
    unfold same_errors, errors. cbn [trace]. rewrite flat_map_app.
    replace (flat_map _ (map _ result)) with (@nil string); [apply app_nil_r |].
    induction result as [| [p d] rest IH]; [reflexivity | exact IH]. }
  destruct (Hrest w0 I0) as [I1 R1]. split; [exact R1 | exact I1].
Qed.

End CommandLine.

(* ===================================================================== *)
(** * Part III: the driver at work                                        *)
(* ===================================================================== *)

Lemma stub_keeps_model_list : construction_keeps_model_list.
Proof.
  repeat split; intros; intros e a e' Hc; cbn in Hc;
    unfold StubPipeline.new, StubPipeline.classify in Hc; inversion Hc; reflexivity.
Qed.

(** In [/home/u/in], [b/y.pdf] does not parse: the batch logs it and
    goes on with [a/x.pdf]. *)
Lemma batch_isolates_failures_witness :
  batch "auto" [("in/b/y.pdf", "/out/b"); ("in/a/x.pdf", "/out/a")] []
        (Scenario.ready Scenario.disk)
  = batch "auto" [("in/a/x.pdf", "/out/a")] []
          (logged (state_of (process "in/b/y.pdf" "/out/b" "auto" []
                               (logged (Scenario.ready Scenario.disk) (Attempt "in/b/y.pdf"))))
                  (LogException (Exception "RuntimeError" "cannot parse"))).
Proof.
  apply (proj1 (batch_isolates_failures "auto")).
  - vm_compute. reflexivity.
  - reflexivity.
Defined.

Example batch_of_directory :
  trace (state_of (main "in" "/out" "auto" (Scenario.world Scenario.disk)))
  = [ Attempt "in/z.pdf"; Call "UNIPipe"; Call "pipe_classify"; Call "pipe_analyze";
      Call "pipe_parse"; Call "draw_layout_bbox"; Call "draw_span_bbox";
      Call "pipe_mk_markdown"; Write "/out/z/auto/z.md"; Write "/out/z/auto/middle.json";
      Write "/out/z/auto/model.json"; Write "/out/z/auto/origin.pdf";
      Call "pipe_mk_uni_format"; Write "/out/z/auto/content_list.json";
      LogInfo "local output dir is /out/z/auto";
      Attempt "in/b/y.pdf"; Call "UNIPipe"; Call "pipe_classify"; Call "pipe_analyze";
      Call "pipe_parse"; LogException (Exception "RuntimeError" "cannot parse");
      Attempt "in/a/x.pdf"; Call "UNIPipe"; Call "pipe_classify"; Call "pipe_analyze";
      Call "pipe_parse"; Call "draw_layout_bbox"; Call "draw_span_bbox";
      Call "pipe_mk_markdown"; Write "/out/a/x/auto/x.md"; Write "/out/a/x/auto/middle.json";
      Write "/out/a/x/auto/model.json"; Write "/out/a/x/auto/origin.pdf";
      Call "pipe_mk_uni_format"; Write "/out/a/x/auto/content_list.json";
      LogInfo "local output dir is /out/a/x/auto";
      Report "in/z.pdf" 6; Report "in/a/x.pdf" 6 ].
Proof. vm_compute. reflexivity. Qed.


(** The claim C2 as it stands fails: over the empty directory [/out]
    with the method [zzz] no parse call is made, and the run ends
    normally, with status 0. *)
Lemma unknown_method_can_end_normally :
  recognized "zzz" = false
  /\ FS.isdir Scenario.disk "/out" = true
  /\ main "/out" "/tmp" "zzz" (Scenario.world Scenario.disk)
     = Ok tt (mkWorld (env (Scenario.world Scenario.disk)) true "full" [])
  /\ exit_status (main "/out" "/tmp" "zzz" (Scenario.world Scenario.disk)) = 0%Z.
Proof. repeat split; vm_compute; reflexivity. Qed.

(** A second run over [doc.pdf] finds the model list of the first and
    does not infer again. *)
Lemma cached_records_skip_inference_witness :
  inferences (trace (state_of
     (attempt "doc.pdf" "/out/" "auto" []
        (Scenario.after (main "doc.pdf" "/out" "auto" (Scenario.world Scenario.disk))))))
  = inferences (trace (Scenario.after (main "doc.pdf" "/out" "auto"
                                            (Scenario.world Scenario.disk))))
  /\ env_model_list
       (env (state_of
          (load_model_list "/out/" (Pathlib.stem "doc.pdf") "auto"
             (logged (Scenario.after (main "doc.pdf" "/out" "auto"
                                           (Scenario.world Scenario.disk)))
                     (Attempt "doc.pdf")))))
     = Json.Arr [Json.Obj [("page_no", Json.Num 0)]].
Proof.
  apply (cached_records_skip_inference "doc.pdf" "/out/" "auto"
           (MiniJson.dumps (Json.Arr [Json.Obj [("page_no", Json.Num 0)]])) []
           (Json.Arr [Json.Obj [("page_no", Json.Num 0)]]) 0).
  - exact stub_keeps_model_list.
  - vm_compute. reflexivity.
  - vm_compute. reflexivity.
  - vm_compute. reflexivity.
  - reflexivity.
Defined.

(** The claim C3 as it stands fails: the first run over [blank.pdf]
    leaves a [model.json] that holds the empty list, and the second run,
    which finds that file, calls [pipe_analyze] again. *)
Lemma cached_empty_list_runs_inference :
  FS.exists_ (env_fs (env (Scenario.after (main "blank.pdf" "/out" "auto"
                                                (Scenario.world Scenario.disk)))))
             (model_list_path "/out/" "blank" "auto") = true
  /\ inferences (trace (state_of
       (main "blank.pdf" "/out" "auto"
             (Scenario.after (main "blank.pdf" "/out" "auto" (Scenario.world Scenario.disk))))))
     = 1.
Proof. split; vm_compute; reflexivity. Qed.


(** The claim C5 as it stands fails: on a [model.json] that does not
    parse the document is not processed with a fresh inference; the run
    logs the decoding error and calls no pipeline stage at all. *)
Lemma garbled_cache_is_not_a_miss :
  FS.exists_ garbled_disk (model_list_path "/out/" "doc" "auto") = true
  /\ FS.read garbled_disk (model_list_path "/out/" "doc" "auto") = inr "{not json"
  /\ json_loads "{not json" = None
  /\ trace (state_of (main "doc.pdf" "/out" "auto" (Scenario.world garbled_disk)))
     = [Attempt "doc.pdf";
        LogException (Exception "JSONDecodeError" "/out/doc/auto/model.json")]
  /\ inferences (trace (state_of (main "doc.pdf" "/out" "auto" (Scenario.world garbled_disk))))
     = 0.
Proof. repeat split; vm_compute; reflexivity. Qed.

Lemma garbled_cache_fails_document_witness :
  exists e w',
    attempt "doc.pdf" "/out/" "auto" [] (Scenario.world garbled_disk) = Ok [] w'
    /\ is_Exception e = true
    /\ trace w' = trace (Scenario.world garbled_disk) ++ [Attempt "doc.pdf"; LogException e]
    /\ env_fs (env w') = env_fs (env (Scenario.world garbled_disk))
    /\ (forall data,
           read_fn "doc.pdf" (Scenario.world garbled_disk)
           = Ok data (Scenario.world garbled_disk) ->
           e = Exception "JSONDecodeError"
                 (model_list_path "/out/" (Pathlib.stem "doc.pdf") "auto")).
Proof.
  apply (garbled_cache_fails_document "doc.pdf" "/out/" "auto" "{not json" []
           (Scenario.world garbled_disk)).
  - vm_compute. reflexivity.
  - vm_compute. reflexivity.
  - vm_compute. reflexivity.
Defined.

(** The claim C8 as it stands fails: the run over [doc.pdf] with the
    method [zzz] exits with status 1 and has written no file, but the
    directories [/out/doc/zzz] and [/out/doc/zzz/images] are there
    afterwards. *)
Lemma unknown_method_leaves_directories :
  recognized "zzz" = false
  /\ FS.exists_ Scenario.disk "/out/doc" = false
  /\ exit_status (main "doc.pdf" "/out" "zzz" (Scenario.world Scenario.disk)) = 1%Z
  /\ FS.isdir (env_fs (env (state_of (main "doc.pdf" "/out" "zzz"
                                           (Scenario.world Scenario.disk)))))
              "/out/doc/zzz/images" = true.
Proof. repeat split; vm_compute; reflexivity. Qed.

Lemma unknown_method_leaves_no_artifact_witness :
  no_artifact (Scenario.world Scenario.disk)
              (state_of (main "in" "/out" "zzz" (Scenario.world Scenario.disk)))
  /\ (forall jobs result w0,
         match batch "zzz" jobs result w0 with
         | Ok result' _ => result' = result
         | Err e _ => e = SystemExit 1
         end).
Proof.
  apply (unknown_method_leaves_no_artifact "in" "/out" "zzz" (Scenario.world Scenario.disk)).
  reflexivity.
Defined.

(** Entered through [do_parse] itself, with the inside model disabled
    and no model list, the branch that [main] never takes is taken. *)
Example do_parse_can_need_model_list :
  do_parse "/out/" "doc" "doc-bytes" "auto" default_flags
           (mkWorld (mkEnv Scenario.disk 0 (Json.Arr [])) false "" [])
  = Err (SystemExit 2)
        (mkWorld (mkEnv (env_fs (env (state_of (prepare_env "/out/" "doc" "auto"
                                                  (Scenario.world Scenario.disk)))))
                        0 (Json.Arr []))
                 false ""
                 [Call "UNIPipe"; Call "pipe_classify"; LogError need_model_msg]).
Proof. vm_compute. reflexivity. Qed.

(** In [/home/u/in] discovery finds [z.pdf], [b/y.pdf] and [a/x.pdf]:
    neither [W.PDF] nor the file of the hidden directory. *)
Example discovery_in_scenario :
  collect "in" "/out" (Scenario.world Scenario.disk)
  = Ok [("in/z.pdf", "/out/"); ("in/b/y.pdf", "/out/b"); ("in/a/x.pdf", "/out/a")]
       (Scenario.world Scenario.disk).
Proof. vm_compute. reflexivity. Qed.

Lemma discovery_is_case_sensitive_witness :
  match collect "in" "/out" (Scenario.world Scenario.disk) with
  | Ok jobs _ =>
      forall pdf_path out_dir,
        In (pdf_path, out_dir) jobs ->
        (exists stem, PosixPath.basename pdf_path = stem +:+ ".pdf")
        /\ (forall stem ext,
               String.length ext = 4 -> ext <> ".pdf" ->
               PosixPath.basename pdf_path <> stem +:+ ext)
  | Err _ _ => True
  end.
Proof.
  apply (discovery_is_case_sensitive "in" "/out" (Scenario.world Scenario.disk)).
  vm_compute. reflexivity.
Defined.

Lemma output_directory_mirrors_input_witness :
  exists jobs loc,
    collect "in" "/out" (Scenario.world Scenario.disk) = Ok jobs (Scenario.world Scenario.disk)
    /\ FS.resolve (env_fs (env (Scenario.world Scenario.disk))) "in" = Some loc
    /\ forall pdf_path out_dir,
         In (pdf_path, out_dir) jobs ->
         exists ds name,
           FS.visible_dirs (env_fs (env (Scenario.world Scenario.disk))) loc ds = true
           /\ is_Some (FS.tree (env_fs (env (Scenario.world Scenario.disk)))
                         !! (loc ++ ds ++ [name]))
           /\ pdf_path = PosixPath.join2
                           (PosixPath.join2 (Glob.root "in") (String.concat "/" ds)) name
           /\ out_dir = PosixPath.join2 "/out" (String.concat "/" ds).
Proof.
  apply (proj2 (proj2 (output_directory_mirrors_input "in" "/out"
                         (Scenario.world Scenario.disk)))).
  - vm_compute. reflexivity.
  - reflexivity.
Defined.

(** The single file [doc.pdf] with the output root [/out]: the artifacts
    are written in [/out/doc/auto]. *)
Example single_file_artifacts :
  writes (trace (state_of (main "doc.pdf" "/out" "auto" (Scenario.world Scenario.disk))))
  = ["/out/doc/auto/doc.md"; "/out/doc/auto/middle.json"; "/out/doc/auto/model.json";
     "/out/doc/auto/origin.pdf"; "/out/doc/auto/content_list.json"].
Proof. vm_compute. reflexivity. Qed.

(** The layout of [doc] with the method [auto] under [/out/]. *)
Lemma artifact_directory_deterministic_witness :
  PosixPath.join "/out/" ["doc"; "auto"] = "/out/doc/auto"
  /\ PosixPath.join2 (PosixPath.join "/out/" ["doc"; "auto"]) "images" = "/out/doc/auto/images"
  /\ model_list_path "/out/" "doc" "auto" = "/out/doc/auto/model.json".
Proof.
  exact (proj2 (proj2 (artifact_directory_deterministic "/out/" "doc" "auto")) eq_refl eq_refl).
Defined.

(** Laying out [/out/doc/auto] twice. *)
Lemma prepare_env_idempotent_witness :
  prepare_env "/out/" "doc" "auto"
    (state_of (prepare_env "/out/" "doc" "auto" (Scenario.world Scenario.disk)))
  = Ok ("/out/doc/auto/images", "/out/doc/auto")
       (state_of (prepare_env "/out/" "doc" "auto" (Scenario.world Scenario.disk))).
Proof.
  apply (prepare_env_idempotent "/out/" "doc" "auto" _ (Scenario.world Scenario.disk)).
  vm_compute. reflexivity.
Defined.

Lemma prepare_env_lays_out_witness :
  FS.isdir (env_fs (env (state_of (prepare_env "/out/" "doc" "auto"
                                                (Scenario.world Scenario.disk)))))
           "/out/doc/auto/images" = true
  /\ FS.isdir (env_fs (env (state_of (prepare_env "/out/" "doc" "auto"
                                                   (Scenario.world Scenario.disk)))))
              "/out/doc/auto" = true.
Proof.
  apply (proj2 (prepare_env_lays_out "/out/" "doc" "auto") eq_refl eq_refl
               (Scenario.world Scenario.disk)).
  vm_compute. reflexivity.
Defined.






(** The first run over [doc.pdf] infers once. *)
Lemma cache_miss_runs_inference_once_witness :
  inferences (trace (state_of (process "doc.pdf" "/out/" "auto" []
                                 (Scenario.ready Scenario.disk))))
  = inferences (trace (Scenario.ready Scenario.disk)) + 1.
Proof.
  apply (cache_miss_runs_inference_once "doc.pdf" "/out/" "auto" [] [("doc.pdf", 6%Z)]
           (Scenario.ready Scenario.disk)).
  - exact stub_keeps_model_list.
  - reflexivity.
  - vm_compute. reflexivity.
  - vm_compute. reflexivity.
Defined.


(** The disk after a run over [doc.pdf], with [null] for its
    [model.json]. *)
Lemma cache_without_length_fails_document_witness :
  match process "doc.pdf" "/out/" "auto" []
          (Scenario.ready
             (Scenario.with_file
                (env_fs (env (state_of (main "doc.pdf" "/out" "auto"
                                             (Scenario.world Scenario.disk)))))
                ["out"; "doc"; "auto"; "model.json"] "null")) with
  | Ok _ _ => False
  | Err e w' =>
      writes (trace w') = writes []
      /\ inferences (trace w') = inferences []
      /\ called "pipe_parse" (trace w') = called "pipe_parse" []
      /\ exists l, trace w' = [] ++ l /\ stopped_early l
  end.
Proof.
  apply (cache_without_length_fails_document "doc.pdf" "/out/" "auto" "null" [] Json.Null
           (Scenario.ready
              (Scenario.with_file
                 (env_fs (env (state_of (main "doc.pdf" "/out" "auto"
                                              (Scenario.world Scenario.disk)))))
                 ["out"; "doc"; "auto"; "model.json"] "null"))).
  - exact stub_keeps_model_list.
  - vm_compute. reflexivity.
  - vm_compute. reflexivity.
  - vm_compute. reflexivity.
  - reflexivity.
Defined.
